(** * Subculture Game Hub: ingest, scheduling and dispatch services

    A shallow embedding of [api/src/services/ingest.ts],
    [api/src/services/scheduling.ts] and [api/src/services/dispatch.ts],
    with the properties of the notice pipeline stated over it.

    Conventions.
    - A JavaScript string is the list of its UTF-16 code units ([N]).
    - A JavaScript number that holds a score is a binary64 float
      ([PrimFloat]); identifiers, counters and time values (milliseconds
      since the epoch) are integers.
    - A table of the relational store is the list of its rows, in
      insertion order; a query is a function on the store. *)

From Stdlib Require Import String Ascii.
From Stdlib Require Import ZArith NArith List Bool Lia Floats Permutation.
Import ListNotations.

Set Warnings "-inexact-float".

(* ================================================================== *)
(** ** JavaScript strings *)

Module JS.

Definition jsstring := list N.

(** An ASCII literal as a JavaScript string. *)
Definition lit (s : string) : jsstring :=
  map N_of_ascii (list_ascii_of_string s).

Definition code_eqb (a b : N) : bool := N.eqb a b.

Fixpoint str_eqb (a b : jsstring) : bool :=
  match a, b with
  | [], [] => true
  | x :: a', y :: b' => code_eqb x y && str_eqb a' b'
  | _, _ => false
  end.

(** [\d] of a regular expression without the [u] flag: the ten ASCII
    digits. *)
Definition isDigit (c : N) : bool := (48 <=? c)%N && (c <=? 57)%N.

(** [\s] of a regular expression, which is also the set that
    [String.prototype.trim] strips: WhiteSpace and LineTerminator of
    ECMA-262. *)
Definition isSpace (c : N) : bool :=
  ((9 <=? c) && (c <=? 13) || (c =? 32) || (c =? 160) || (c =? 5760)
   || ((8192 <=? c) && (c <=? 8202)) || (c =? 8232) || (c =? 8233)
   || (c =? 8239) || (c =? 8287) || (c =? 12288) || (c =? 65279))%N.

Definition SP : N := 32%N.
Definition LF : N := 10%N.

(** [s.replace(/\s+/g, " ")]: every maximal run of white space becomes one
    space.  [inRun] tells that the previous code unit was white space. *)
Fixpoint replaceSpaceRuns (inRun : bool) (s : jsstring) : jsstring :=
  match s with
  | [] => []
  | c :: t =>
      if isSpace c
      then (if inRun then replaceSpaceRuns true t
            else SP :: replaceSpaceRuns true t)
      else c :: replaceSpaceRuns false t
  end.

(** [s.replace(/\s+/g, "-")]. *)
Definition hyphenateSpaceRuns (s : jsstring) : jsstring :=
  map (fun c => if isSpace c then 45%N else c) (replaceSpaceRuns false s).

Fixpoint trimStart (s : jsstring) : jsstring :=
  match s with
  | [] => []
  | c :: t => if isSpace c then trimStart t else s
  end.

Definition trimEnd (s : jsstring) : jsstring := rev (trimStart (rev s)).

Definition trim (s : jsstring) : jsstring := trimEnd (trimStart s).

(** [s.slice(0, n)] for [0 <= n]. *)
Definition slice0 (n : nat) (s : jsstring) : jsstring := firstn n s.

Fixpoint startsWith (w s : jsstring) : bool :=
  match w, s with
  | [], _ => true
  | x :: w', y :: s' => code_eqb x y && startsWith w' s'
  | _ :: _, [] => false
  end.

(** [s.includes(w)]. *)
Fixpoint includes (s w : jsstring) : bool :=
  startsWith w s ||
  match s with
  | [] => false
  | _ :: t => includes t w
  end.

(** [String(n)] for a non-negative integer below 10^21: its decimal
    digits, most significant first. *)
Fixpoint decimalDigits (fuel : nat) (n : N) : jsstring :=
  match fuel with
  | O => []
  | S f =>
      if (n <? 10)%N then [(48 + n)%N]
      else decimalDigits f (n / 10)%N ++ [(48 + n mod 10)%N]
  end.

Definition numberToString (n : N) : jsstring :=
  decimalDigits (S (N.to_nat (N.log2 n))) n.

(** [Number(s)] for a string of decimal digits. *)
Definition digitsToNumber (s : jsstring) : N :=
  fold_left (fun acc c => (10 * acc + (c - 48))%N) s 0%N.

(** [s.padStart(n, "0")]. *)
Definition padStart0 (n : nat) (s : jsstring) : jsstring :=
  repeat 48%N (n - length s) ++ s.

(** The part of [String.prototype.toLowerCase] that does not need the
    Unicode case tables: Basic Latin capitals are mapped to small letters
    and every other code unit is kept.  It is the built-in on strings made of
    Basic Latin and of uncased scripts such as Hangul. *)
Definition toLowerCaseBasicLatin (s : jsstring) : jsstring :=
  map (fun c => if ((65 <=? c) && (c <=? 90))%N then (c + 32)%N else c) s.

(** [Math.min(a, b)]. *)
Definition Math_min (a b : float) : float :=
  if (PrimFloat.is_nan a || PrimFloat.is_nan b)%bool then PrimFloat.nan
  else if PrimFloat.ltb b a then b
  else if PrimFloat.ltb a b then a
  else if (PrimFloat.is_zero a && PrimFloat.get_sign b)%bool then b
  else a.

End JS.

(* ================================================================== *)
(** ** Regular expressions of [extractDateRange]

    The three patterns are sequences of character classes, of greedy
    bounded repetitions of a class (captured or not) and of [\s*].  The
    matcher is the backtracking matcher of ECMA-262 restricted to these
    forms: a repetition first takes as many code units as it can and gives
    them back one at a time while the rest of the pattern fails. *)

Module Regex.
Import JS.

Inductive cclass :=
| Digit                      (* \d *)
| Space                      (* \s *)
| OneOf (cs : list N).       (* [...] or a literal *)

Definition inClass (k : cclass) (c : N) : bool :=
  match k with
  | Digit => isDigit c
  | Space => isSpace c
  | OneOf cs => existsb (code_eqb c) cs
  end.

Inductive item :=
| One (k : cclass)                       (* one code unit of the class *)
| Cap (k : cclass) (lo hi : nat)         (* (k{lo,hi}), a capture group  *)
| Star (k : cclass).                     (* k*  *)

Definition pattern := list item.

(** Length of the longest prefix of [s] in class [k], at most [hi]. *)
Fixpoint run (k : cclass) (hi : nat) (s : jsstring) : nat :=
  match hi, s with
  | S hi', c :: t => if inClass k c then S (run k hi' t) else O
  | _, _ => O
  end.

(** Tries the continuation with [n], [n-1], ..., [lo] code units. *)
Fixpoint giveBack {A} (n lo : nat) (k : nat -> option A) : option A :=
  if n <? lo then None
  else match k n with
       | Some r => Some r
       | None => match n with
                 | O => None
                 | S n' => giveBack n' lo k
                 end
       end.

(** Match of a pattern at the start of [s]: the captures, in order. *)
Fixpoint matchHere (p : pattern) (s : jsstring) : option (list jsstring) :=
  match p with
  | [] => Some []
  | One k :: p' =>
      match s with
      | c :: t => if inClass k c then matchHere p' t else None
      | [] => None
      end
  | Cap k lo hi :: p' =>
      giveBack (run k hi s) lo
        (fun n => match matchHere p' (skipn n s) with
                  | Some caps => Some (firstn n s :: caps)
                  | None => None
                  end)
  | Star k :: p' =>
      giveBack (run k (length s) s) 0
        (fun n => matchHere p' (skipn n s))
  end.

(** [s.match(p)] for a pattern without the [g] flag: the captures of the
    leftmost match. *)
Fixpoint search (p : pattern) (s : jsstring) : option (list jsstring) :=
  match matchHere p s with
  | Some caps => Some caps
  | None => match s with
            | [] => None
            | _ :: t => search p t
            end
  end.

Definition sep : item := One (OneOf [46; 47; 45]%N).          (* [./-] *)
Definition colon : item := One (OneOf [58]%N).                (* :     *)
Definition dash : item := One (OneOf [126; 45; 8211]%N).      (* [~\-–] *)

(** [(\d{4})[./-](\d{1,2})[./-](\d{1,2})\s*(\d{1,2}):(\d{2})] *)
Definition dateTime : pattern :=
  [Cap Digit 4 4; sep; Cap Digit 1 2; sep; Cap Digit 1 2; Star Space;
   Cap Digit 1 2; colon; Cap Digit 2 2].

Definition fullRangePattern : pattern :=
  dateTime ++ [Star Space; dash; Star Space] ++ dateTime.

Definition sameDateRangePattern : pattern :=
  dateTime ++ [Star Space; dash; Star Space; Cap Digit 1 2; colon; Cap Digit 2 2].

Definition singlePattern : pattern := dateTime.

End Regex.

(* ================================================================== *)
(** ** ECMAScript dates

    [new Date(string)] on the one shape [toUtcIso] builds,
    [YYYY-MM-DDTHH:mm:ss+HH:mm], and [Date.prototype.toISOString].  A time
    value is the number of milliseconds since 1970-01-01T00:00Z; [None]
    is the time value NaN of an invalid date. *)

Module Dates.
Import JS.
Local Open Scope Z_scope.

Definition msPerDay : Z := 86400000.
Definition msPerHour : Z := 3600000.
Definition msPerMinute : Z := 60000.

(** DayFromYear of ECMA-262. *)
Definition DayFromYear (y : Z) : Z :=
  365 * (y - 1970) + (y - 1969) / 4 - (y - 1901) / 100 + (y - 1601) / 400.

Definition isLeapYear (y : Z) : bool :=
  ((y mod 4 =? 0) && negb (y mod 100 =? 0)) || (y mod 400 =? 0).

(** Days before the first day of month [m] (1..12) within its year. *)
Definition daysBeforeMonth (leap : bool) (m : Z) : Z :=
  let l := if leap then 1 else 0 in
  match m with
  | 1 => 0 | 2 => 31 | 3 => 59 + l | 4 => 90 + l | 5 => 120 + l
  | 6 => 151 + l | 7 => 181 + l | 8 => 212 + l | 9 => 243 + l
  | 10 => 273 + l | 11 => 304 + l | _ => 334 + l
  end.

Definition daysInMonth (leap : bool) (m : Z) : Z :=
  match m with
  | 2 => if leap then 29 else 28
  | 4 | 6 | 9 | 11 => 30
  | _ => 31
  end.

(** MakeDay(year, month - 1, day). *)
Definition MakeDay (y m d : Z) : Z :=
  DayFromYear y + daysBeforeMonth (isLeapYear y) m + d - 1.

(** MakeTime(hour, min, sec, 0). *)
Definition MakeTime (h mi s : Z) : Z :=
  h * msPerHour + mi * msPerMinute + s * 1000.

(** MakeDate(day, time). *)
Definition MakeDate (day time : Z) : Z := day * msPerDay + time.

(** Year (within its 400 year era, counted from March), month and day of
    the [doe]-th day of an era, which starts on a 1 March. *)
Definition civilOfDayOfEra (doe : Z) : Z * Z * Z :=
  let yoe := (doe - doe / 1460 + doe / 36524 - doe / 146096) / 365 in
  let doy := doe - (365 * yoe + yoe / 4 - yoe / 100) in
  let mp := (5 * doy + 2) / 153 in
  let d := doy - (153 * mp + 2) / 5 + 1 in
  let m := if mp <? 10 then mp + 3 else mp - 9 in
  (yoe + (if m <=? 2 then 1 else 0), m, d).

(** Year, month and day of a day number (days since the epoch); the eras
    are counted from 0000-03-01, day -719468. *)
Definition civilFromDays (z : Z) : Z * Z * Z :=
  let z := z + 719468 in
  let '(y, m, d) := civilOfDayOfEra (z mod 146097) in
  (y + 400 * (z / 146097), m, d).

Definition digit (n : Z) : N := (48 + Z.to_N (n mod 10))%N.

Definition fmt2 (n : Z) : jsstring := [digit (n / 10); digit n].
Definition fmt3 (n : Z) : jsstring := [digit (n / 100); digit (n / 10); digit n].
Definition fmt4 (n : Z) : jsstring :=
  [digit (n / 1000); digit (n / 100); digit (n / 10); digit n].
Definition fmt6 (n : Z) : jsstring :=
  [digit (n / 100000); digit (n / 10000)] ++ fmt4 n.

(** The year of [toISOString]: four digits from 0 to 9999, otherwise a sign
    and six digits. *)
Definition fmtYear (y : Z) : jsstring :=
  if (0 <=? y) && (y <=? 9999) then fmt4 y
  else (if y <? 0 then 45%N else 43%N) :: fmt6 (Z.abs y).

(** A calendar date and time of day, in UTC. *)
Record civil := mkCivil {
  c_year : Z; c_month : Z; c_day : Z;
  c_hour : Z; c_minute : Z; c_second : Z; c_ms : Z
}.

Definition civilOfTime (t : Z) : civil :=
  let '(y, m, d) := civilFromDays (t / msPerDay) in
  let r := t mod msPerDay in
  mkCivil y m d (r / msPerHour) (r / msPerMinute mod 60) (r / 1000 mod 60)
          (r mod 1000).

(** [YYYY-MM-DDTHH:mm:ss.sssZ] *)
Definition isoString (c : civil) : jsstring :=
  fmtYear (c_year c) ++ [45%N] ++ fmt2 (c_month c) ++ [45%N] ++ fmt2 (c_day c)
  ++ [84%N] ++ fmt2 (c_hour c) ++ [58%N] ++ fmt2 (c_minute c) ++ [58%N]
  ++ fmt2 (c_second c) ++ [46%N] ++ fmt3 (c_ms c) ++ [90%N].

(** [Date.prototype.toISOString] of a valid date. *)
Definition toISOString (t : Z) : jsstring := isoString (civilOfTime t).

(** Reads [n] decimal digits. *)
Fixpoint readDigits (n : nat) (acc : Z) (s : jsstring) : option (Z * jsstring) :=
  match n with
  | O => Some (acc, s)
  | S n' =>
      match s with
      | c :: t =>
          if isDigit c then readDigits n' (10 * acc + (Z.of_N c - 48)) t
          else None
      | [] => None
      end
  end.

Definition expect (c : N) (s : jsstring) : option jsstring :=
  match s with
  | x :: t => if code_eqb x c then Some t else None
  | [] => None
  end.

Definition bind {A B} (o : option A) (f : A -> option B) : option B :=
  match o with Some a => f a | None => None end.

Notation "'do' x <- o ; k" := (bind o (fun x => k))
  (at level 10, x pattern, o at level 100, k at level 200).

(** The time value of [new Date(s)] for [s] of the shape
    [YYYY-MM-DDTHH:mm:ss+HH:mm] (or [-HH:mm]); NaN for every other string.
    The ranges are those of the V8 parser of Node.js: month 1..12, day
    1..31 whatever the month (a day past the end of the month runs into
    the next one), hour 0..23 or 24:00:00, minute and second 0..59. *)
Definition parseDate (s : jsstring) : option Z :=
  do (y, s) <- readDigits 4 0 s;
  do s <- expect 45 s;
  do (m, s) <- readDigits 2 0 s;
  do s <- expect 45 s;
  do (d, s) <- readDigits 2 0 s;
  do s <- expect 84 s;
  do (h, s) <- readDigits 2 0 s;
  do s <- expect 58 s;
  do (mi, s) <- readDigits 2 0 s;
  do s <- expect 58 s;
  do (sec, s) <- readDigits 2 0 s;
  do (sign, s) <- match s with
                  | 43%N :: t => Some (1, t)
                  | 45%N :: t => Some (-1, t)
                  | _ => None
                  end;
  do (oh, s) <- readDigits 2 0 s;
  do s <- expect 58 s;
  do (om, s) <- readDigits 2 0 s;
  match s with
  | [] =>
      let dateOk := (1 <=? m) && (m <=? 12) && (1 <=? d) && (d <=? 31) in
      let timeOk := ((h <=? 23) && (mi <=? 59) && (sec <=? 59))
                    || ((h =? 24) && (mi =? 0) && (sec =? 0)) in
      let zoneOk := (oh <=? 23) && (om <=? 59) in
      if dateOk && timeOk && zoneOk
      then Some (MakeDate (MakeDay y m d) (MakeTime h mi sec)
                 - sign * (oh * msPerHour + om * msPerMinute))
      else None
  | _ => None
  end.

End Dates.

(* ================================================================== *)
(** ** [ingest.ts]: text extraction and the parser *)

Module Ingest.
Import JS Regex.

Inductive EventType := PICKUP | UPDATE | MAINTENANCE | EVENT | CAMPAIGN.

(** The visibilities of the [events] table; the parser produces the first
    two only. *)
Inductive Visibility := PUBLIC | NEED_REVIEW | HIDDEN.

Record ParsedEventDraft := mkDraft {
  d_type : EventType;
  d_title : jsstring;
  d_summary : jsstring;
  d_startAtUtc : option jsstring;
  d_endAtUtc : option jsstring;
  d_confidence : float;
  d_visibility : Visibility
}.

Record DateRange := mkDateRange {
  startAtUtc : option jsstring;
  endAtUtc : option jsstring;
  score : float
}.

Definition normalizeText (input : jsstring) : jsstring :=
  trim (replaceSpaceRuns false input).

Definition summarize (input : jsstring) (maxLength : nat) : jsstring :=
  let normalized := normalizeText input in
  if length normalized <=? maxLength then normalized
  else slice0 (maxLength - 1) normalized ++ lit "...".

(** The names that the map of [timezoneOffset], an object literal,
    inherits from [Object.prototype]: for these [map[timezone]] is not
    [undefined], so the default is not taken. *)
Definition inheritedMethods : list jsstring :=
  [lit "toString"; lit "toLocaleString"; lit "valueOf"; lit "hasOwnProperty";
   lit "isPrototypeOf"; lit "propertyIsEnumerable"; lit "__defineGetter__";
   lit "__defineSetter__"; lit "__lookupGetter__"; lit "__lookupSetter__"].

(** [timezoneOffset], as the text that the template literal of [toUtcIso]
    makes of its result: the offset of an own key of the map, the text of
    an inherited member, the default for every other name. *)
Definition timezoneOffset (timezone : jsstring) : jsstring :=
  if str_eqb timezone (lit "Asia/Seoul") then lit "+09:00"
  else if str_eqb timezone (lit "Asia/Tokyo") then lit "+09:00"
  else if str_eqb timezone (lit "UTC") then lit "+00:00"
  else if str_eqb timezone (lit "__proto__") then lit "[object Object]"
  else if str_eqb timezone (lit "constructor")
       then lit "function Object() { [native code] }"
  else if existsb (str_eqb timezone) inheritedMethods
       then lit "function " ++ timezone ++ lit "() { [native code] }"
  else lit "+00:00".

Record DateParts := mkParts {
  year : N; month : N; day : N; hour : N; minute : N;
  timezone : jsstring
}.

Definition toUtcIso (parts : DateParts) : option jsstring :=
  let yyyy := padStart0 4 (numberToString (year parts)) in
  let mm := padStart0 2 (numberToString (month parts)) in
  let dd := padStart0 2 (numberToString (day parts)) in
  let hh := padStart0 2 (numberToString (hour parts)) in
  let min := padStart0 2 (numberToString (minute parts)) in
  let offset := timezoneOffset (timezone parts) in
  let value :=
    Dates.parseDate
      (yyyy ++ lit "-" ++ mm ++ lit "-" ++ dd ++ lit "T" ++ hh ++ lit ":"
       ++ min ++ lit ":00" ++ offset) in
  match value with
  | None => None
  | Some t => Some (Dates.toISOString t)
  end.

(** JavaScript truthiness of [string | null]: [null] and the empty string
    are falsy. *)
Definition truthy (o : option jsstring) : bool :=
  match o with
  | Some (_ :: _) => true
  | _ => false
  end.

Definition group (caps : list jsstring) (i : nat) : N :=
  digitsToNumber (nth (i - 1) caps []).

Definition extractDateRange (text : jsstring) (timezone : jsstring) : DateRange :=
  let source := normalizeText text in
  match search fullRangePattern source with
  | Some m =>
      let startAtUtc :=
        toUtcIso (mkParts (group m 1) (group m 2) (group m 3) (group m 4)
                          (group m 5) timezone) in
      let endAtUtc :=
        toUtcIso (mkParts (group m 6) (group m 7) (group m 8) (group m 9)
                          (group m 10) timezone) in
      mkDateRange startAtUtc endAtUtc
        (if truthy startAtUtc && truthy endAtUtc then 0.35 else 0.15)%float
  | None =>
  match search sameDateRangePattern source with
  | Some m =>
      let startAtUtc :=
        toUtcIso (mkParts (group m 1) (group m 2) (group m 3) (group m 4)
                          (group m 5) timezone) in
      let endAtUtc :=
        toUtcIso (mkParts (group m 1) (group m 2) (group m 3) (group m 6)
                          (group m 7) timezone) in
      mkDateRange startAtUtc endAtUtc
        (if truthy startAtUtc && truthy endAtUtc then 0.3 else 0.1)%float
  | None =>
  match search singlePattern source with
  | Some m =>
      let date :=
        toUtcIso (mkParts (group m 1) (group m 2) (group m 3) (group m 4)
                          (group m 5) timezone) in
      mkDateRange date None (if truthy date then 0.15 else 0.05)%float
  | None => mkDateRange None None 0%float
  end end end.

Definition pickupKeywords : list jsstring :=
  [lit "pickup"; lit "pick-up"; lit "rate up";
   [44032; 52320]%N;                          (* 가챠 *)
   [54589; 50629]%N;                          (* 픽업 *)
   lit "recruitment"; lit "warp"].

Definition updateKeywords : list jsstring :=
  [lit "update"; lit "patch";
   [54056; 52824]%N;                          (* 패치 *)
   [50629; 45936; 51060; 53944]%N;            (* 업데이트 *)
   lit "version";
   [51216; 44160; 32; 54980; 32; 50629; 45936; 51060; 53944]%N].
                                              (* 점검 후 업데이트 *)

Definition maintenanceKeywords : list jsstring :=
  [lit "maintenance";
   [51216; 44160]%N;                          (* 점검 *)
   lit "maintenance notice";
   [44596; 44553; 32; 51216; 44160]%N].       (* 긴급 점검 *)

Definition campaignKeywords : list jsstring :=
  [lit "campaign";
   [52896; 54168; 51064]%N;                   (* 캠페인 *)
   [48372; 45320; 49828]%N;                   (* 보너스 *)
   lit "2x"; lit "double drop"].

Definition hit (source : jsstring) (keywords : list jsstring) : bool :=
  existsb (fun word => includes source word) keywords.

(** [/[^a-z0-9\s-]/]: what [slugify] keeps. *)
Definition slugChar (c : N) : bool :=
  ((97 <=? c) && (c <=? 122))%N || isDigit c || isSpace c || (c =? 45)%N.

Definition toVisibility (confidence : float) : Visibility :=
  if PrimFloat.leb 0.65 confidence then PUBLIC else NEED_REVIEW.

Section Parser.

(** [String.prototype.toLowerCase], whose Unicode case tables are not
    part of this repository. *)
Variable toLowerCase : jsstring -> jsstring.

Definition detectEventType (text : jsstring) : EventType * float :=
  let source := toLowerCase text in
  if hit source pickupKeywords then (PICKUP, 0.25%float)
  else if hit source maintenanceKeywords then (MAINTENANCE, 0.25%float)
  else if hit source updateKeywords then (UPDATE, 0.22%float)
  else if hit source campaignKeywords then (CAMPAIGN, 0.2%float)
  else (EVENT, 0.1%float).

Definition slugify (input : jsstring) : jsstring :=
  slice0 60 (hyphenateSpaceRuns (trim (filter slugChar (toLowerCase input)))).

Record RawInput := mkInput {
  in_title : jsstring;
  in_contentText : jsstring;
  in_timezone : jsstring
}.

Definition parseRawNoticeToEventDraft (params : RawInput) : ParsedEventDraft :=
  let merged := in_title params ++ [LF] ++ in_contentText params in
  let '(type, typeScore) := detectEventType merged in
  let dateRange := extractDateRange merged (in_timezone params) in
  let summary :=
    summarize (match in_contentText params with
               | [] => in_title params
               | _ => in_contentText params
               end) 220 in
  let confidence :=
    Math_min 1 (0.35 + typeScore + score dateRange
                + (if Nat.ltb 20 (length summary) then 0.1 else 0))%float in
  mkDraft type (normalizeText (in_title params)) summary
          (startAtUtc dateRange) (endAtUtc dateRange)
          confidence (toVisibility confidence).

End Parser.

End Ingest.


(* ================================================================== *)
(** ** The relational store

    The tables of [db/migrations] that the three services read and write.
    A [BIGSERIAL] key is an integer drawn from the table's sequence; a
    [TIMESTAMPTZ] is a time value in milliseconds, as the driver hands it
    to the services. *)

Module Store.
Import JS.
Export Ingest (EventType, PICKUP, UPDATE, MAINTENANCE, EVENT, CAMPAIGN,
               Visibility, PUBLIC, NEED_REVIEW, HIDDEN).

Inductive Trigger := ON_START | ON_END | BEFORE_END | BEFORE_START | ON_PUBLISH.
Inductive Channel := WEBPUSH | EMAIL | DISCORD.
Inductive Scope := GLOBAL | REGION.
Inductive ScheduleStatus := PENDING | PROCESSING | SENT | FAILED | CANCELED.
Inductive RawStatus := NEW | PARSED | ERROR.
Inductive DeliveryResult := SUCCESS | DELIVERY_FAILED.

(** A row of [events] ([image_url], which no service writes, is left out;
    [ev_confidence] is the number the service passes, of which the column
    keeps two decimals). *)
Record EventRow := mkEvent {
  ev_id : Z;
  ev_region_id : Z;
  ev_type : EventType;
  ev_title : jsstring;
  ev_summary : jsstring;
  ev_start_at_utc : option Z;
  ev_end_at_utc : option Z;
  ev_source_url : jsstring;
  ev_canonical_event_key : jsstring;
  ev_confidence : float;
  ev_visibility : Visibility;
  ev_created_at : Z;
  ev_updated_at : Z
}.

Record RuleRow := mkRule {
  rule_id : Z;
  rule_user_id : Z;
  rule_scope : Scope;
  rule_region_id : option Z;
  rule_event_type : EventType;
  rule_trigger : Trigger;
  rule_offset_minutes : option Z;
  rule_channel : Channel;
  rule_enabled : bool
}.

Record UserGameRow := mkUserGame {
  ug_user_id : Z;
  ug_region_id : Z;
  ug_enabled : bool
}.

(** [payload_json] of a schedule. *)
Record Payload := mkPayload {
  eventTitle : jsstring;
  eventType : EventType;
  trigger : Trigger;
  offsetMinutes : Z;
  channel : Channel
}.

Record ScheduleRow := mkSchedule {
  ns_id : Z;
  ns_user_id : Z;
  ns_event_id : Z;
  ns_channel : Channel;
  ns_trigger_type : Trigger;
  ns_trigger_offset_minutes : Z;
  ns_scheduled_at_utc : Z;
  ns_status : ScheduleStatus;
  ns_payload_json : Payload;
  ns_dedupe_key : jsstring;
  ns_created_at : Z;
  ns_updated_at : Z
}.

(** [response_payload] of a delivery: the channel, and for a simulated
    send the time it was sent at. *)
Record ResponsePayload := mkResponse {
  rp_channel : Channel;
  rp_simulated : bool;
  rp_sentAt : option Z
}.

Record DeliveryRow := mkDelivery {
  nd_id : Z;
  nd_schedule_id : Z;
  nd_sent_at_utc : Z;
  nd_result : DeliveryResult;
  nd_error_message : option jsstring;
  nd_response_payload : ResponsePayload
}.

Record PushSubscriptionRow := mkPush {
  ps_user_id : Z;
  ps_endpoint : jsstring
}.

Record UserRow := mkUser {
  user_id : Z;
  user_email : option jsstring
}.

(** [raw_payload] of a raw notice. *)
Inductive RawPayload :=
| RssPayload (guid : option jsstring) (categories : list jsstring)
| HtmlListPayload (extractedDateText : jsstring).

Record RawNoticeRow := mkRawNotice {
  rn_id : Z;
  rn_source_id : Z;
  rn_url : jsstring;
  rn_title : jsstring;
  rn_published_at : option Z;
  rn_fetched_at : Z;
  rn_content_text : option jsstring;
  rn_content_hash : option jsstring;
  rn_raw_payload : option RawPayload;
  rn_parser_version : jsstring;
  rn_status : RawStatus
}.

Record EventRawLink := mkLink {
  erl_event_id : Z;
  erl_raw_notice_id : Z
}.

Inductive SourceType := RSS | HTML_LIST | HTML_DETAIL | API.

(** A row of [sources] ([config_json], which only the collectors read, is
    left out). *)
Record SourceTableRow := mkSourceRow {
  src_id : Z;
  src_region_id : Z;
  src_type : SourceType;
  src_base_url : jsstring;
  src_list_url : option jsstring;
  src_enabled : bool;
  src_fetch_interval_minutes : Z;
  src_last_success_at : option Z;
  src_last_error_at : option Z;
  src_last_error_message : option jsstring
}.

Record Db := mkDb {
  events : list EventRow;
  events_seq : Z;
  notification_rules : list RuleRow;
  user_games : list UserGameRow;
  notification_schedules : list ScheduleRow;
  notification_schedules_seq : Z;
  notification_deliveries : list DeliveryRow;
  notification_deliveries_seq : Z;
  push_subscriptions : list PushSubscriptionRow;
  users : list UserRow;
  raw_notices : list RawNoticeRow;
  raw_notices_seq : Z;
  event_raw_links : list EventRawLink;
  sources : list SourceTableRow
}.

Definition set_schedules (db : Db) (rows : list ScheduleRow) (seq : Z) : Db :=
  mkDb (events db) (events_seq db) (notification_rules db) (user_games db)
       rows seq
       (notification_deliveries db) (notification_deliveries_seq db)
       (push_subscriptions db) (users db)
       (raw_notices db) (raw_notices_seq db) (event_raw_links db)
       (sources db).

Definition set_deliveries (db : Db) (rows : list DeliveryRow) (seq : Z) : Db :=
  mkDb (events db) (events_seq db) (notification_rules db) (user_games db)
       (notification_schedules db) (notification_schedules_seq db)
       rows seq
       (push_subscriptions db) (users db)
       (raw_notices db) (raw_notices_seq db) (event_raw_links db)
       (sources db).

Definition set_events (db : Db) (rows : list EventRow) (seq : Z) : Db :=
  mkDb rows seq (notification_rules db) (user_games db)
       (notification_schedules db) (notification_schedules_seq db)
       (notification_deliveries db) (notification_deliveries_seq db)
       (push_subscriptions db) (users db)
       (raw_notices db) (raw_notices_seq db) (event_raw_links db)
       (sources db).

Definition set_raw_notices (db : Db) (rows : list RawNoticeRow) (seq : Z) : Db :=
  mkDb (events db) (events_seq db) (notification_rules db) (user_games db)
       (notification_schedules db) (notification_schedules_seq db)
       (notification_deliveries db) (notification_deliveries_seq db)
       (push_subscriptions db) (users db)
       rows seq (event_raw_links db) (sources db).

Definition set_links (db : Db) (rows : list EventRawLink) : Db :=
  mkDb (events db) (events_seq db) (notification_rules db) (user_games db)
       (notification_schedules db) (notification_schedules_seq db)
       (notification_deliveries db) (notification_deliveries_seq db)
       (push_subscriptions db) (users db)
       (raw_notices db) (raw_notices_seq db) rows (sources db).

Definition set_sources (db : Db) (rows : list SourceTableRow) : Db :=
  mkDb (events db) (events_seq db) (notification_rules db) (user_games db)
       (notification_schedules db) (notification_schedules_seq db)
       (notification_deliveries db) (notification_deliveries_seq db)
       (push_subscriptions db) (users db)
       (raw_notices db) (raw_notices_seq db) (event_raw_links db) rows.

Definition status_eqb (a b : ScheduleStatus) : bool :=
  match a, b with
  | PENDING, PENDING | PROCESSING, PROCESSING | SENT, SENT
  | FAILED, FAILED | CANCELED, CANCELED => true
  | _, _ => false
  end.

Definition eventType_eqb (a b : EventType) : bool :=
  match a, b with
  | PICKUP, PICKUP | UPDATE, UPDATE | MAINTENANCE, MAINTENANCE
  | EVENT, EVENT | CAMPAIGN, CAMPAIGN => true
  | _, _ => false
  end.

Definition eventTypeName (t : EventType) : jsstring :=
  match t with
  | PICKUP => lit "PICKUP" | UPDATE => lit "UPDATE"
  | MAINTENANCE => lit "MAINTENANCE" | EVENT => lit "EVENT"
  | CAMPAIGN => lit "CAMPAIGN"
  end.

Definition triggerName (t : Trigger) : jsstring :=
  match t with
  | ON_START => lit "ON_START" | ON_END => lit "ON_END"
  | BEFORE_END => lit "BEFORE_END" | BEFORE_START => lit "BEFORE_START"
  | ON_PUBLISH => lit "ON_PUBLISH"
  end.

Definition channelName (c : Channel) : jsstring :=
  match c with
  | WEBPUSH => lit "WEBPUSH" | EMAIL => lit "EMAIL" | DISCORD => lit "DISCORD"
  end.

(** How a call ends: with a value, or with the exception it throws. *)
Inductive Outcome (A : Type) :=
| Returned (value : A)
| Thrown (message : jsstring).
Arguments Returned {A} value.
Arguments Thrown {A} message.

(** [String(n)] for an integer. *)
Definition intToString (z : Z) : jsstring :=
  if (z <? 0)%Z then 45%N :: numberToString (Z.to_N (- z))
  else numberToString (Z.to_N z).

End Store.

(* ================================================================== *)
(** ** [scheduling.ts]

    The clock ([Date.now()], [new Date()] and the store's [NOW()]) is read
    once per planning call and is the argument [now]. *)

Module Scheduling.
Import JS Store.
Local Open Scope Z_scope.

(** [DbDate] as the driver produces it: [null] or a [Date], whose time
    value is NaN ([None]) when the date is invalid. *)
Inductive DbDate :=
| DbNull
| DbDateObj (time : option Z).

(** The driver's reading of a nullable [TIMESTAMPTZ] column. *)
Definition dbDate (column : option Z) : DbDate :=
  match column with
  | None => DbNull
  | Some t => DbDateObj (Some t)
  end.

Definition toDate (value : DbDate) : option Z :=
  match value with
  | DbNull => None
  | DbDateObj None => None
  | DbDateObj (Some t) => Some t
  end.

Definition offsetOr0 (rule : RuleRow) : Z :=
  match rule_offset_minutes rule with Some o => o | None => 0 end.

Definition computeScheduledAt (now : Z) (rule : RuleRow) (event : EventRow)
  : option Z :=
  let startAt := toDate (dbDate (ev_start_at_utc event)) in
  let endAt := toDate (dbDate (ev_end_at_utc event)) in
  let createdAt :=
    match toDate (dbDate (Some (ev_created_at event))) with
    | Some t => t
    | None => now
    end in
  let offsetMs := offsetOr0 rule * 60 * 1000 in
  match rule_trigger rule with
  | ON_START => startAt
  | ON_END => endAt
  | BEFORE_END =>
      match endAt with Some e => Some (e - offsetMs) | None => None end
  | BEFORE_START =>
      match startAt with Some s => Some (s - offsetMs) | None => None end
  | ON_PUBLISH => Some createdAt
  end.

Definition getEvent (db : Db) (eventId : Z) : option EventRow :=
  find (fun e => ev_id e =? eventId) (events db).

(** [if (userId)]: an absent, zero or NaN user id adds no clause. *)
Definition userClause (userId : option Z) (rowUser : Z) : bool :=
  match userId with
  | None => true
  | Some u => if u =? 0 then true else rowUser =? u
  end.

Definition getEligibleRulesForEvent (db : Db) (event : EventRow)
           (userId : option Z) : list RuleRow :=
  filter
    (fun r =>
       rule_enabled r
       && eventType_eqb (rule_event_type r) (ev_type event)
       && (match rule_scope r with
           | GLOBAL => true
           | REGION =>
               match rule_region_id r with
               | Some g => g =? ev_region_id event
               | None => false
               end
           end)
       && userClause userId (rule_user_id r))
    (notification_rules db).

(** [SELECT DISTINCT]: every value once.  The store is free in the order
    of the rows it returns; the model takes the order of first occurrence
    in the table, and what is proved of planning does not depend on it. *)
Fixpoint distinct (seen l : list Z) : list Z :=
  match l with
  | [] => []
  | x :: t =>
      if existsb (Z.eqb x) seen then distinct seen t
      else x :: distinct (x :: seen) t
  end.

Definition getTargetUsersForRegion (db : Db) (regionId : Z)
           (userId : option Z) : list Z :=
  distinct []
    (map ug_user_id
       (filter (fun g => (ug_region_id g =? regionId) && ug_enabled g
                         && userClause userId (ug_user_id g))
               (user_games db))).

(** [Array.prototype.join]. *)
Fixpoint join (sep : jsstring) (parts : list jsstring) : jsstring :=
  match parts with
  | [] => []
  | [p] => p
  | p :: rest => p ++ sep ++ join sep rest
  end.

Definition makeDedupeKey (userId eventId : Z) (channel : Channel)
           (trigger : Trigger) (offsetMinutes : Z) : jsstring :=
  join (lit ":")
       [intToString userId; intToString eventId; channelName channel;
        triggerName trigger; intToString offsetMinutes].

(** The [DO UPDATE] of [upsertSchedule]. *)
Definition onConflictUpdate (now scheduledAt : Z) (payload : Payload)
           (r : ScheduleRow) : ScheduleRow :=
  mkSchedule (ns_id r) (ns_user_id r) (ns_event_id r) (ns_channel r)
             (ns_trigger_type r) (ns_trigger_offset_minutes r)
             scheduledAt
             (match ns_status r with SENT => ns_status r | _ => PENDING end)
             payload (ns_dedupe_key r) (ns_created_at r) now.

Definition upsertSchedule (now : Z) (db : Db) (userId : Z) (event : EventRow)
           (rule : RuleRow) (scheduledAt : Z) : Db :=
  let offset := offsetOr0 rule in
  let dedupeKey :=
    makeDedupeKey userId (ev_id event) (rule_channel rule) (rule_trigger rule)
                  offset in
  let payload :=
    mkPayload (ev_title event) (ev_type event) (rule_trigger rule) offset
              (rule_channel rule) in
  let rows := notification_schedules db in
  let id := notification_schedules_seq db in
  if existsb (fun r => str_eqb (ns_dedupe_key r) dedupeKey) rows
  then
    set_schedules db
      (map (fun r => if str_eqb (ns_dedupe_key r) dedupeKey
                     then onConflictUpdate now scheduledAt payload r
                     else r) rows)
      (id + 1)
  else
    set_schedules db
      (rows ++ [mkSchedule id userId (ev_id event) (rule_channel rule)
                           (rule_trigger rule) offset scheduledAt PENDING
                           payload dedupeKey now now])
      (id + 1).

(** [Map.prototype.set] on a map kept in insertion order. *)
Fixpoint Map_set {V} (m : list (Z * V)) (k : Z) (v : V) : list (Z * V) :=
  match m with
  | [] => [(k, v)]
  | (k', v') :: t => if k' =? k then (k, v) :: t else (k', v') :: Map_set t k v
  end.

(** The state of the planning loops: the store and the two counters. *)
Definition PlanState : Type := Db * Z * Z.

(** The body of the inner loop of [planForEventAndUsers]. *)
Definition planRule (now : Z) (event : EventRow) (userId : Z)
           (st : PlanState) (rule : RuleRow) : PlanState :=
  let '(db, planned, skipped) := st in
  match computeScheduledAt now rule event with
  | None => (db, planned, skipped + 1)
  | Some scheduledAt =>
      if scheduledAt <? now - 5 * 60 * 1000
      then (db, planned, skipped + 1)
      else (upsertSchedule now db userId event rule scheduledAt,
            planned + 1, skipped)
  end.

Definition visibility_is_public (v : Visibility) : bool :=
  match v with PUBLIC => true | _ => false end.

Definition planForEventAndUsers (now : Z) (db : Db) (event : EventRow)
           (explicitUserId : option Z) : PlanState :=
  if negb (visibility_is_public (ev_visibility event)) then (db, 0, 0)
  else
    let targetUsers :=
      getTargetUsersForRegion db (ev_region_id event) explicitUserId in
    match targetUsers with
    | [] => (db, 0, 0)
    | _ =>
        let groupedRulesByUser :=
          fold_left
            (fun m userId =>
               Map_set m userId (getEligibleRulesForEvent db event (Some userId)))
            targetUsers [] in
        fold_left
          (fun st entry =>
             fold_left (planRule now event (fst entry)) (snd entry) st)
          groupedRulesByUser (db, 0, 0)
    end.

(** [status IN ('PENDING', 'FAILED', 'CANCELED')] *)
Definition purgeable (s : ScheduleStatus) : bool :=
  match s with
  | PENDING | FAILED | CANCELED => true
  | PROCESSING | SENT => false
  end.

Inductive PlanReason := event_not_found | ok.

Record PlanResult := mkPlanResult {
  planned : Z;
  skipped : Z;
  reason : PlanReason
}.

Definition planNotificationsForEvent (now : Z) (db : Db) (eventId : Z)
  : Db * PlanResult :=
  match getEvent db eventId with
  | None => (db, mkPlanResult 0 0 event_not_found)
  | Some event =>
      let db1 :=
        set_schedules db
          (filter (fun r => negb ((ns_event_id r =? eventId)
                                  && purgeable (ns_status r)))
                  (notification_schedules db))
          (notification_schedules_seq db) in
      let '(db2, planned, skipped) := planForEventAndUsers now db1 event None in
      (db2, mkPlanResult planned skipped ok)
  end.

Record RebuildResult := mkRebuildResult {
  rb_planned : Z;
  rb_skipped : Z;
  rb_events : nat
}.

Definition rebuildSchedulesForUser (now : Z) (db : Db) (userId : Z)
  : Db * RebuildResult :=
  let db1 :=
    set_schedules db
      (filter (fun r => negb ((ns_user_id r =? userId)
                              && purgeable (ns_status r)))
              (notification_schedules db))
      (notification_schedules_seq db) in
  let eventRows :=
    flat_map
      (fun e =>
         map (fun _ => e)
             (filter (fun g => (ug_region_id g =? ev_region_id e)
                               && (ug_user_id g =? userId) && ug_enabled g)
                     (user_games db1)))
      (filter (fun e => visibility_is_public (ev_visibility e)
                        && match ev_end_at_utc e with
                           | None => true
                           | Some t => now - 86400000 <=? t
                           end)
              (events db1)) in
  let '(db2, planned, skipped) :=
    fold_left
      (fun st event =>
         let '(db, planned, skipped) := st in
         let '(db', p, s) := planForEventAndUsers now db event (Some userId) in
         (db', planned + p, skipped + s))
      eventRows (db1, 0, 0) in
  (db2, mkRebuildResult planned skipped (length eventRows)).

End Scheduling.

(* ================================================================== *)
(** ** [ingest.ts]: the raw notice store, the event upsert and the fetch loop

    A call on the store returns the store it leaves and either a value or
    the exception it throws.  The store rejects a text that is not a
    timestamp; other failures of the store are not part of this model. *)

Module IngestStore.
Import JS Store Ingest.
Local Open Scope Z_scope.

(** [SourceRow] of [ingest.ts]: a source joined with its region. *)
Record SourceRow := mkSource {
  source_id : Z;
  source_region_id : Z;
  source_enabled : bool;
  source_region_timezone : jsstring
}.

Record RawCandidate := mkCandidate {
  c_url : jsstring;
  c_title : jsstring;
  c_publishedAt : option jsstring;
  c_contentText : jsstring;
  c_rawPayload : RawPayload
}.

Record UpsertRawResult := mkUpsertRaw {
  rawNoticeId : Z;
  changed : bool
}.

Record UpsertEventResult := mkUpsertEvent {
  r_eventId : Z;
  r_visibility : Visibility;
  r_confidence : float
}.

Definition opt_str_eqb (a : option jsstring) (b : jsstring) : bool :=
  match a with
  | Some s => str_eqb s b
  | None => false
  end.

Section Services.

(** [crypto.createHash("sha256").update(input).digest("hex")]. *)
Variable sha256 : jsstring -> jsstring.

(** [String.prototype.toLowerCase]. *)
Variable toLowerCase : jsstring -> jsstring.

(** The store's reading of a text as [TIMESTAMPTZ]; [None] when it rejects
    the text, and the query with it. *)
Variable timestamptz_in : jsstring -> option Z.

(** [$n::timestamptz] of a parameter of type [string | null]. *)
Definition castTimestamptz (p : option jsstring) : option (option Z) :=
  match p with
  | None => Some None
  | Some text =>
      match timestamptz_in text with
      | Some t => Some (Some t)
      | None => None
      end
  end.

Definition invalidTimestamp : jsstring :=
  lit "invalid input syntax for type timestamp with time zone".

Definition toCanonicalEventKey (regionId : Z) (type : EventType)
           (title : jsstring) (startAtUtc endAtUtc : option jsstring)
  : jsstring :=
  let na o := match o with Some s => s | None => lit "na" end in
  let base :=
    intToString regionId ++ lit ":" ++ eventTypeName type ++ lit ":"
    ++ slugify toLowerCase title ++ lit ":" ++ na startAtUtc ++ lit ":"
    ++ na endAtUtc in
  let hash := slice0 12 (sha256 base) in
  intToString regionId ++ lit "-" ++ toLowerCase (eventTypeName type)
  ++ lit "-" ++ slugify toLowerCase title ++ lit "-" ++ hash.

Definition sameNotice (sourceId : Z) (url : jsstring) (r : RawNoticeRow) : bool :=
  (rn_source_id r =? sourceId) && str_eqb (rn_url r) url.

(** The [UPDATE] of [upsertRawNotice] for an unchanged notice. *)
Definition refreshRow (now : Z) (title : jsstring) (publishedAt : option Z)
           (r : RawNoticeRow) : RawNoticeRow :=
  mkRawNotice (rn_id r) (rn_source_id r) (rn_url r) title
              (match publishedAt with Some p => Some p | None => rn_published_at r end)
              now (rn_content_text r) (rn_content_hash r) (rn_raw_payload r)
              (rn_parser_version r) (rn_status r).

(** The [DO UPDATE] of [upsertRawNotice] for a new or changed notice. *)
Definition overwriteRow (now : Z) (candidate : RawCandidate)
           (publishedAt : option Z) (contentHash : jsstring)
           (r : RawNoticeRow) : RawNoticeRow :=
  mkRawNotice (rn_id r) (rn_source_id r) (rn_url r) (c_title candidate)
              publishedAt now (Some (c_contentText candidate))
              (Some contentHash) (Some (c_rawPayload candidate)) (lit "v1") NEW.

Definition upsertRawNotice (now : Z) (db : Db) (sourceId : Z)
           (candidate : RawCandidate) : Db * Outcome UpsertRawResult :=
  let merged := normalizeText (c_title candidate ++ [LF] ++ c_contentText candidate) in
  let contentHash := sha256 merged in
  let existing := find (sameNotice sourceId (c_url candidate)) (raw_notices db) in
  let unchanged :=
    match existing with
    | Some row => opt_str_eqb (rn_content_hash row) contentHash
    | None => false
    end in
  match castTimestamptz (c_publishedAt candidate) with
  | None => (db, Thrown invalidTimestamp)
  | Some publishedAt =>
      match existing with
      | Some row =>
          if unchanged then
            (set_raw_notices db
               (map (fun r => if sameNotice sourceId (c_url candidate) r
                              then refreshRow now (c_title candidate) publishedAt r
                              else r) (raw_notices db))
               (raw_notices_seq db),
             Returned (mkUpsertRaw (rn_id row) false))
          else
            (set_raw_notices db
               (map (fun r => if sameNotice sourceId (c_url candidate) r
                              then overwriteRow now candidate publishedAt contentHash r
                              else r) (raw_notices db))
               (raw_notices_seq db + 1),
             Returned (mkUpsertRaw (rn_id row) true))
      | None =>
          let id := raw_notices_seq db in
          (set_raw_notices db
             (raw_notices db ++
                [mkRawNotice id sourceId (c_url candidate) (c_title candidate)
                             publishedAt now (Some (c_contentText candidate))
                             (Some contentHash) (Some (c_rawPayload candidate))
                             (lit "v1") NEW])
             (id + 1),
           Returned (mkUpsertRaw id true))
      end
  end.

Definition getRawNotice (db : Db) (rawNoticeId : Z) : option RawNoticeRow :=
  find (fun r => rn_id r =? rawNoticeId) (raw_notices db).

(** The [DO UPDATE] of the event upsert. *)
Definition mergeEvent (now : Z) (draft : ParsedEventDraft)
           (startAt endAt : option Z) (sourceUrl : jsstring) (e : EventRow)
  : EventRow :=
  mkEvent (ev_id e) (ev_region_id e) (d_type draft) (d_title draft)
          (d_summary draft) startAt endAt sourceUrl
          (ev_canonical_event_key e) (d_confidence draft) (d_visibility draft)
          (ev_created_at e) now.

Definition upsertEventFromRaw (now : Z) (db : Db) (source : SourceRow)
           (rawNotice : RawNoticeRow) : Db * Outcome UpsertEventResult :=
  let contentText :=
    match rn_content_text rawNotice with Some t => t | None => [] end in
  let draft :=
    parseRawNoticeToEventDraft toLowerCase
      (mkInput (rn_title rawNotice) contentText (source_region_timezone source)) in
  let canonicalEventKey :=
    toCanonicalEventKey (source_region_id source) (d_type draft) (d_title draft)
                        (d_startAtUtc draft) (d_endAtUtc draft) in
  match castTimestamptz (d_startAtUtc draft), castTimestamptz (d_endAtUtc draft) with
  | Some startAt, Some endAt =>
      let hit := find (fun e => str_eqb (ev_canonical_event_key e) canonicalEventKey)
                      (events db) in
      let eventId :=
        match hit with Some e => ev_id e | None => events_seq db end in
      let rows :=
        match hit with
        | Some _ =>
            map (fun e => if str_eqb (ev_canonical_event_key e) canonicalEventKey
                          then mergeEvent now draft startAt endAt (rn_url rawNotice) e
                          else e) (events db)
        | None =>
            events db ++
              [mkEvent (events_seq db) (source_region_id source) (d_type draft)
                       (d_title draft) (d_summary draft) startAt endAt
                       (rn_url rawNotice) canonicalEventKey (d_confidence draft)
                       (d_visibility draft) now now]
        end in
      let db1 := set_events db rows (events_seq db + 1) in
      let linked :=
        existsb (fun l => (erl_event_id l =? eventId)
                          && (erl_raw_notice_id l =? rn_id rawNotice))
                (event_raw_links db1) in
      let db2 :=
        if linked then db1
        else set_links db1 (event_raw_links db1 ++ [mkLink eventId (rn_id rawNotice)]) in
      let db3 :=
        set_raw_notices db2
          (map (fun r => if rn_id r =? rn_id rawNotice
                         then mkRawNotice (rn_id r) (rn_source_id r) (rn_url r)
                                (rn_title r) (rn_published_at r) (rn_fetched_at r)
                                (rn_content_text r) (rn_content_hash r)
                                (rn_raw_payload r) (rn_parser_version r) PARSED
                         else r) (raw_notices db2))
          (raw_notices_seq db2) in
      let db4 := fst (Scheduling.planNotificationsForEvent now db3 eventId) in
      (db4, Returned (mkUpsertEvent eventId (d_visibility draft) (d_confidence draft)))
  | _, _ => (db, Thrown invalidTimestamp)
  end.

(** The counters of [runSourceFetch]. *)
Record FetchCounts := mkCounts {
  parsedCount : Z;
  errorCount : Z
}.

(** The [catch] of the loop over the candidates. *)
Definition markCandidateError (now : Z) (db : Db) (source : SourceRow)
           (candidate : RawCandidate) (message : jsstring) : Db :=
  let db1 :=
    set_raw_notices db
      (map (fun r => if sameNotice (source_id source) (c_url candidate) r
                     then mkRawNotice (rn_id r) (rn_source_id r) (rn_url r)
                            (rn_title r) (rn_published_at r) (rn_fetched_at r)
                            (rn_content_text r) (rn_content_hash r)
                            (rn_raw_payload r) (rn_parser_version r) ERROR
                     else r) (raw_notices db))
      (raw_notices_seq db) in
  set_sources db1
    (map (fun s => if src_id s =? source_id source
                   then mkSourceRow (src_id s) (src_region_id s) (src_type s)
                          (src_base_url s) (src_list_url s) (src_enabled s)
                          (src_fetch_interval_minutes s) (src_last_success_at s)
                          (Some now) (Some message)
                   else s) (sources db1)).

(** The body of the loop over the candidates of [runSourceFetch]. *)
Definition processCandidate (now : Z) (source : SourceRow)
           (st : Db * FetchCounts) (candidate : RawCandidate)
  : Db * FetchCounts :=
  let '(db, counts) := st in
  match upsertRawNotice now db (source_id source) candidate with
  | (db1, Thrown message) =>
      (markCandidateError now db1 source candidate message,
       mkCounts (parsedCount counts) (errorCount counts + 1))
  | (db1, Returned upsertRaw) =>
      if negb (changed upsertRaw) then (db1, counts)
      else
        match getRawNotice db1 (rawNoticeId upsertRaw) with
        | None => (db1, counts)
        | Some rawNotice =>
            match upsertEventFromRaw now db1 source rawNotice with
            | (db2, Returned _) =>
                (db2, mkCounts (parsedCount counts + 1) (errorCount counts))
            | (db2, Thrown message) =>
                (markCandidateError now db2 source candidate message,
                 mkCounts (parsedCount counts) (errorCount counts + 1))
            end
        end
  end.

(** The loop over the candidates of [runSourceFetch]. *)
Definition processCandidates (now : Z) (source : SourceRow) (db : Db)
           (candidates : list RawCandidate) : Db * FetchCounts :=
  fold_left (processCandidate now source) candidates (db, mkCounts 0 0).

End Services.

End IngestStore.

(* ================================================================== *)
(** ** [dispatch.ts]

    The dispatcher catches what its calls on the store throw, so here a
    call on the store can fail.  [Faults] says which: the n-th entry tells
    whether the n-th call on the store throws (it then leaves the store as
    it was); calls past the end of the list succeed. *)

Module Dispatch.
Import JS Store.
Local Open Scope Z_scope.

Definition Faults := list bool.

Record World := mkWorld {
  w_db : Db;
  w_faults : Faults
}.

(** A computation on the store that may throw. *)
Definition M (A : Type) : Type := World -> World * Outcome A.

Definition ret {A} (a : A) : M A := fun w => (w, Returned a).

Definition bind {A B} (m : M A) (k : A -> M B) : M B :=
  fun w =>
    match m w with
    | (w', Returned a) => k a w'
    | (w', Thrown e) => (w', Thrown e)
    end.

(** [try { m } catch (error) { handler(error.message) }] *)
Definition tryCatch {A} (m : M A) (handler : jsstring -> M A) : M A :=
  fun w =>
    match m w with
    | (w', Returned a) => (w', Returned a)
    | (w', Thrown e) => handler e w'
    end.

Notation "x <- m ;; k" := (bind m (fun x => k))
  (at level 61, m at next level, right associativity).
Notation "m ;;; k" := (bind m (fun _ => k))
  (at level 61, right associativity).

Definition storageError : jsstring := lit "storage error".

(** One call on the store ([pool.query], or the claim transaction). *)
Definition query {A} (run : Db -> Db * A) : M A :=
  fun w =>
    match w_faults w with
    | true :: rest => (mkWorld (w_db w) rest, Thrown storageError)
    | false :: rest =>
        let '(db', a) := run (w_db w) in (mkWorld db' rest, Returned a)
    | [] =>
        let '(db', a) := run (w_db w) in (mkWorld db' [], Returned a)
    end.

Definition setStatus (now id : Z) (status : ScheduleStatus) (r : ScheduleRow)
  : ScheduleRow :=
  if ns_id r =? id
  then mkSchedule (ns_id r) (ns_user_id r) (ns_event_id r) (ns_channel r)
                  (ns_trigger_type r) (ns_trigger_offset_minutes r)
                  (ns_scheduled_at_utc r) status (ns_payload_json r)
                  (ns_dedupe_key r) (ns_created_at r) now
  else r.

Definition insertDelivery (now scheduleId : Z) (result : DeliveryResult)
           (errorMessage : option jsstring) (responsePayload : ResponsePayload)
           (db : Db) : Db * unit :=
  (set_deliveries db
     (notification_deliveries db ++
        [mkDelivery (notification_deliveries_seq db) scheduleId now result
                    errorMessage responsePayload])
     (notification_deliveries_seq db + 1), tt).

Definition updateStatus (now scheduleId : Z) (result : DeliveryResult)
           (db : Db) : Db * unit :=
  (set_schedules db
     (map (setStatus now scheduleId
                     (match result with SUCCESS => SENT | DELIVERY_FAILED => FAILED end))
          (notification_schedules db))
     (notification_schedules_seq db), tt).

Definition markScheduleResult (now scheduleId : Z) (result : DeliveryResult)
           (errorMessage : option jsstring) (responsePayload : ResponsePayload)
  : M unit :=
  query (insertDelivery now scheduleId result errorMessage responsePayload) ;;;
  query (updateStatus now scheduleId result).

Definition hasPushSubscription (userId : Z) : M bool :=
  query (fun db =>
           (db, Nat.ltb 0 (length (filter (fun p => ps_user_id p =? userId)
                                          (push_subscriptions db))))).

(** [Boolean(result.rows[0]?.email)]: a user with a non-empty email. *)
Definition hasEmail (userId : Z) : M bool :=
  query (fun db =>
           (db, match find (fun u => user_id u =? userId) (users db) with
                | Some u => match user_email u with
                            | Some (_ :: _) => true
                            | _ => false
                            end
                | None => false
                end)).

(** [ORDER BY scheduled_at_utc ASC].  The store is free in the order of
    rows of one time; the model keeps them in table order. *)
Fixpoint insertByTime (r : ScheduleRow) (l : list ScheduleRow) : list ScheduleRow :=
  match l with
  | [] => [r]
  | x :: t =>
      if ns_scheduled_at_utc r <? ns_scheduled_at_utc x then r :: l
      else x :: insertByTime r t
  end.

Definition orderByTime (l : list ScheduleRow) : list ScheduleRow :=
  fold_right insertByTime [] (rev l).

Definition isDue (now : Z) (r : ScheduleRow) : bool :=
  status_eqb (ns_status r) PENDING && (ns_scheduled_at_utc r <=? now).

(** The claim: up to [limit] due PENDING rows, the earliest ones, become
    PROCESSING and are returned.  [RETURNING] has no order of its own; the
    model returns the rows in the order of the pick.  The limit is not
    negative (the store rejects a negative [LIMIT]). *)
Definition claimDue (now limit : Z) (db : Db) : Db * list ScheduleRow :=
  let picked :=
    firstn (Z.to_nat limit)
           (orderByTime (filter (isDue now) (notification_schedules db))) in
  let isPicked r := existsb (fun p => ns_id p =? ns_id r) picked in
  let claim r :=
    mkSchedule (ns_id r) (ns_user_id r) (ns_event_id r) (ns_channel r)
               (ns_trigger_type r) (ns_trigger_offset_minutes r)
               (ns_scheduled_at_utc r) PROCESSING (ns_payload_json r)
               (ns_dedupe_key r) (ns_created_at r) now in
  (set_schedules db
     (map (fun r => if isPicked r then claim r else r) (notification_schedules db))
     (notification_schedules_seq db),
   map claim picked).

Record Counters := mkCounters {
  sent : Z;
  failed : Z
}.

Definition channelOnly (c : Channel) : ResponsePayload := mkResponse c false None.

(** The body of the loop over the claimed schedules. *)
Definition deliver (now : Z) (counters : Counters) (schedule : ScheduleRow)
  : M Counters :=
  let scheduleId := ns_id schedule in
  let userId := ns_user_id schedule in
  let failedOne := mkCounters (sent counters) (failed counters + 1) in
  let send :=
    markScheduleResult now scheduleId SUCCESS None
                       (mkResponse (ns_channel schedule) true (Some now)) ;;;
    ret (mkCounters (sent counters + 1) (failed counters)) in
  tryCatch
    (match ns_channel schedule with
     | WEBPUSH =>
         available <- hasPushSubscription userId ;;
         if negb available then
           markScheduleResult now scheduleId DELIVERY_FAILED
                              (Some (lit "No push subscription for user"))
                              (channelOnly (ns_channel schedule)) ;;;
           ret failedOne
         else send
     | EMAIL =>
         available <- hasEmail userId ;;
         if negb available then
           markScheduleResult now scheduleId DELIVERY_FAILED
                              (Some (lit "User email not available"))
                              (channelOnly (ns_channel schedule)) ;;;
           ret failedOne
         else send
     | DISCORD =>
         markScheduleResult now scheduleId DELIVERY_FAILED
                            (Some (lit "Discord webhook is not configured"))
                            (channelOnly (ns_channel schedule)) ;;;
         ret failedOne
     end)
    (fun message =>
       markScheduleResult now scheduleId DELIVERY_FAILED (Some message)
                          (channelOnly (ns_channel schedule)) ;;;
       ret failedOne).

Fixpoint deliverAll (now : Z) (counters : Counters) (schedules : list ScheduleRow)
  : M Counters :=
  match schedules with
  | [] => ret counters
  | schedule :: rest =>
      counters' <- deliver now counters schedule ;;
      deliverAll now counters' rest
  end.

Record DispatchResult := mkDispatchResult {
  picked : nat;
  dr_sent : Z;
  dr_failed : Z
}.

Definition dispatchDueNotifications (now limit : Z) : M DispatchResult :=
  schedules <- query (claimDue now limit) ;;
  counters <- deliverAll now (mkCounters 0 0) schedules ;;
  ret (mkDispatchResult (length schedules) (sent counters) (failed counters)).

End Dispatch.

(* ================================================================== *)
(** ** [ingest.ts]: the runs

    [runSourceFetch], [runDueSourceFetches] and [reparseRawNotice], with
    the tables they read and write besides those of [Store]: [games] and
    [regions], which [getSourceById] joins to the source, and the log
    [ingest_runs].  The two collectors, which read the network, are
    parameters: each returns the candidates it found or throws. *)

Module SourceFetch.
Import JS Store Ingest IngestStore.
Local Open Scope Z_scope.

Record GameRow := mkGame {
  game_id : Z;
  game_slug : jsstring
}.

Record RegionRow := mkRegion {
  reg_id : Z;
  reg_game_id : Z;
  reg_code : jsstring;
  reg_timezone : jsstring
}.

(** The modes of [runSourceFetch], and those of the log. *)
Inductive FetchMode := MANUAL | SCHEDULED.
Inductive RunMode := RUN_MANUAL | RUN_SCHEDULED | REPARSE.

Definition runModeOf (mode : FetchMode) : RunMode :=
  match mode with
  | MANUAL => RUN_MANUAL
  | SCHEDULED => RUN_SCHEDULED
  end.
Inductive RunStatus := RUN_SUCCESS | RUN_FAILED | RUN_PARTIAL.

Record IngestRunRow := mkRun {
  ir_id : Z;
  ir_source_id : option Z;
  ir_mode : RunMode;
  ir_status : RunStatus;
  ir_fetched_count : Z;
  ir_parsed_count : Z;
  ir_error_count : Z;
  ir_log_message : jsstring;
  ir_started_at : Z;
  ir_finished_at : Z
}.

Record FetchStore := mkFetchStore {
  fs_db : Db;
  games : list GameRow;
  regions : list RegionRow;
  ingest_runs : list IngestRunRow;
  ingest_runs_seq : Z
}.

Definition with_db (st : FetchStore) (db : Db) : FetchStore :=
  mkFetchStore db (games st) (regions st) (ingest_runs st) (ingest_runs_seq st).

(** The row of [getSourceById]: the source with the columns of its region
    and its game. *)
Record JoinedSource := mkJoined {
  j_source : SourceTableRow;
  j_region_timezone : jsstring;
  j_region_code : jsstring;
  j_game_slug : jsstring
}.

(** The columns of the joined row that the loop over the candidates
    reads. *)
Definition toSourceRow (j : JoinedSource) : SourceRow :=
  mkSource (src_id (j_source j)) (src_region_id (j_source j))
           (src_enabled (j_source j)) (j_region_timezone j).

Definition getSourceById (st : FetchStore) (sourceId : Z) : option JoinedSource :=
  match find (fun s => src_id s =? sourceId) (sources (fs_db st)) with
  | None => None
  | Some s =>
      match find (fun r => reg_id r =? src_region_id s) (regions st) with
      | None => None
      | Some r =>
          match find (fun g => game_id g =? reg_game_id r) (games st) with
          | None => None
          | Some g => Some (mkJoined s (reg_timezone r) (reg_code r) (game_slug g))
          end
      end
  end.

Record LogParams := mkLogParams {
  lp_sourceId : option Z;
  lp_mode : RunMode;
  lp_status : RunStatus;
  lp_fetchedCount : Z;
  lp_parsedCount : Z;
  lp_errorCount : Z;
  lp_logMessage : jsstring
}.

Definition logIngestRun (now : Z) (st : FetchStore) (params : LogParams)
  : FetchStore :=
  mkFetchStore (fs_db st) (games st) (regions st)
    (ingest_runs st ++
       [mkRun (ingest_runs_seq st) (lp_sourceId params) (lp_mode params)
              (lp_status params) (lp_fetchedCount params)
              (lp_parsedCount params) (lp_errorCount params)
              (lp_logMessage params) now now])
    (ingest_runs_seq st + 1).

(** [UPDATE sources SET last_error_at = NOW(), last_error_message = $2]. *)
Definition setSourceError (now : Z) (db : Db) (sourceId : Z) (message : jsstring)
  : Db :=
  set_sources db
    (map (fun s => if src_id s =? sourceId
                   then mkSourceRow (src_id s) (src_region_id s) (src_type s)
                          (src_base_url s) (src_list_url s) (src_enabled s)
                          (src_fetch_interval_minutes s) (src_last_success_at s)
                          (Some now) (Some message)
                   else s) (sources db)).

(** [UPDATE sources SET last_success_at = NOW(), last_error_message = NULL]. *)
Definition setSourceSuccess (now : Z) (db : Db) (sourceId : Z) : Db :=
  set_sources db
    (map (fun s => if src_id s =? sourceId
                   then mkSourceRow (src_id s) (src_region_id s) (src_type s)
                          (src_base_url s) (src_list_url s) (src_enabled s)
                          (src_fetch_interval_minutes s) (Some now)
                          (src_last_error_at s) None
                   else s) (sources db)).

Inductive SummaryStatus := SUMMARY_SUCCESS | SUMMARY_PARTIAL.

Record RunSourceFetchSummary := mkSummary {
  s_sourceId : Z;
  s_mode : FetchMode;
  s_fetchedCount : Z;
  s_parsedCount : Z;
  s_errorCount : Z;
  s_status : SummaryStatus
}.

Definition runStatusOf (s : SummaryStatus) : RunStatus :=
  match s with
  | SUMMARY_SUCCESS => RUN_SUCCESS
  | SUMMARY_PARTIAL => RUN_PARTIAL
  end.

(** The row of [runDueSourceFetches] for one source. *)
Record DueSummary := mkDueSummary {
  ds_sourceId : Z;
  ds_status : RunStatus;
  ds_parsedCount : Z;
  ds_errorCount : Z
}.

Record DueResult := mkDueResult {
  processedSources : nat;
  summaries : list DueSummary
}.

(** [ORDER BY COALESCE(last_success_at, to_timestamp(0)) ASC].  The store
    is free in the order of sources of one time; the model keeps them in
    table order. *)
Definition lastSuccessOr0 (s : SourceTableRow) : Z :=
  match src_last_success_at s with Some t => t | None => 0 end.

Fixpoint insertBySuccess (s : SourceTableRow) (l : list SourceTableRow)
  : list SourceTableRow :=
  match l with
  | [] => [s]
  | x :: t =>
      if lastSuccessOr0 s <? lastSuccessOr0 x then s :: l
      else x :: insertBySuccess s t
  end.

Definition orderBySuccess (l : list SourceTableRow) : list SourceTableRow :=
  fold_right insertBySuccess [] (rev l).

(** The [WHERE] of [runDueSourceFetches]. *)
Definition isDueSource (now : Z) (s : SourceTableRow) : bool :=
  src_enabled s
  && match src_last_success_at s with
     | None => true
     | Some t => t + src_fetch_interval_minutes s * 60000 <=? now
     end.

Section Runs.

Variable sha256 : jsstring -> jsstring.
Variable toLowerCase : jsstring -> jsstring.
Variable timestamptz_in : jsstring -> option Z.

(** [fetchRssEntries] and [fetchHtmlEntries]. *)
Variable fetchRssEntries : JoinedSource -> Outcome (list RawCandidate).
Variable fetchHtmlEntries : JoinedSource -> Outcome (list RawCandidate).

Definition fetchRawCandidates (source : JoinedSource)
  : Outcome (list RawCandidate) :=
  match src_type (j_source source) with
  | RSS => fetchRssEntries source
  | HTML_LIST | HTML_DETAIL => fetchHtmlEntries source
  | API => Thrown (lit "API source type is not implemented yet")
  end.

Definition runSourceFetch (now : Z) (st : FetchStore) (sourceId : Z)
           (mode : FetchMode) : FetchStore * Outcome RunSourceFetchSummary :=
  match getSourceById st sourceId with
  | None => (st, Thrown (lit "Source not found"))
  | Some source =>
      if negb (src_enabled (j_source source)) then
        (st, Returned (mkSummary sourceId mode 0 0 0 SUMMARY_SUCCESS))
      else
        let id := src_id (j_source source) in
        match fetchRawCandidates source with
        | Returned candidates =>
            let fetchedCount := Z.of_nat (length candidates) in
            let '(db1, counts) :=
              processCandidates sha256 toLowerCase timestamptz_in now
                                (toSourceRow source) (fs_db st) candidates in
            let db2 := setSourceSuccess now db1 id in
            let status :=
              if errorCount counts >? 0 then SUMMARY_PARTIAL
              else SUMMARY_SUCCESS in
            let st3 :=
              logIngestRun now (with_db st db2)
                (mkLogParams (Some id) (runModeOf mode) (runStatusOf status) fetchedCount
                   (parsedCount counts) (errorCount counts)
                   (lit "Fetched " ++ intToString fetchedCount
                    ++ lit ", parsed " ++ intToString (parsedCount counts)
                    ++ lit ", errors " ++ intToString (errorCount counts))) in
            (st3, Returned (mkSummary id mode fetchedCount (parsedCount counts)
                                      (errorCount counts) status))
        | Thrown message =>
            let fetchedCount := 0 in
            let parsedCount := 0 in
            let errorCount := 0 in
            let db1 := setSourceError now (fs_db st) id message in
            let st2 :=
              logIngestRun now (with_db st db1)
                (mkLogParams (Some id) (runModeOf mode) RUN_FAILED fetchedCount parsedCount
                   (Z.max 1 errorCount) message) in
            (st2, Thrown message)
        end
  end.

(** The body of the loop of [runDueSourceFetches]. *)
Definition runDueOne (now : Z) (acc : FetchStore * list DueSummary)
           (row : SourceTableRow) : FetchStore * list DueSummary :=
  let '(st, done) := acc in
  match runSourceFetch now st (src_id row) SCHEDULED with
  | (st', Returned summary) =>
      (st', done ++ [mkDueSummary (s_sourceId summary)
                                  (runStatusOf (s_status summary))
                                  (s_parsedCount summary)
                                  (s_errorCount summary)])
  | (st', Thrown _) =>
      (st', done ++ [mkDueSummary (src_id row) RUN_FAILED 0 1])
  end.

Definition runDueSourceFetches (now limit : Z) (st : FetchStore)
  : FetchStore * DueResult :=
  let rows :=
    firstn (Z.to_nat limit)
           (orderBySuccess (filter (isDueSource now) (sources (fs_db st)))) in
  let '(st', done) := fold_left (runDueOne now) rows (st, []) in
  (st', mkDueResult (length done) done).

Definition reparseRawNotice (now : Z) (st : FetchStore) (rawNoticeId : Z)
  : FetchStore * Outcome UpsertEventResult :=
  match getRawNotice (fs_db st) rawNoticeId with
  | None => (st, Thrown (lit "Raw notice not found"))
  | Some rawNotice =>
      match getSourceById st (rn_source_id rawNotice) with
      | None => (st, Thrown (lit "Source not found for raw notice"))
      | Some source =>
          match upsertEventFromRaw sha256 toLowerCase timestamptz_in now
                                   (fs_db st) (toSourceRow source) rawNotice with
          | (db1, Thrown message) => (with_db st db1, Thrown message)
          | (db1, Returned result) =>
              (logIngestRun now (with_db st db1)
                 (mkLogParams (Some (src_id (j_source source))) REPARSE
                    RUN_SUCCESS 1 1 0
                    (lit "Reparsed raw notice " ++ intToString rawNoticeId)),
               Returned result)
          end
      end
  end.

End Runs.

End SourceFetch.

(* ================================================================== *)
(** ** Equality of strings *)

Module JSProps.
Import JS.

Lemma str_eqb_eq a b : str_eqb a b = true <-> a = b.
Proof.
  revert b; induction a as [|x a IH]; destruct b as [|y b]; simpl;
    try (split; congruence).
  unfold code_eqb. rewrite andb_true_iff, N.eqb_eq, IH.
  split; [intros [-> ->]; reflexivity | intros E; inversion E; auto].
Qed.

Lemma str_eqb_refl a : str_eqb a a = true.
Proof. apply str_eqb_eq; reflexivity. Qed.

Lemma str_eqb_neq a b : str_eqb a b = false <-> a <> b.
Proof.
  destruct (str_eqb a b) eqn:E.
  - apply str_eqb_eq in E. split; [discriminate | congruence].
  - split; auto. intros _ H. apply str_eqb_eq in H. congruence.
Qed.

End JSProps.
(* ================================================================== *)
(** ** Properties of the parser *)

Module ParserProps.
Import JS Regex Ingest.

(** The unit tests of the repository, run on the embedding. *)
Example test_extractDateRange_full :
  extractDateRange (lit "2026/03/01 10:00 ~ 2026/03/08 11:30") (lit "Asia/Seoul")
  = mkDateRange (Some (lit "2026-03-01T01:00:00.000Z"))
                (Some (lit "2026-03-08T02:30:00.000Z")) 0.35%float.
Proof. vm_compute. reflexivity. Qed.

Example test_parse_pickup :
  let d := parseRawNoticeToEventDraft toLowerCaseBasicLatin
             (mkInput (lit "[KR] Pickup Recruitment Notice")
                      (lit "Rate up starts at 2026/03/01 10:00 ~ 2026/03/08 11:30")
                      (lit "Asia/Seoul")) in
  d_type d = PICKUP /\ PrimFloat.leb 0.65 (d_confidence d) = true
  /\ d_visibility d = PUBLIC.
Proof. vm_compute. auto. Qed.

Example test_parse_generic :
  let d := parseRawNoticeToEventDraft toLowerCaseBasicLatin
             (mkInput (lit "General Notice")
                      (lit "This is a generic announcement without schedule info.")
                      (lit "Asia/Seoul")) in
  d_type d = EVENT /\ PrimFloat.ltb (d_confidence d) 0.65 = true
  /\ d_visibility d = NEED_REVIEW.
Proof. vm_compute. auto. Qed.

(** The three patterns on other shapes of text: a same-day range, a single
    date with one-digit fields, and a day that gives a digit back to the
    hour ([2026/3/11:30] is day 1, 1:30). *)
Example test_extractDateRange_same_day :
  extractDateRange (lit "Maintenance 2026-03-01 10:00-11:30 (KST)") (lit "Asia/Seoul")
  = mkDateRange (Some (lit "2026-03-01T01:00:00.000Z"))
                (Some (lit "2026-03-01T02:30:00.000Z")) 0.3%float.
Proof. vm_compute. reflexivity. Qed.

Example test_extractDateRange_single :
  extractDateRange (lit "opens 2026.3.1 9:05") (lit "UTC")
  = mkDateRange (Some (lit "2026-03-01T09:05:00.000Z")) None 0.15%float.
Proof. vm_compute. reflexivity. Qed.

Example test_extractDateRange_backtracks :
  extractDateRange (lit "2026/3/11:30") (lit "UTC")
  = mkDateRange (Some (lit "2026-03-01T01:30:00.000Z")) None 0.15%float.
Proof. vm_compute. reflexivity. Qed.

Example test_extractDateRange_invalid_month :
  extractDateRange (lit "2026/13/01 10:00 ~ 2026/13/08 11:30") (lit "UTC")
  = mkDateRange None None 0.15%float.
Proof. vm_compute. reflexivity. Qed.

Definition typeScores : list float := [0.25; 0.22; 0.2; 0.1]%float.
Definition dateScores : list float := [0.35; 0.3; 0.15; 0.1; 0.05; 0]%float.

Lemma detectEventType_score lower text :
  In (snd (detectEventType lower text)) typeScores.
Proof.
  unfold detectEventType, typeScores.
  repeat match goal with |- context [if ?b then _ else _] => destruct b end;
    simpl; auto 6.
Qed.

Lemma extractDateRange_score text tz :
  In (score (extractDateRange text tz)) dateScores.
Proof.
  unfold extractDateRange, dateScores.
  repeat match goal with
         | |- context [match search ?p ?s with _ => _ end] => destruct (search p s)
         end; simpl score;
  repeat match goal with |- context [if ?b then _ else _] => destruct b end;
    simpl; auto 8.
Qed.

(** The merged text, the type score and the summary that
    [parseRawNoticeToEventDraft] works with. *)
Definition mergedText (p : RawInput) : jsstring :=
  in_title p ++ [LF] ++ in_contentText p.

Definition summaryOf (p : RawInput) : jsstring :=
  summarize (match in_contentText p with [] => in_title p | _ => in_contentText p end)
            220.

Definition summaryBonus (p : RawInput) : float :=
  if Nat.ltb 20 (length (summaryOf p)) then 0.1%float else 0%float.

Definition rawScore lower (p : RawInput) : float :=
  (0.35 + snd (detectEventType lower (mergedText p))
   + score (extractDateRange (mergedText p) (in_timezone p))
   + summaryBonus p)%float.

Lemma parse_fields lower p :
  let d := parseRawNoticeToEventDraft lower p in
  d_type d = fst (detectEventType lower (mergedText p))
  /\ d_summary d = summaryOf p
  /\ d_confidence d = Math_min 1 (rawScore lower p)
  /\ d_visibility d = toVisibility (d_confidence d).
Proof.
  unfold parseRawNoticeToEventDraft, rawScore, summaryBonus, summaryOf, mergedText.
  destruct (detectEventType lower _) as [ty sc]. simpl. auto.
Qed.

(** On the sums the parser can form, [Math.min(1, x)] is [x] when [x <= 1]
    and [1] otherwise. *)
Lemma min_one_raw (a b c : float) :
  In a typeScores -> In b dateScores -> In c [0.1; 0]%float ->
  let x := (0.35 + a + b + c)%float in
  Math_min 1 x = (if PrimFloat.leb x 1 then x else 1%float).
Proof.
  unfold typeScores, dateScores. simpl.
  intros Ha Hb Hc.
  repeat match goal with
         | H : _ \/ _ |- _ => destruct H
         | H : False |- _ => destruct H
         end; subst; vm_compute; reflexivity.
Qed.

(** C1.  For every input, the confidence of the draft is
    [min(1, 0.35 + typeScore + dateRangeScore + bonus)], where the bonus is
    0.1 when the summary is longer than 20 code units and 0 otherwise, and
    the visibility is PUBLIC exactly when the confidence is at least 0.65,
    NEED_REVIEW otherwise. *)
Theorem parse_confidence_and_visibility :
  forall (toLowerCase : jsstring -> jsstring) (p : RawInput),
    let d := parseRawNoticeToEventDraft toLowerCase p in
    let typeScore := snd (detectEventType toLowerCase (mergedText p)) in
    let dateRangeScore := score (extractDateRange (mergedText p) (in_timezone p)) in
    let bonus := if Nat.ltb 20 (length (d_summary d)) then 0.1%float else 0%float in
    let x := (0.35 + typeScore + dateRangeScore + bonus)%float in
    d_confidence d = Math_min 1 x
    /\ d_confidence d = (if PrimFloat.leb x 1 then x else 1%float)
    /\ (d_visibility d = PUBLIC <-> PrimFloat.leb 0.65 (d_confidence d) = true)
    /\ (d_visibility d = NEED_REVIEW <-> PrimFloat.leb 0.65 (d_confidence d) = false).
Proof.
  intros lower p d typeScore dateRangeScore bonus x.
  destruct (parse_fields lower p) as (_ & Hs & Hc & Hv).
  fold d in Hs, Hc, Hv.
  assert (Hx : rawScore lower p = x).
  { unfold rawScore, x, bonus, summaryBonus. rewrite Hs. reflexivity. }
  rewrite Hx in Hc.
  split; [exact Hc|].
  split.
  - rewrite Hc. unfold x. apply min_one_raw.
    + apply detectEventType_score.
    + apply extractDateRange_score.
    + unfold bonus. destruct (Nat.ltb _ _); simpl; auto.
  - rewrite Hv. unfold toVisibility.
    destruct (PrimFloat.leb 0.65 (d_confidence d)); split; split;
      intros; congruence.
Qed.

(** A text matches an event-type keyword when one of the four keyword
    lists hits its lower-cased form. *)
Definition matchesKeyword (lower : jsstring -> jsstring) (text : jsstring) : bool :=
  let source := lower text in
  hit source pickupKeywords || hit source maintenanceKeywords
  || hit source updateKeywords || hit source campaignKeywords.

Lemma detectEventType_keyword lower text :
  matchesKeyword lower text = true ->
  fst (detectEventType lower text) <> EVENT
  /\ In (snd (detectEventType lower text)) [0.25; 0.22; 0.2]%float.
Proof.
  unfold matchesKeyword, detectEventType.
  destruct (hit _ pickupKeywords); [simpl; intuition congruence|].
  destruct (hit _ maintenanceKeywords); [simpl; intuition congruence|].
  destruct (hit _ updateKeywords); [simpl; intuition congruence|].
  destruct (hit _ campaignKeywords); [simpl; intuition congruence|].
  simpl. discriminate.
Qed.

Lemma detectEventType_no_keyword lower text :
  matchesKeyword lower text = false ->
  detectEventType lower text = (EVENT, 0.1%float).
Proof.
  unfold matchesKeyword, detectEventType.
  destruct (hit _ pickupKeywords); [discriminate|].
  destruct (hit _ maintenanceKeywords); [discriminate|].
  destruct (hit _ updateKeywords); [discriminate|].
  destruct (hit _ campaignKeywords); [discriminate|].
  reflexivity.
Qed.

(** A notice that names a pickup and carries no date. *)
Definition bare_pickup_notice : RawInput :=
  mkInput (lit "pickup")
          (lit "new pickup banner is live for all players")
          (lit "Asia/Seoul").

(** C2, as stated, fails: a keyword match with no date and a summary of
    more than 20 code units scores 0.35 + 0.25 + 0 + 0.1 = 0.7 and is
    PUBLIC. *)
Lemma bare_keyword_public_counterexample :
  matchesKeyword toLowerCaseBasicLatin (mergedText bare_pickup_notice) = true
  /\ score (extractDateRange (mergedText bare_pickup_notice)
                             (in_timezone bare_pickup_notice)) = 0%float
  /\ d_visibility (parseRawNoticeToEventDraft toLowerCaseBasicLatin
                                              bare_pickup_notice) = PUBLIC.
Proof. vm_compute. auto. Qed.

(** C2, amended.  For every input whose text matches an event-type keyword
    and from which no date can be extracted (dateRangeScore = 0), the draft
    is NEED_REVIEW when the summary has at most 20 code units and PUBLIC
    when it is longer, whatever the keyword category. *)
Theorem bare_keyword_visibility :
  forall (toLowerCase : jsstring -> jsstring) (p : RawInput),
    matchesKeyword toLowerCase (mergedText p) = true ->
    score (extractDateRange (mergedText p) (in_timezone p)) = 0%float ->
    let d := parseRawNoticeToEventDraft toLowerCase p in
    (length (d_summary d) <= 20 -> d_visibility d = NEED_REVIEW)
    /\ (20 < length (d_summary d) -> d_visibility d = PUBLIC).
Proof.
  intros lower p Hk H0 d.
  destruct (parse_fields lower p) as (_ & Hs & Hc & Hv). fold d in Hs, Hc, Hv.
  destruct (detectEventType_keyword lower _ Hk) as [_ Hin].
  rewrite Hv, Hc. unfold rawScore, summaryBonus. rewrite H0, <- Hs.
  simpl in Hin.
  split; intros Hlen.
  - apply Nat.ltb_ge in Hlen. rewrite Hlen.
    destruct Hin as [E | [E | [E | []]]]; rewrite <- E; vm_compute; reflexivity.
  - apply Nat.ltb_lt in Hlen. rewrite Hlen.
    destruct Hin as [E | [E | [E | []]]]; rewrite <- E; vm_compute; reflexivity.
Qed.

Lemma bare_keyword_visibility_witness :
  matchesKeyword toLowerCaseBasicLatin (mergedText bare_pickup_notice) = true
  /\ score (extractDateRange (mergedText bare_pickup_notice)
                             (in_timezone bare_pickup_notice)) = 0%float
  /\ 20 < length (d_summary (parseRawNoticeToEventDraft toLowerCaseBasicLatin
                                                         bare_pickup_notice))
  /\ d_visibility (parseRawNoticeToEventDraft toLowerCaseBasicLatin
                                              bare_pickup_notice) = PUBLIC.
Proof.
  split; [vm_compute; reflexivity|].
  split; [vm_compute; reflexivity|].
  split; [vm_compute; lia|].
  apply (bare_keyword_visibility toLowerCaseBasicLatin bare_pickup_notice).
  - vm_compute; reflexivity.
  - vm_compute; reflexivity.
  - vm_compute; lia.
Defined.

(** Without a keyword and without a date the draft is NEED_REVIEW, whatever
    the summary: 0.35 + 0.1 + 0 + 0.1 < 0.65. *)
Lemma no_keyword_no_date_need_review :
  forall (toLowerCase : jsstring -> jsstring) (p : RawInput),
    matchesKeyword toLowerCase (mergedText p) = false ->
    score (extractDateRange (mergedText p) (in_timezone p)) = 0%float ->
    d_visibility (parseRawNoticeToEventDraft toLowerCase p) = NEED_REVIEW.
Proof.
  intros lower p Hk H0.
  destruct (parse_fields lower p) as (_ & _ & Hc & Hv).
  rewrite Hv, Hc. unfold rawScore, summaryBonus.
  rewrite H0, (detectEventType_no_keyword lower _ Hk). simpl snd.
  destruct (Nat.ltb _ _); vm_compute; reflexivity.
Qed.

End ParserProps.

(* ================================================================== *)
(** ** Properties of the date model and of [extractDateRange] *)

Module DateProps.
Import JS Regex Dates Ingest.
Local Open Scope Z_scope.

(** *** Checking a property on a range of integers by computation *)

Fixpoint allFrom (fuel : nat) (z : Z) (f : Z -> bool) : bool :=
  match fuel with
  | O => true
  | S k => f z && allFrom k (z + 1) f
  end.

Lemma allFrom_spec fuel : forall z f,
  allFrom fuel z f = true ->
  forall x, z <= x < z + Z.of_nat fuel -> f x = true.
Proof.
  induction fuel as [|k IH]; intros z f H x Hx; [lia|].
  simpl in H. apply andb_true_iff in H. destruct H as [Hz Hrest].
  destruct (Z.eq_dec x z) as [-> | Hne]; [exact Hz|].
  apply (IH (z + 1) f Hrest). lia.
Qed.

Lemma allBelow (n : Z) (f : Z -> bool) :
  allFrom (Z.to_nat n) 0 f = true ->
  forall x, 0 <= x < n -> f x = true.
Proof.
  intros H x Hx. apply (allFrom_spec _ _ _ H). lia.
Qed.

(** *** Days and calendar dates *)

Definition validDate (y m d : Z) : bool :=
  (1 <=? m) && (m <=? 12) && (1 <=? d) && (d <=? daysInMonth (isLeapYear y) m).

Definition eraCheck (doe : Z) : bool :=
  let '(y, m, d) := civilOfDayOfEra doe in
  validDate y m d && (MakeDay y m d =? doe - 719468).

Lemma era_checked : allFrom (Z.to_nat 146097) 0 eraCheck = true.
Proof. vm_compute. reflexivity. Qed.

Lemma DayFromYear_era y k : DayFromYear (y + 400 * k) = DayFromYear y + 146097 * k.
Proof.
  unfold DayFromYear.
  replace (y + 400 * k - 1969) with ((y - 1969) + (100 * k) * 4) by lia.
  replace (y + 400 * k - 1901) with ((y - 1901) + (4 * k) * 100) by lia.
  replace (y + 400 * k - 1601) with ((y - 1601) + k * 400) by lia.
  rewrite !Z.div_add by lia. lia.
Qed.

Lemma isLeapYear_era y k : isLeapYear (y + 400 * k) = isLeapYear y.
Proof.
  unfold isLeapYear.
  replace (y + 400 * k) with (y + (100 * k) * 4) at 1 by lia.
  replace (y + 400 * k) with (y + (4 * k) * 100) at 1 by lia.
  replace (y + 400 * k) with (y + k * 400) at 1 by lia.
  rewrite !Z.mod_add by lia. reflexivity.
Qed.

(** [civilFromDays] inverts [MakeDay] and yields a date of the calendar. *)
Lemma civilFromDays_MakeDay z :
  let '(y, m, d) := civilFromDays z in
  validDate y m d = true /\ MakeDay y m d = z.
Proof.
  unfold civilFromDays.
  pose proof (Z.mod_pos_bound (z + 719468) 146097 ltac:(lia)) as Hb.
  pose proof (allBelow 146097 eraCheck era_checked _ Hb) as Hc.
  unfold eraCheck in Hc.
  destruct (civilOfDayOfEra ((z + 719468) mod 146097)) as [[y m] d].
  apply andb_true_iff in Hc. destruct Hc as [Hv Hd]. apply Z.eqb_eq in Hd.
  split.
  - unfold validDate in *. rewrite isLeapYear_era. exact Hv.
  - unfold MakeDay in *. rewrite DayFromYear_era, isLeapYear_era.
    pose proof (Z.div_mod (z + 719468) 146097 ltac:(lia)). lia.
Qed.

(** *** Time values and calendar date-times *)

Definition validCivil (c : civil) : bool :=
  validDate (c_year c) (c_month c) (c_day c)
  && (0 <=? c_hour c) && (c_hour c <=? 23)
  && (0 <=? c_minute c) && (c_minute c <=? 59)
  && (0 <=? c_second c) && (c_second c <=? 59)
  && (0 <=? c_ms c) && (c_ms c <=? 999).

(** The time value of a UTC date-time. *)
Definition timeOfCivil (c : civil) : Z :=
  MakeDate (MakeDay (c_year c) (c_month c) (c_day c))
           (MakeTime (c_hour c) (c_minute c) (c_second c)) + c_ms c.

Lemma time_of_day_split r :
  0 <= r < msPerDay ->
  0 <= r / msPerHour <= 23
  /\ 0 <= r / msPerMinute mod 60 <= 59
  /\ 0 <= r / 1000 mod 60 <= 59
  /\ 0 <= r mod 1000 <= 999
  /\ MakeTime (r / msPerHour) (r / msPerMinute mod 60) (r / 1000 mod 60)
     + r mod 1000 = r.
Proof.
  unfold MakeTime, msPerDay, msPerHour, msPerMinute. intros Hr.
  pose proof (Z.div_mod r 3600000 ltac:(lia)).
  pose proof (Z.mod_pos_bound r 3600000 ltac:(lia)).
  pose proof (Z.div_mod r 60000 ltac:(lia)).
  pose proof (Z.mod_pos_bound r 60000 ltac:(lia)).
  pose proof (Z.div_mod r 1000 ltac:(lia)).
  pose proof (Z.mod_pos_bound r 1000 ltac:(lia)).
  pose proof (Z.div_mod (r / 60000) 60 ltac:(lia)).
  pose proof (Z.mod_pos_bound (r / 60000) 60 ltac:(lia)).
  pose proof (Z.div_mod (r / 1000) 60 ltac:(lia)).
  pose proof (Z.mod_pos_bound (r / 1000) 60 ltac:(lia)).
  assert (r / 60000 / 60 = r / 3600000) by (rewrite Z.div_div by lia; reflexivity).
  assert (r / 1000 / 60 = r / 60000) by (rewrite Z.div_div by lia; reflexivity).
  repeat split; lia.
Qed.

(** [civilOfTime] is the UTC date-time of a time value: it is a date-time
    of the calendar and its time value is the one it was computed from. *)
Lemma civilOfTime_spec t :
  validCivil (civilOfTime t) = true /\ timeOfCivil (civilOfTime t) = t.
Proof.
  unfold civilOfTime.
  pose proof (civilFromDays_MakeDay (t / msPerDay)) as Hd.
  destruct (civilFromDays (t / msPerDay)) as [[y m] d]. destruct Hd as [Hv Hday].
  assert (Hr : 0 <= t mod msPerDay < msPerDay)
    by (apply Z.mod_pos_bound; reflexivity).
  destruct (time_of_day_split _ Hr) as (Hh & Hmi & Hs & Hms & Hsum).
  unfold validCivil, timeOfCivil, MakeDate. cbn [c_year c_month c_day c_hour c_minute c_second c_ms].
  split.
  - rewrite Hv. cbn [andb].
    repeat (apply andb_true_iff; split); apply Z.leb_le; lia.
  - rewrite Hday.
    pose proof (Z.div_mod t msPerDay ltac:(unfold msPerDay; lia)). lia.
Qed.

(** *** Decimal digits *)

Lemma digit_In n :
  In (digit n) [48; 49; 50; 51; 52; 53; 54; 55; 56; 57]%N.
Proof.
  unfold digit.
  pose proof (Z.mod_pos_bound n 10 ltac:(lia)) as H.
  assert (C : n mod 10 = 0 \/ n mod 10 = 1 \/ n mod 10 = 2 \/ n mod 10 = 3
              \/ n mod 10 = 4 \/ n mod 10 = 5 \/ n mod 10 = 6 \/ n mod 10 = 7
              \/ n mod 10 = 8 \/ n mod 10 = 9) by lia.
  repeat (destruct C as [-> | C]; [simpl; tauto|]). rewrite C. simpl; tauto.
Qed.

Lemma isDigit_digit n : isDigit (digit n) = true.
Proof.
  pose proof (digit_In n) as H. simpl in H.
  repeat (destruct H as [<- | H]; [reflexivity|]). destruct H.
Qed.

Lemma isSpace_digit n : isSpace (digit n) = false.
Proof.
  pose proof (digit_In n) as H. simpl in H.
  repeat (destruct H as [<- | H]; [reflexivity|]). destruct H.
Qed.

Lemma isSpace_isDigit c : isDigit c = true -> isSpace c = false.
Proof.
  unfold isDigit, isSpace. rewrite andb_true_iff, !N.leb_le. intros [H1 H2].
  repeat match goal with
         | |- context [(?a <=? ?b)%N] => destruct (N.leb_spec a b)
         | |- context [(?a =? ?b)%N] => destruct (N.eqb_spec a b)
         end; simpl; try reflexivity; lia.
Qed.

Definition check4 (f : Z -> bool) : Prop := allFrom (Z.to_nat 10000) 0 f = true.
Definition check2 (f : Z -> bool) : Prop := allFrom (Z.to_nat 100) 0 f = true.

Lemma readDigits_app n : forall acc ds v rest,
  readDigits n acc ds = Some (v, []) ->
  readDigits n acc (ds ++ rest) = Some (v, rest).
Proof.
  induction n as [|n IH]; intros acc ds v rest; simpl.
  - intros E. inversion E; subst. reflexivity.
  - destruct ds as [|c t]; [discriminate|]. simpl.
    destruct (isDigit c); [|discriminate]. apply IH.
Qed.

Lemma read4_checked :
  check4 (fun y => match readDigits 4 0 (fmt4 y) with
                   | Some (v, []) => v =? y
                   | _ => false
                   end).
Proof. vm_compute. reflexivity. Qed.

Lemma read2_checked :
  check2 (fun y => match readDigits 2 0 (fmt2 y) with
                   | Some (v, []) => v =? y
                   | _ => false
                   end).
Proof. vm_compute. reflexivity. Qed.

Lemma readDigits_fmt4 y rest :
  0 <= y < 10000 -> readDigits 4 0 (fmt4 y ++ rest) = Some (y, rest).
Proof.
  intros Hy. apply readDigits_app.
  pose proof (allBelow 10000 _ read4_checked y Hy) as H. cbv beta in H.
  destruct (readDigits 4 0 (fmt4 y)) as [[v [|? ?]]|]; try discriminate.
  apply Z.eqb_eq in H. subst v. reflexivity.
Qed.

Lemma readDigits_fmt2 y rest :
  0 <= y < 100 -> readDigits 2 0 (fmt2 y ++ rest) = Some (y, rest).
Proof.
  intros Hy. apply readDigits_app.
  pose proof (allBelow 100 _ read2_checked y Hy) as H. cbv beta in H.
  destruct (readDigits 2 0 (fmt2 y)) as [[v [|? ?]]|]; try discriminate.
  apply Z.eqb_eq in H. subst v. reflexivity.
Qed.

Lemma number4_checked :
  check4 (fun y => (digitsToNumber (fmt4 y) =? Z.to_N y)%N
                   && str_eqb (padStart0 4 (numberToString (Z.to_N y))) (fmt4 y)).
Proof. vm_compute. reflexivity. Qed.

Lemma number2_checked :
  check2 (fun y => (digitsToNumber (fmt2 y) =? Z.to_N y)%N
                   && str_eqb (padStart0 2 (numberToString (Z.to_N y))) (fmt2 y)).
Proof. vm_compute. reflexivity. Qed.

Lemma number_fmt4 y :
  0 <= y < 10000 ->
  digitsToNumber (fmt4 y) = Z.to_N y
  /\ padStart0 4 (numberToString (Z.to_N y)) = fmt4 y.
Proof.
  intros Hy. pose proof (allBelow 10000 _ number4_checked y Hy) as H.
  cbv beta in H. apply andb_true_iff in H. destruct H as [H1 H2].
  apply N.eqb_eq in H1. apply JSProps.str_eqb_eq in H2. auto.
Qed.

Lemma number_fmt2 y :
  0 <= y < 100 ->
  digitsToNumber (fmt2 y) = Z.to_N y
  /\ padStart0 2 (numberToString (Z.to_N y)) = fmt2 y.
Proof.
  intros Hy. pose proof (allBelow 100 _ number2_checked y Hy) as H.
  cbv beta in H. apply andb_true_iff in H. destruct H as [H1 H2].
  apply N.eqb_eq in H1. apply JSProps.str_eqb_eq in H2. auto.
Qed.

(** *** [toUtcIso] on a date-time of the calendar *)

(** A local date and time of day, as a notice writes it. *)
Record LocalDateTime := mkLocal {
  l_year : Z; l_month : Z; l_day : Z; l_hour : Z; l_minute : Z
}.

(** Well-formed: a four digit year, a day that exists in its month, an
    hour from 00 to 23 and a minute from 00 to 59. *)
Definition wellFormed (l : LocalDateTime) : bool :=
  (0 <=? l_year l) && (l_year l <=? 9999)
  && validDate (l_year l) (l_month l) (l_day l)
  && (0 <=? l_hour l) && (l_hour l <=? 23)
  && (0 <=? l_minute l) && (l_minute l <=? 59).

(** The offset from UTC, in minutes, of the time zones the parser knows. *)
Definition knownTimezone (tz : jsstring) : option Z :=
  if str_eqb tz (lit "Asia/Seoul") then Some 540
  else if str_eqb tz (lit "Asia/Tokyo") then Some 540
  else if str_eqb tz (lit "UTC") then Some 0
  else None.

(** The time value of the local date-time read as UTC. *)
Definition localTime (l : LocalDateTime) : Z :=
  MakeDate (MakeDay (l_year l) (l_month l) (l_day l))
           (MakeTime (l_hour l) (l_minute l) 0).

(** The UTC date-time of a local date-time at [off] minutes east of UTC. *)
Definition utcOf (off : Z) (l : LocalDateTime) : civil :=
  civilOfTime (localTime l - off * msPerMinute).

Definition partsOf (l : LocalDateTime) (tz : jsstring) : DateParts :=
  mkParts (Z.to_N (l_year l)) (Z.to_N (l_month l)) (Z.to_N (l_day l))
          (Z.to_N (l_hour l)) (Z.to_N (l_minute l)) tz.

Lemma wellFormed_bounds l :
  wellFormed l = true ->
  0 <= l_year l < 10000 /\ 1 <= l_month l <= 12 /\ 1 <= l_day l <= 31
  /\ 0 <= l_hour l <= 23 /\ 0 <= l_minute l <= 59.
Proof.
  unfold wellFormed, validDate. rewrite !andb_true_iff, !Z.leb_le.
  intros H.
  assert (Hd : daysInMonth (isLeapYear (l_year l)) (l_month l) <= 31).
  { unfold daysInMonth. destruct (l_month l) as [|p|p]; try lia.
    destruct (isLeapYear (l_year l));
      repeat (destruct p as [p|p|]; try lia). }
  lia.
Qed.

Local Opaque fmt2 fmt4.

Lemma parseDate_local y m d h mi oh om :
  0 <= y < 10000 -> 1 <= m <= 12 -> 1 <= d <= 31 -> 0 <= h <= 23 ->
  0 <= mi <= 59 -> 0 <= oh <= 23 -> 0 <= om <= 59 ->
  parseDate (fmt4 y ++ 45%N :: fmt2 m ++ 45%N :: fmt2 d ++ 84%N :: fmt2 h
             ++ 58%N :: fmt2 mi ++ 58%N :: fmt2 0 ++ 43%N :: fmt2 oh
             ++ 58%N :: fmt2 om ++ [])
  = Some (MakeDate (MakeDay y m d) (MakeTime h mi 0)
          - (oh * msPerHour + om * msPerMinute)).
Proof.
  intros Hy Hm Hd Hh Hmi Hoh Hom.
  unfold parseDate, Dates.bind.
  rewrite readDigits_fmt4 by lia. cbn [expect code_eqb N.eqb Pos.eqb].
  rewrite readDigits_fmt2 by lia. cbn [expect code_eqb N.eqb Pos.eqb].
  rewrite readDigits_fmt2 by lia. cbn [expect code_eqb N.eqb Pos.eqb].
  rewrite readDigits_fmt2 by lia. cbn [expect code_eqb N.eqb Pos.eqb].
  rewrite readDigits_fmt2 by lia. cbn [expect code_eqb N.eqb Pos.eqb].
  rewrite readDigits_fmt2 by lia. cbv iota beta.
  rewrite readDigits_fmt2 by lia. cbn [expect code_eqb N.eqb Pos.eqb].
  rewrite readDigits_fmt2 by lia. cbv iota beta.
  replace ((1 <=? m) && (m <=? 12) && (1 <=? d) && (d <=? 31)) with true
    by (symmetry; rewrite !andb_true_iff, !Z.leb_le; lia).
  replace ((h <=? 23) && (mi <=? 59) && (0 <=? 59)) with true
    by (symmetry; rewrite !andb_true_iff, !Z.leb_le; lia).
  replace ((oh <=? 23) && (om <=? 59)) with true
    by (symmetry; rewrite !andb_true_iff, !Z.leb_le; lia).
  cbn [andb orb]. f_equal. lia.
Qed.

Lemma timezoneOffset_known tz off :
  knownTimezone tz = Some off ->
  exists oh, 0 <= oh <= 23 /\ off = oh * 60
             /\ timezoneOffset tz = 43%N :: fmt2 oh ++ 58%N :: fmt2 0 ++ [].
Proof.
  unfold knownTimezone, timezoneOffset.
  destruct (str_eqb tz (lit "Asia/Seoul"));
    [intros E; inversion E; exists 9; repeat split; try lia; vm_compute; reflexivity|].
  destruct (str_eqb tz (lit "Asia/Tokyo"));
    [intros E; inversion E; exists 9; repeat split; try lia; vm_compute; reflexivity|].
  destruct (str_eqb tz (lit "UTC"));
    [intros E; inversion E; exists 0; repeat split; try lia; vm_compute; reflexivity|].
  discriminate.
Qed.

(** For a well-formed local date-time in a known time zone, [toUtcIso] is
    the ISO text of the time value of the same instant. *)
Lemma toUtcIso_wellFormed l tz off :
  wellFormed l = true -> knownTimezone tz = Some off ->
  toUtcIso (partsOf l tz) = Some (isoString (utcOf off l)).
Proof.
  intros Hw Htz.
  destruct (wellFormed_bounds l Hw) as (Hy & Hm & Hd & Hh & Hmi).
  destruct (timezoneOffset_known tz off Htz) as (oh & Hoh & -> & Hoff).
  unfold toUtcIso, partsOf. cbn [year month day hour minute timezone].
  rewrite (proj2 (number_fmt4 (l_year l) ltac:(lia))).
  rewrite (proj2 (number_fmt2 (l_month l) ltac:(lia))).
  rewrite (proj2 (number_fmt2 (l_day l) ltac:(lia))).
  rewrite (proj2 (number_fmt2 (l_hour l) ltac:(lia))).
  rewrite (proj2 (number_fmt2 (l_minute l) ltac:(lia))).
  rewrite Hoff.
  change (lit "-") with [45%N]. change (lit "T") with [84%N].
  change (lit ":") with [58%N].
  change (lit ":00") with (58%N :: fmt2 0 ++ []).
  cbn [app]. rewrite !app_nil_r.
  pose proof (parseDate_local (l_year l) (l_month l) (l_day l) (l_hour l)
                (l_minute l) oh 0 Hy Hm Hd Hh Hmi Hoh ltac:(lia)) as Hp.
  rewrite !app_nil_r in Hp. cbn [app] in Hp.
  rewrite Hp. unfold toISOString, utcOf, localTime. do 3 f_equal.
  unfold msPerHour, msPerMinute. lia.
Qed.

Local Transparent fmt2 fmt4.

(** *** White space around a word *)

Definition noSpace (w : jsstring) : Prop := Forall (fun c => isSpace c = false) w.
Definition noDigit (w : jsstring) : Prop := Forall (fun c => isDigit c = false) w.

Lemma replaceSpaceRuns_word w : forall b rest,
  w <> [] -> noSpace w ->
  replaceSpaceRuns b (w ++ rest) = w ++ replaceSpaceRuns false rest.
Proof.
  induction w as [|c w IH]; intros b rest Hne Hw; [congruence|].
  inversion Hw as [|? ? Hc Hw']; subst. simpl. rewrite Hc. f_equal.
  destruct w as [|c' w']; [reflexivity|].
  apply IH; [discriminate | exact Hw'].
Qed.

Lemma replaceSpaceRuns_before_word pre : forall b w rest,
  w <> [] -> noSpace w ->
  replaceSpaceRuns b (pre ++ w ++ rest)
  = replaceSpaceRuns b pre ++ w ++ replaceSpaceRuns false rest.
Proof.
  induction pre as [|c pre IH]; intros b w rest Hne Hw.
  - simpl. apply replaceSpaceRuns_word; assumption.
  - simpl. destruct (isSpace c); [destruct b|]; simpl; rewrite IH by assumption;
      reflexivity.
Qed.

Lemma replaceSpaceRuns_space_word w rest :
  w <> [] -> noSpace w ->
  replaceSpaceRuns false (32%N :: w ++ rest)
  = 32%N :: w ++ replaceSpaceRuns false rest.
Proof.
  intros Hne Hw. change (32%N :: w ++ rest) with ([32%N] ++ w ++ rest).
  rewrite replaceSpaceRuns_before_word by assumption. reflexivity.
Qed.

Lemma trimStart_before_word a w rest :
  w <> [] -> noSpace w -> trimStart (a ++ w ++ rest) = trimStart a ++ w ++ rest.
Proof.
  intros Hne Hw. destruct w as [|c w]; [congruence|].
  inversion Hw as [|? ? Hc _]; subst.
  induction a as [|x a IH]; simpl.
  - rewrite Hc. reflexivity.
  - destruct (isSpace x); [exact IH | reflexivity].
Qed.

Lemma trimEnd_after_word a w rest :
  w <> [] -> noSpace w -> trimEnd (a ++ w ++ rest) = a ++ w ++ trimEnd rest.
Proof.
  intros Hne Hw. unfold trimEnd.
  rewrite !rev_app_distr.
  assert (Hr : rev w <> []).
  { intros E. apply Hne. rewrite <- (rev_involutive w), E. reflexivity. }
  assert (Hs : noSpace (rev w)).
  { apply Forall_forall. intros c Hin. apply in_rev in Hin.
    unfold noSpace in Hw. rewrite Forall_forall in Hw. auto. }
  rewrite <- app_assoc.
  rewrite (trimStart_before_word (rev rest) (rev w) (rev a) Hr Hs).
  rewrite !rev_app_distr, !rev_involutive, <- app_assoc. reflexivity.
Qed.

Lemma noDigit_replaceSpaceRuns s : forall b,
  noDigit s -> noDigit (replaceSpaceRuns b s).
Proof.
  induction s as [|c s IH]; intros b H; simpl; [constructor|].
  inversion H as [|? ? Hc Hs]; subst.
  destruct (isSpace c); [destruct b|]; try (constructor; [|apply IH; exact Hs]);
    auto.
Qed.

Lemma noDigit_trimStart s : noDigit s -> noDigit (trimStart s).
Proof.
  induction s as [|c s IH]; intros H; simpl; [constructor|].
  inversion H; subst. destruct (isSpace c); auto.
Qed.

(** *** The text of a range *)

Definition dateText (l : LocalDateTime) : jsstring :=
  fmt4 (l_year l) ++ 47%N :: fmt2 (l_month l) ++ 47%N :: fmt2 (l_day l).

Definition timeText (l : LocalDateTime) : jsstring :=
  fmt2 (l_hour l) ++ 58%N :: fmt2 (l_minute l).

(** [YYYY/MM/DD HH:MM] *)
Definition dateTimeText (l : LocalDateTime) : jsstring :=
  dateText l ++ 32%N :: timeText l.

(** [YYYY/MM/DD HH:MM ~ YYYY/MM/DD HH:MM] *)
Definition rangeText (s e : LocalDateTime) : jsstring :=
  dateTimeText s ++ 32%N :: 126%N :: 32%N :: dateTimeText e.

Example rangeText_example :
  rangeText (mkLocal 2026 3 1 10 0) (mkLocal 2026 3 8 11 30)
  = lit "2026/03/01 10:00 ~ 2026/03/08 11:30".
Proof. vm_compute. reflexivity. Qed.

Lemma noSpace_fmt2 n : noSpace (fmt2 n).
Proof. repeat constructor; apply isSpace_digit. Qed.

Lemma noSpace_fmt4 n : noSpace (fmt4 n).
Proof. repeat constructor; apply isSpace_digit. Qed.

Lemma noSpace_dateText l : noSpace (dateText l).
Proof.
  unfold dateText, noSpace.
  apply Forall_app; split; [apply noSpace_fmt4|]. constructor; [reflexivity|].
  apply Forall_app; split; [apply noSpace_fmt2|]. constructor; [reflexivity|].
  apply noSpace_fmt2.
Qed.

Lemma noSpace_timeText l : noSpace (timeText l).
Proof.
  unfold timeText, noSpace.
  apply Forall_app; split; [apply noSpace_fmt2|]. constructor; [reflexivity|].
  apply noSpace_fmt2.
Qed.

Lemma dateText_nonempty l : dateText l <> [].
Proof. discriminate. Qed.

Lemma timeText_nonempty l : timeText l <> [].
Proof. discriminate. Qed.

(** Normalising a text keeps a range that it contains: what comes before
    and after the range is normalised around it. *)
Lemma normalizeText_range pre s e post :
  normalizeText (pre ++ rangeText s e ++ post)
  = trimStart (replaceSpaceRuns false pre) ++ rangeText s e
    ++ trimEnd (replaceSpaceRuns false post).
Proof.
  unfold normalizeText, trim, rangeText, dateTimeText.
  assert (E : replaceSpaceRuns false
                (pre ++ ((dateText s ++ 32%N :: timeText s)
                         ++ 32%N :: 126%N :: 32%N :: dateText e ++ 32%N :: timeText e)
                     ++ post)
              = replaceSpaceRuns false pre
                ++ dateText s ++ 32%N :: timeText s
                ++ 32%N :: [126%N] ++ 32%N :: dateText e ++ 32%N :: timeText e
                ++ replaceSpaceRuns false post).
  { rewrite <- !app_assoc. cbn [app]. rewrite <- !app_assoc. cbn [app].
    rewrite replaceSpaceRuns_before_word
      by (apply dateText_nonempty || apply noSpace_dateText).
    rewrite replaceSpaceRuns_space_word
      by (apply timeText_nonempty || apply noSpace_timeText).
    change (32%N :: 126%N :: 32%N :: dateText e ++ 32%N :: timeText e ++ post)
      with (32%N :: [126%N] ++ 32%N :: dateText e ++ 32%N :: timeText e ++ post).
    rewrite replaceSpaceRuns_space_word by (first [discriminate | repeat constructor]).
    rewrite replaceSpaceRuns_space_word
      by (apply dateText_nonempty || apply noSpace_dateText).
    rewrite replaceSpaceRuns_space_word
      by (apply timeText_nonempty || apply noSpace_timeText).
    reflexivity. }
  rewrite E.
  rewrite trimStart_before_word
    by (apply dateText_nonempty || apply noSpace_dateText).
  set (front := trimStart (replaceSpaceRuns false pre) ++ dateText s ++ 32%N :: timeText s
                ++ 32%N :: [126%N] ++ 32%N :: dateText e ++ [32%N]).
  replace (trimStart (replaceSpaceRuns false pre) ++ dateText s ++ 32%N :: timeText s
           ++ 32%N :: [126%N] ++ 32%N :: dateText e ++ 32%N :: timeText e
           ++ replaceSpaceRuns false post)
    with (front ++ timeText e ++ replaceSpaceRuns false post).
  2:{ unfold front. rewrite <- !app_assoc. cbn [app]. rewrite <- !app_assoc.
      cbn [app]. rewrite <- !app_assoc. reflexivity. }
  rewrite trimEnd_after_word
    by (apply timeText_nonempty || apply noSpace_timeText).
  unfold front. rewrite <- !app_assoc. cbn [app]. rewrite <- !app_assoc.
  cbn [app]. rewrite <- !app_assoc. reflexivity.
Qed.

(** *** The matcher on a range *)

Lemma run_full k d : forall rest,
  Forall (fun c => inClass k c = true) d ->
  run k (length d) (d ++ rest) = length d.
Proof.
  induction d as [|c d IH]; intros rest H; [reflexivity|].
  inversion H as [|? ? Hc Hd]; subst. simpl. rewrite Hc, IH by exact Hd.
  reflexivity.
Qed.

Lemma giveBack_first {A} n lo (f : nat -> option A) r :
  (lo <= n)%nat -> f n = Some r -> giveBack n lo f = Some r.
Proof.
  intros Hle Hf. destruct n; simpl.
  - assert (lo = 0%nat) as -> by lia. simpl. rewrite Hf. reflexivity.
  - destruct (Nat.ltb_spec (S n) lo); [lia|]. rewrite Hf. reflexivity.
Qed.

(** A capture that takes all of [d], followed by a match of the rest. *)
Lemma matchHere_Cap k lo d p rest caps :
  Forall (fun c => inClass k c = true) d ->
  (lo <= length d)%nat ->
  matchHere p rest = Some caps ->
  matchHere (Cap k lo (length d) :: p) (d ++ rest) = Some (d :: caps).
Proof.
  intros Hd Hlo Hp. cbn [matchHere]. rewrite run_full by exact Hd.
  apply giveBack_first; [exact Hlo|].
  rewrite skipn_app, skipn_all, Nat.sub_diag, firstn_app, firstn_all,
    Nat.sub_diag. simpl. rewrite Hp, app_nil_r. reflexivity.
Qed.

(** [\s*] on one space followed by a word. *)
Lemma matchHere_Star_space w p rest caps :
  w <> [] -> noSpace w ->
  matchHere p (w ++ rest) = Some caps ->
  matchHere (Star Space :: p) (32%N :: w ++ rest) = Some caps.
Proof.
  intros Hne Hw Hp. destruct w as [|c w]; [congruence|].
  inversion Hw as [|? ? Hc _]; subst.
  cbn [matchHere]. cbn [length app run inClass].
  change (isSpace 32) with true. cbv iota. rewrite Hc.
  apply giveBack_first; [lia|]. exact Hp.
Qed.

Lemma matchHere_One k c p rest caps :
  inClass k c = true ->
  matchHere p rest = Some caps ->
  matchHere (One k :: p) (c :: rest) = Some caps.
Proof. intros Hc Hp. cbn [matchHere]. rewrite Hc. exact Hp. Qed.

Lemma digits_fmt2 n : Forall (fun c => inClass Digit c = true) (fmt2 n).
Proof. repeat constructor; apply isDigit_digit. Qed.

Lemma digits_fmt4 n : Forall (fun c => inClass Digit c = true) (fmt4 n).
Proof. repeat constructor; apply isDigit_digit. Qed.

(** The captures of a range. *)
Definition dateTimeCaptures (l : LocalDateTime) : list jsstring :=
  [fmt4 (l_year l); fmt2 (l_month l); fmt2 (l_day l); fmt2 (l_hour l);
   fmt2 (l_minute l)].

Lemma matchHere_dateTime l p rest caps :
  matchHere p rest = Some caps ->
  matchHere (dateTime ++ p) (dateTimeText l ++ rest)
  = Some (dateTimeCaptures l ++ caps).
Proof.
  intros Hp. unfold dateTime, dateTimeText, dateText, timeText, dateTimeCaptures.
  rewrite <- ?app_assoc. cbn [app]. rewrite <- ?app_assoc. cbn [app].
  rewrite <- ?app_assoc. cbn [app].
  apply (matchHere_Cap Digit 4 (fmt4 (l_year l))); [apply digits_fmt4 | simpl; lia|].
  apply matchHere_One; [reflexivity|].
  apply (matchHere_Cap Digit 1 (fmt2 (l_month l))); [apply digits_fmt2 | simpl; lia|].
  apply matchHere_One; [reflexivity|].
  apply (matchHere_Cap Digit 1 (fmt2 (l_day l))); [apply digits_fmt2 | simpl; lia|].
  apply (matchHere_Star_space (fmt2 (l_hour l)));
    [discriminate | apply noSpace_fmt2 |].
  apply (matchHere_Cap Digit 1 (fmt2 (l_hour l))); [apply digits_fmt2 | simpl; lia|].
  apply matchHere_One; [reflexivity|].
  apply (matchHere_Cap Digit 2 (fmt2 (l_minute l))); [apply digits_fmt2 | simpl; lia|].
  exact Hp.
Qed.

Lemma matchHere_fullRange s e rest :
  matchHere fullRangePattern (rangeText s e ++ rest)
  = Some (dateTimeCaptures s ++ dateTimeCaptures e).
Proof.
  unfold fullRangePattern, rangeText.
  rewrite <- ?app_assoc. cbn [app].
  apply matchHere_dateTime.
  apply (matchHere_Star_space [126%N]); [discriminate | repeat constructor|].
  cbn [app]. apply matchHere_One; [reflexivity|].
  replace (dateTimeText e ++ rest)
    with (dateText e ++ 32%N :: timeText e ++ rest)
    by (unfold dateTimeText; rewrite <- app_assoc; reflexivity).
  apply (matchHere_Star_space (dateText e));
    [apply dateText_nonempty | apply noSpace_dateText|].
  replace (dateText e ++ 32%N :: timeText e ++ rest)
    with (dateTimeText e ++ rest)
    by (unfold dateTimeText; rewrite <- app_assoc; reflexivity).
  rewrite <- (app_nil_r dateTime), <- (app_nil_r (dateTimeCaptures e)).
  apply matchHere_dateTime. reflexivity.
Qed.

(** The pattern matches at no place of [pre], in the text [pre ++ rest]. *)
Fixpoint noMatchBefore (p : pattern) (pre rest : jsstring) : bool :=
  match pre with
  | [] => true
  | _ :: pre' =>
      match matchHere p (pre ++ rest) with
      | Some _ => false
      | None => noMatchBefore p pre' rest
      end
  end.

(** The leftmost match is not in [pre] then. *)
Lemma search_noMatchBefore p pre rest :
  noMatchBefore p pre rest = true -> search p (pre ++ rest) = search p rest.
Proof.
  induction pre as [|c pre IH]; [reflexivity|].
  cbn [noMatchBefore app search].
  destruct (matchHere p (c :: pre ++ rest)); [discriminate|]. exact IH.
Qed.

(** No match starts at a code unit that is not a digit. *)
Lemma noDigit_noMatchBefore pre rest :
  noDigit pre -> noMatchBefore fullRangePattern pre rest = true.
Proof.
  induction 1 as [|c pre Hc _ IH]; [reflexivity|].
  cbn [noMatchBefore app].
  assert (E : matchHere fullRangePattern (c :: pre ++ rest) = None).
  { unfold fullRangePattern, dateTime. cbn [app matchHere run inClass].
    rewrite Hc. reflexivity. }
  rewrite E. exact IH.
Qed.

Lemma search_hit p s caps :
  matchHere p s = Some caps -> search p s = Some caps.
Proof. intros H. destruct s; simpl; rewrite H; reflexivity. Qed.

Lemma search_fullRange pre s e post :
  noMatchBefore fullRangePattern pre (rangeText s e ++ post) = true ->
  search fullRangePattern (pre ++ rangeText s e ++ post)
  = Some (dateTimeCaptures s ++ dateTimeCaptures e).
Proof.
  intros Hpre. rewrite search_noMatchBefore by exact Hpre.
  apply search_hit, matchHere_fullRange.
Qed.

(** *** [extractDateRange] on a text with a range *)

Lemma groups_of_range s e :
  wellFormed s = true -> wellFormed e = true ->
  let m := dateTimeCaptures s ++ dateTimeCaptures e in
  forall tz,
    mkParts (group m 1) (group m 2) (group m 3) (group m 4) (group m 5) tz
    = partsOf s tz
    /\ mkParts (group m 6) (group m 7) (group m 8) (group m 9) (group m 10) tz
       = partsOf e tz.
Proof.
  intros Hs He m tz.
  destruct (wellFormed_bounds s Hs) as (? & ? & ? & ? & ?).
  destruct (wellFormed_bounds e He) as (? & ? & ? & ? & ?).
  unfold m, dateTimeCaptures, group, partsOf. cbn [app nth Nat.sub].
  rewrite (proj1 (number_fmt4 (l_year s) ltac:(lia))),
    (proj1 (number_fmt4 (l_year e) ltac:(lia))),
    (proj1 (number_fmt2 (l_month s) ltac:(lia))),
    (proj1 (number_fmt2 (l_day s) ltac:(lia))),
    (proj1 (number_fmt2 (l_hour s) ltac:(lia))),
    (proj1 (number_fmt2 (l_minute s) ltac:(lia))),
    (proj1 (number_fmt2 (l_month e) ltac:(lia))),
    (proj1 (number_fmt2 (l_day e) ltac:(lia))),
    (proj1 (number_fmt2 (l_hour e) ltac:(lia))),
    (proj1 (number_fmt2 (l_minute e) ltac:(lia))).
  auto.
Qed.

Lemma truthy_isoString c : truthy (Some (isoString c)) = true.
Proof.
  unfold isoString, fmtYear. destruct (_ && _); reflexivity.
Qed.

(** A range after a match of the pattern that is no date. *)
Definition afterBadRange : jsstring :=
  lit "2026/13/01 10:00 ~ 2026/13/08 11:30, 2026/03/01 10:00 ~ 2026/03/08 11:30".

(** C7, as stated, fails: the text contains the well-formed range of
    March in a known time zone, the pattern matches before it on a range
    with month 13, and [extractDateRange] returns no endpoint at all, with
    score 0.15. *)
Lemma earlier_match_counterexample :
  afterBadRange
  = lit "2026/13/01 10:00 ~ 2026/13/08 11:30, "
    ++ rangeText (mkLocal 2026 3 1 10 0) (mkLocal 2026 3 8 11 30) ++ []
  /\ wellFormed (mkLocal 2026 3 1 10 0) = true
  /\ wellFormed (mkLocal 2026 3 8 11 30) = true
  /\ knownTimezone (lit "Asia/Seoul") = Some 540
  /\ extractDateRange afterBadRange (lit "Asia/Seoul")
     = mkDateRange None None 0.15%float.
Proof. vm_compute. repeat split. Qed.

(** Of two well-formed ranges the first is taken. *)
Example extractDateRange_two_ranges :
  let r := extractDateRange
             (lit "2026/03/01 10:00 ~ 2026/03/08 11:30, 2026/04/01 10:00 ~ 2026/04/08 11:30")
             (lit "Asia/Seoul") in
  startAtUtc r = Some (lit "2026-03-01T01:00:00.000Z")
  /\ endAtUtc r = Some (lit "2026-03-08T02:30:00.000Z").
Proof. vm_compute. repeat split. Qed.

(** A time zone name that the map of [timezoneOffset] inherits is not a
    known time zone: the date text is no date, and the range of the unit
    test of the repository gets no endpoint. *)
Example extractDateRange_inherited_name :
  extractDateRange (lit "2026/03/01 10:00 ~ 2026/03/08 11:30") (lit "toString")
  = mkDateRange None None 0.15%float.
Proof. vm_compute. reflexivity. Qed.

(** C7, amended.  For every text whose normal form (the text that is
    searched) has a well-formed [YYYY/MM/DD HH:MM ~ YYYY/MM/DD HH:MM]
    range at a place before which the full-range pattern matches nowhere,
    and every known time zone, [extractDateRange] returns the two
    endpoints of that range as the ISO text of their UTC date-times,
    which are the local date-times moved by the fixed offset of the zone,
    with score 0.35.  (By [normalizeText_range] the normal form of a text
    that contains the range contains it.) *)
Theorem extractDateRange_first_range :
  forall (text pre post tz : jsstring) (off : Z) (s e : LocalDateTime),
    normalizeText text = pre ++ rangeText s e ++ post ->
    noMatchBefore fullRangePattern pre (rangeText s e ++ post) = true ->
    wellFormed s = true -> wellFormed e = true ->
    knownTimezone tz = Some off ->
    let r := extractDateRange text tz in
    startAtUtc r = Some (isoString (utcOf off s))
    /\ endAtUtc r = Some (isoString (utcOf off e))
    /\ score r = 0.35%float
    /\ validCivil (utcOf off s) = true
    /\ timeOfCivil (utcOf off s) = localTime s - off * msPerMinute
    /\ validCivil (utcOf off e) = true
    /\ timeOfCivil (utcOf off e) = localTime e - off * msPerMinute.
Proof.
  intros text pre post tz off s e Hnorm Hpre Hs He Htz r.
  assert (Hr : r = mkDateRange (Some (isoString (utcOf off s)))
                               (Some (isoString (utcOf off e))) 0.35%float).
  { unfold r, extractDateRange.
    rewrite Hnorm, (search_fullRange pre s e post Hpre).
    destruct (groups_of_range s e Hs He tz) as [-> ->].
    rewrite (toUtcIso_wellFormed s tz off Hs Htz),
      (toUtcIso_wellFormed e tz off He Htz), !truthy_isoString.
    reflexivity. }
  rewrite Hr. cbn [startAtUtc endAtUtc score].
  destruct (civilOfTime_spec (localTime s - off * msPerMinute)) as [Hvs Hts].
  destruct (civilOfTime_spec (localTime e - off * msPerMinute)) as [Hve Hte].
  unfold utcOf. auto 10.
Qed.

(** A notice with a digit before the range, and white space to
    normalise. *)
Lemma extractDateRange_first_range_witness :
  let text := lit "Ver 2  update 2026/03/01 10:00 ~ 2026/03/08 11:30 " in
  let s := mkLocal 2026 3 1 10 0 in
  let e := mkLocal 2026 3 8 11 30 in
  normalizeText text = lit "Ver 2 update " ++ rangeText s e ++ []
  /\ noMatchBefore fullRangePattern (lit "Ver 2 update ") (rangeText s e ++ [])
     = true
  /\ startAtUtc (extractDateRange text (lit "Asia/Seoul"))
     = Some (isoString (utcOf 540 s))
  /\ isoString (utcOf 540 s) = lit "2026-03-01T01:00:00.000Z".
Proof.
  intros text s e.
  assert (Hn : normalizeText text = lit "Ver 2 update " ++ rangeText s e ++ [])
    by (vm_compute; reflexivity).
  assert (Hm : noMatchBefore fullRangePattern (lit "Ver 2 update ")
                             (rangeText s e ++ []) = true)
    by (vm_compute; reflexivity).
  split; [exact Hn|]. split; [exact Hm|].
  split; [|vm_compute; reflexivity].
  apply (extractDateRange_first_range text (lit "Ver 2 update ") []
           (lit "Asia/Seoul") 540 s e Hn Hm eq_refl eq_refl eq_refl).
Defined.

End DateProps.

(* ================================================================== *)
(** ** Properties of the scheduling engine *)

Module SchedulingProps.
Import JS Store Scheduling JSProps.
Local Open Scope Z_scope.

(** Planning writes the schedule table and its sequence only. *)
Definition sameOtherTables (a b : Db) : Prop :=
  events a = events b /\ events_seq a = events_seq b
  /\ notification_rules a = notification_rules b
  /\ user_games a = user_games b
  /\ notification_deliveries a = notification_deliveries b
  /\ notification_deliveries_seq a = notification_deliveries_seq b
  /\ push_subscriptions a = push_subscriptions b
  /\ users a = users b
  /\ raw_notices a = raw_notices b
  /\ raw_notices_seq a = raw_notices_seq b
  /\ event_raw_links a = event_raw_links b
  /\ sources a = sources b.

Lemma sameOtherTables_refl a : sameOtherTables a a.
Proof. unfold sameOtherTables; intuition. Qed.

Lemma sameOtherTables_trans a b c :
  sameOtherTables a b -> sameOtherTables b c -> sameOtherTables a c.
Proof. unfold sameOtherTables; intuition congruence. Qed.

Lemma sameOtherTables_set db rows seq :
  sameOtherTables db (set_schedules db rows seq).
Proof. unfold sameOtherTables; simpl; intuition. Qed.

(** The key and the payload that [upsertSchedule] computes. *)
Definition keyOf (userId : Z) (event : EventRow) (rule : RuleRow) : jsstring :=
  makeDedupeKey userId (ev_id event) (rule_channel rule) (rule_trigger rule)
                (offsetOr0 rule).

Definition payloadOf (event : EventRow) (rule : RuleRow) : Payload :=
  mkPayload (ev_title event) (ev_type event) (rule_trigger rule)
            (offsetOr0 rule) (rule_channel rule).

Definition insertedRow (now : Z) (db : Db) (userId : Z) (event : EventRow)
           (rule : RuleRow) (scheduledAt : Z) : ScheduleRow :=
  mkSchedule (notification_schedules_seq db) userId (ev_id event)
             (rule_channel rule) (rule_trigger rule) (offsetOr0 rule)
             scheduledAt PENDING (payloadOf event rule)
             (keyOf userId event rule) now now.

Lemma upsert_rows now db u ev rule t :
  notification_schedules (upsertSchedule now db u ev rule t)
  = if existsb (fun r => str_eqb (ns_dedupe_key r) (keyOf u ev rule))
               (notification_schedules db)
    then map (fun r => if str_eqb (ns_dedupe_key r) (keyOf u ev rule)
                       then onConflictUpdate now t (payloadOf ev rule) r
                       else r) (notification_schedules db)
    else notification_schedules db ++ [insertedRow now db u ev rule t].
Proof.
  unfold upsertSchedule. fold (keyOf u ev rule). fold (payloadOf ev rule).
  destruct (existsb _ _); reflexivity.
Qed.

Lemma upsert_other now db u ev rule t :
  sameOtherTables db (upsertSchedule now db u ev rule t).
Proof.
  unfold upsertSchedule. destruct (existsb _ _); apply sameOtherTables_set.
Qed.

(** *** A relation that every planning step respects

    [R] relates the schedule table before and after a step.  When the
    purge and the upsert respect it, so do the planning operations. *)
Section PlanningRespects.

Variable R : list ScheduleRow -> list ScheduleRow -> Prop.
Hypothesis R_refl : forall rows, R rows rows.
Hypothesis R_trans : forall a b c, R a b -> R b c -> R a c.
Hypothesis R_purge :
  forall (keep : ScheduleRow -> bool) rows,
    (forall r, keep r = false -> purgeable (ns_status r) = true) ->
    R rows (filter keep rows).
Hypothesis R_upsert :
  forall now db u ev rule t,
    R (notification_schedules db)
      (notification_schedules (upsertSchedule now db u ev rule t)).

Definition respects (a b : Db) : Prop :=
  R (notification_schedules a) (notification_schedules b)
  /\ sameOtherTables a b.

Lemma respects_refl a : respects a a.
Proof. split; [apply R_refl | apply sameOtherTables_refl]. Qed.

Lemma respects_trans a b c : respects a b -> respects b c -> respects a c.
Proof.
  intros [H1 H2] [H3 H4]. split; [eapply R_trans | eapply sameOtherTables_trans];
    eassumption.
Qed.

Lemma planRule_respects now ev u db p s rule :
  respects db (fst (fst (planRule now ev u (db, p, s) rule))).
Proof.
  unfold planRule.
  destruct (computeScheduledAt now rule ev) as [t|]; [|apply respects_refl].
  destruct (t <? _); [apply respects_refl|].
  simpl. split; [apply R_upsert | apply upsert_other].
Qed.

Lemma planRules_respects now ev u rules :
  forall st, respects (fst (fst st))
                      (fst (fst (fold_left (planRule now ev u) rules st))).
Proof.
  induction rules as [|rule rules IH]; intros [[db p] s]; simpl fold_left.
  - apply respects_refl.
  - eapply respects_trans; [|apply IH].
    apply planRule_respects.
Qed.

Lemma planEntries_respects now ev (entries : list (Z * list RuleRow)) :
  forall st,
    respects (fst (fst st))
             (fst (fst (fold_left
                          (fun st entry =>
                             fold_left (planRule now ev (fst entry)) (snd entry) st)
                          entries st))).
Proof.
  induction entries as [|[u rules] entries IH]; intros st; simpl fold_left.
  - apply respects_refl.
  - eapply respects_trans; [|apply IH]. apply planRules_respects.
Qed.

Lemma planForEventAndUsers_respects now db ev uid :
  respects db (fst (fst (planForEventAndUsers now db ev uid))).
Proof.
  unfold planForEventAndUsers.
  destruct (negb _); [apply respects_refl|].
  destruct (getTargetUsersForRegion _ _ _); [apply respects_refl|].
  apply (planEntries_respects now ev _ (db, 0, 0)).
Qed.

Lemma purge_respects db keep :
  (forall r, keep r = false -> purgeable (ns_status r) = true) ->
  respects db (set_schedules db (filter keep (notification_schedules db))
                             (notification_schedules_seq db)).
Proof.
  intros H. split; [apply R_purge, H | apply sameOtherTables_set].
Qed.

Lemma purge_keep_event eventId r :
  negb ((ns_event_id r =? eventId) && purgeable (ns_status r)) = false ->
  purgeable (ns_status r) = true.
Proof.
  rewrite negb_false_iff, andb_true_iff. tauto.
Qed.

Lemma planNotificationsForEvent_respects now db eventId :
  respects db (fst (planNotificationsForEvent now db eventId)).
Proof.
  unfold planNotificationsForEvent.
  destruct (getEvent db eventId) as [ev|]; [|apply respects_refl].
  match goal with
  | |- context [planForEventAndUsers now ?d ev None] =>
      pose proof (planForEventAndUsers_respects now d ev None) as H;
      destruct (planForEventAndUsers now d ev None) as [[db2 p] s]
  end.
  simpl in *. eapply respects_trans; [|exact H].
  apply purge_respects. apply purge_keep_event.
Qed.

Lemma rebuildSchedulesForUser_respects now db userId :
  respects db (fst (rebuildSchedulesForUser now db userId)).
Proof.
  unfold rebuildSchedulesForUser.
  match goal with
  | |- context [fold_left ?f ?l ?st] =>
      assert (H : forall l' st', respects (fst (fst st'))
                                          (fst (fst (fold_left f l' st'))));
      [| pose proof (H l st) as H'; destruct (fold_left f l st) as [[db2 p] s]]
  end.
  - induction l' as [|e l' IH]; intros [[d p] s]; simpl fold_left.
    + apply respects_refl.
    + eapply respects_trans; [|apply IH].
      pose proof (planForEventAndUsers_respects now d e (Some userId)) as H.
      destruct (planForEventAndUsers now d e (Some userId)) as [[d' p'] s'].
      exact H.
  - simpl in *. eapply respects_trans; [|exact H'].
    apply purge_respects. intros r.
    rewrite negb_false_iff, andb_true_iff. tauto.
Qed.

End PlanningRespects.

(** *** SENT is final for planning *)

(** A planning operation, with the time it runs at. *)
Inductive PlanningOp :=
| PlanEvent (now eventId : Z)
| RebuildUser (now userId : Z).

Definition runPlanningOp (db : Db) (op : PlanningOp) : Db :=
  match op with
  | PlanEvent now eventId => fst (planNotificationsForEvent now db eventId)
  | RebuildUser now userId => fst (rebuildSchedulesForUser now db userId)
  end.

Definition runPlanningOps (ops : list PlanningOp) (db : Db) : Db :=
  fold_left runPlanningOp ops db.

(** Every SENT row of [rows] is in [rows'] with the same key, user, event,
    channel, trigger and offset, and is SENT there. *)
Definition keepsSent (rows rows' : list ScheduleRow) : Prop :=
  forall r, In r rows -> ns_status r = SENT ->
    exists r', In r' rows'
               /\ ns_id r' = ns_id r /\ ns_dedupe_key r' = ns_dedupe_key r
               /\ ns_user_id r' = ns_user_id r /\ ns_event_id r' = ns_event_id r
               /\ ns_channel r' = ns_channel r
               /\ ns_trigger_type r' = ns_trigger_type r
               /\ ns_trigger_offset_minutes r' = ns_trigger_offset_minutes r
               /\ ns_status r' = SENT.

Lemma keepsSent_refl rows : keepsSent rows rows.
Proof. intros r Hin Hs. exists r. intuition. Qed.

Lemma keepsSent_trans a b c : keepsSent a b -> keepsSent b c -> keepsSent a c.
Proof.
  intros H1 H2 r Hin Hs.
  destruct (H1 r Hin Hs) as (r1 & Hin1 & E1).
  destruct (H2 r1 Hin1) as (r2 & Hin2 & E2); [tauto|].
  exists r2. split; [exact Hin2|]. intuition congruence.
Qed.

(** The purge never deletes a SENT row. *)
Lemma purge_keepsSent (keep : ScheduleRow -> bool) rows :
  (forall r, keep r = false -> purgeable (ns_status r) = true) ->
  keepsSent rows (filter keep rows).
Proof.
  intros Hk r Hin Hs. exists r. split; [|intuition].
  apply filter_In. split; [exact Hin|].
  destruct (keep r) eqn:E; [reflexivity|].
  apply Hk in E. rewrite Hs in E. discriminate.
Qed.

(** The upsert keeps SENT. *)
Lemma upsert_keepsSent now db u ev rule t :
  keepsSent (notification_schedules db)
            (notification_schedules (upsertSchedule now db u ev rule t)).
Proof.
  intros r Hin Hs. rewrite upsert_rows.
  destruct (existsb _ _).
  - exists (if str_eqb (ns_dedupe_key r) (keyOf u ev rule)
            then onConflictUpdate now t (payloadOf ev rule) r else r).
    split.
    + apply (in_map (fun r => if str_eqb (ns_dedupe_key r) (keyOf u ev rule)
                              then onConflictUpdate now t (payloadOf ev rule) r
                              else r)). exact Hin.
    + destruct (str_eqb _ _); simpl; rewrite ?Hs; intuition.
  - exists r. split; [apply in_or_app; auto | intuition].
Qed.

(** C3.  No sequence of planning operations changes the status of a SENT
    schedule row: after any list of calls of [planNotificationsForEvent]
    and [rebuildSchedulesForUser], every row that was SENT is still in
    the table, under the same id and key, and is still SENT. *)
Theorem sent_is_never_reverted :
  forall (ops : list PlanningOp) (db : Db) (r : ScheduleRow),
    In r (notification_schedules db) ->
    ns_status r = SENT ->
    exists r',
      In r' (notification_schedules (runPlanningOps ops db))
      /\ ns_id r' = ns_id r /\ ns_dedupe_key r' = ns_dedupe_key r
      /\ ns_status r' = SENT.
Proof.
  assert (Hop : forall op db,
             keepsSent (notification_schedules db)
                       (notification_schedules (runPlanningOp db op))).
  { intros [now e | now u] db; simpl.
    - apply (planNotificationsForEvent_respects keepsSent keepsSent_refl
               keepsSent_trans purge_keepsSent upsert_keepsSent).
    - apply (rebuildSchedulesForUser_respects keepsSent keepsSent_refl
               keepsSent_trans purge_keepsSent upsert_keepsSent). }
  assert (Hops : forall ops db,
             keepsSent (notification_schedules db)
                       (notification_schedules (runPlanningOps ops db))).
  { induction ops as [|op ops IH]; intros db; simpl.
    - apply keepsSent_refl.
    - eapply keepsSent_trans; [apply Hop | apply IH]. }
  intros ops db r Hin Hs.
  destruct (Hops ops db r Hin Hs) as (r' & Hin' & E).
  exists r'. intuition.
Qed.

(** *** A small store for the examples *)

Module Sample.

Definition now : Z := 900000000.

Definition pickup (v : Visibility) : EventRow :=
  mkEvent 1 1 PICKUP (lit "Pickup") (lit "Rate up") (Some 1000000000)
          (Some 2000000000) (lit "https://example.test/1")
          (lit "1-pickup-pickup-000000000000") 1%float v 0 0.

Definition rules : list RuleRow :=
  [ mkRule 1 7 GLOBAL None PICKUP ON_START None WEBPUSH true;
    mkRule 2 7 REGION (Some 1) PICKUP BEFORE_END (Some 60) EMAIL true;
    mkRule 3 7 GLOBAL None PICKUP ON_PUBLISH None DISCORD true ].

Definition schedule (id : Z) (ch : Channel) (tr : Trigger) (off at_ : Z)
           (st : ScheduleStatus) : ScheduleRow :=
  mkSchedule id 7 1 ch tr off at_ st
             (mkPayload (lit "Pickup") PICKUP tr off ch)
             (makeDedupeKey 7 1 ch tr off) 0 0.

Definition sent : ScheduleRow := schedule 1 WEBPUSH ON_START 0 1000000000 SENT.
Definition processing : ScheduleRow :=
  schedule 2 EMAIL BEFORE_END 60 1990000000 PROCESSING.
Definition pending : ScheduleRow :=
  schedule 3 EMAIL ON_END 0 2000000000 PENDING.

Definition db (v : Visibility) (rows : list ScheduleRow) : Db :=
  mkDb [pickup v] 2 rules [mkUserGame 7 1 true] rows 4 [] 1 [] [] [] 1 [] [].

End Sample.

Lemma sent_is_never_reverted_witness :
  In Sample.sent (notification_schedules
                    (Sample.db PUBLIC [Sample.sent; Sample.processing]))
  /\ ns_status Sample.sent = SENT
  /\ exists r',
      In r' (notification_schedules
               (runPlanningOps [PlanEvent Sample.now 1; RebuildUser Sample.now 7]
                               (Sample.db PUBLIC [Sample.sent; Sample.processing])))
      /\ ns_id r' = ns_id Sample.sent
      /\ ns_dedupe_key r' = ns_dedupe_key Sample.sent
      /\ ns_status r' = SENT.
Proof.
  split; [simpl; auto|].
  split; [reflexivity|].
  apply (sent_is_never_reverted
           [PlanEvent Sample.now 1; RebuildUser Sample.now 7]
           (Sample.db PUBLIC [Sample.sent; Sample.processing]) Sample.sent).
  - simpl; auto.
  - reflexivity.
Defined.

(** *** Planning for an event that is not PUBLIC *)

(** The purge of [planNotificationsForEvent]. *)
Definition purgeEvent (db : Db) (eventId : Z) : Db :=
  set_schedules db
    (filter (fun r => negb ((ns_event_id r =? eventId) && purgeable (ns_status r)))
            (notification_schedules db))
    (notification_schedules_seq db).




(** *** Rules that are skipped *)

(** The date a trigger is computed from: the start of the event for
    ON_START and BEFORE_START, its end for ON_END and BEFORE_END, its
    creation time for ON_PUBLISH. *)
Definition basisDate (rule : RuleRow) (event : EventRow) : option Z :=
  match rule_trigger rule with
  | ON_START | BEFORE_START => ev_start_at_utc event
  | ON_END | BEFORE_END => ev_end_at_utc event
  | ON_PUBLISH => Some (ev_created_at event)
  end.

Lemma computeScheduledAt_basis now rule event :
  computeScheduledAt now rule event
  = match basisDate rule event with
    | None => None
    | Some b =>
        match rule_trigger rule with
        | BEFORE_END | BEFORE_START => Some (b - offsetOr0 rule * 60 * 1000)
        | _ => Some b
        end
    end.
Proof.
  unfold computeScheduledAt, basisDate.
  destruct (rule_trigger rule), (ev_start_at_utc event), (ev_end_at_utc event);
    reflexivity.
Qed.

(** The loop body on a rule whose basis date is null (BEFORE_END with no
    end date, for one), or whose computed time is more than 5 minutes
    before the current time: it counts the rule as skipped and leaves the
    store, and with it every schedule row, as it was. *)
Lemma planRule_skips_late_or_undated now event userId db planned skipped rule :
  basisDate rule event = None
  \/ (exists t, computeScheduledAt now rule event = Some t
                /\ t < now - 5 * 60 * 1000) ->
  planRule now event userId (db, planned, skipped) rule
  = (db, planned, skipped + 1).
Proof.
  intros [Hb | (t & Ht & Hlate)]; unfold planRule.
  - rewrite computeScheduledAt_basis, Hb. reflexivity.
  - rewrite Ht. apply Z.ltb_lt in Hlate. rewrite Hlate. reflexivity.
Qed.

(** A rule that is neither undated nor late is upserted and counted as
    planned. *)
Lemma timely_rule_is_planned now event userId db planned skipped rule t :
  computeScheduledAt now rule event = Some t ->
  now - 5 * 60 * 1000 <= t ->
  planRule now event userId (db, planned, skipped) rule
  = (upsertSchedule now db userId event rule t, planned + 1, skipped).
Proof.
  intros Ht Hle. unfold planRule. rewrite Ht.
  apply Z.ltb_ge in Hle. rewrite Hle. reflexivity.
Qed.

(** BEFORE_END on an event without an end date has no basis date. *)
Example before_end_without_end_date rule event :
  rule_trigger rule = BEFORE_END -> ev_end_at_utc event = None ->
  basisDate rule event = None.
Proof. unfold basisDate. intros -> ->. reflexivity. Qed.

(** *** What the upsert does to an existing row *)

(** C10.  The planning upsert keeps only SENT.  A row with the key of the
    upsert whose status is anything else, PROCESSING included, comes out
    PENDING with the new scheduled time and payload; the purge that
    precedes the upsert deletes neither PROCESSING nor SENT rows. *)
Theorem upsert_resets_all_but_sent :
  forall (now : Z) (db : Db) (userId : Z) (event : EventRow) (rule : RuleRow)
         (scheduledAt : Z) (r : ScheduleRow),
    In r (notification_schedules db) ->
    ns_dedupe_key r = keyOf userId event rule ->
    let r' := onConflictUpdate now scheduledAt (payloadOf event rule) r in
    In r' (notification_schedules
             (upsertSchedule now db userId event rule scheduledAt))
    /\ ns_id r' = ns_id r
    /\ ns_scheduled_at_utc r' = scheduledAt
    /\ ns_payload_json r' = payloadOf event rule
    /\ (ns_status r = SENT -> ns_status r' = SENT)
    /\ (ns_status r <> SENT -> ns_status r' = PENDING)
    /\ purgeable PROCESSING = false /\ purgeable SENT = false.
Proof.
  intros now db userId event rule scheduledAt r Hin Hkey r'.
  split.
  - rewrite upsert_rows.
    assert (Hex : existsb (fun x => str_eqb (ns_dedupe_key x) (keyOf userId event rule))
                          (notification_schedules db) = true).
    { apply existsb_exists. exists r. split; [exact Hin|].
      rewrite Hkey. apply str_eqb_refl. }
    rewrite Hex. apply in_map_iff. exists r. split; [|exact Hin].
    rewrite Hkey, str_eqb_refl. reflexivity.
  - unfold r'. simpl. repeat split; auto.
    + intros ->. reflexivity.
    + destruct (ns_status r); congruence.
Qed.

Lemma upsert_resets_all_but_sent_witness :
  In Sample.processing
     (notification_schedules (Sample.db PUBLIC [Sample.sent; Sample.processing]))
  /\ ns_dedupe_key Sample.processing
     = keyOf 7 (Sample.pickup PUBLIC)
             (mkRule 2 7 REGION (Some 1) PICKUP BEFORE_END (Some 60) EMAIL true)
  /\ ns_status (onConflictUpdate Sample.now 1996400000
                  (payloadOf (Sample.pickup PUBLIC)
                     (mkRule 2 7 REGION (Some 1) PICKUP BEFORE_END (Some 60)
                             EMAIL true))
                  Sample.processing) = PENDING.
Proof.
  split; [simpl; auto|].
  split; [reflexivity|].
  apply (upsert_resets_all_but_sent Sample.now
           (Sample.db PUBLIC [Sample.sent; Sample.processing]) 7
           (Sample.pickup PUBLIC)
           (mkRule 2 7 REGION (Some 1) PICKUP BEFORE_END (Some 60) EMAIL true)
           1996400000 Sample.processing).
  - simpl; auto.
  - reflexivity.
  - discriminate.
Defined.

(** Planning the sample event while a dispatcher holds one of its
    schedules: the PROCESSING row is PENDING again, the SENT row is not. *)
Example plan_resets_processing :
  map (fun r => (ns_id r, ns_status r, ns_scheduled_at_utc r))
      (notification_schedules
         (fst (planNotificationsForEvent Sample.now
                 (Sample.db PUBLIC [Sample.sent; Sample.processing]) 1)))
  = [(1, SENT, 1000000000); (2, PENDING, 1996400000)].
Proof. vm_compute. reflexivity. Qed.

(** *** Planning twice *)

Definition keysOf (db : Db) : list jsstring :=
  map ns_dedupe_key (notification_schedules db).

(** The rule shape of a schedule row. *)
Definition shapeOf (r : ScheduleRow) : Z * Z * Channel * Trigger * Z :=
  (ns_user_id r, ns_event_id r, ns_channel r, ns_trigger_type r,
   ns_trigger_offset_minutes r).

(** The key of a row is the key of its shape, as for every row that
    [upsertSchedule] inserts. *)
Definition keyed (r : ScheduleRow) : Prop :=
  ns_dedupe_key r
  = makeDedupeKey (ns_user_id r) (ns_event_id r) (ns_channel r)
                  (ns_trigger_type r) (ns_trigger_offset_minutes r).

(** The test of the loop body: the rule has a time and it is not more than
    5 minutes old. *)
Definition passes (now : Z) (rule : RuleRow) (event : EventRow) : bool :=
  match computeScheduledAt now rule event with
  | Some t => negb (t <? now - 5 * 60 * 1000)
  | None => false
  end.

Definition ruleKeys now event (userId : Z) (rules : list RuleRow) : list jsstring :=
  map (keyOf userId event) (filter (fun rule => passes now rule event) rules).

Definition entriesKeys now event (entries : list (Z * list RuleRow))
  : list jsstring :=
  flat_map (fun entry => ruleKeys now event (fst entry) (snd entry)) entries.

Definition groupedRules (db : Db) (event : EventRow) (uid : option Z)
  : list (Z * list RuleRow) :=
  fold_left
    (fun m userId => Map_set m userId (getEligibleRulesForEvent db event (Some userId)))
    (getTargetUsersForRegion db (ev_region_id event) uid) [].

(** The keys that one call of [planForEventAndUsers] upserts. *)
Definition planKeys now (db : Db) (event : EventRow) (uid : option Z)
  : list jsstring :=
  if negb (visibility_is_public (ev_visibility event)) then []
  else entriesKeys now event (groupedRules db event uid).

(** [rows'] comes from [rows] by upserts on the keys [K]: a row of [rows']
    is a row of [rows] or has a key of [K]; no key is lost; every key of
    [K] is there. *)
Definition touches (K : list jsstring) (rows rows' : list ScheduleRow) : Prop :=
  (forall r', In r' rows' -> In r' rows \/ In (ns_dedupe_key r') K)
  /\ (forall r, In r rows -> In (ns_dedupe_key r) (map ns_dedupe_key rows'))
  /\ (forall k, In k K -> In k (map ns_dedupe_key rows')).

Lemma touches_refl rows : touches [] rows rows.
Proof.
  repeat split; auto.
  - intros r Hin. apply in_map. exact Hin.
  - intros k [].
Qed.

Lemma touches_trans K1 K2 a b c :
  touches K1 a b -> touches K2 b c -> touches (K1 ++ K2) a c.
Proof.
  intros (A1 & A2 & A3) (B1 & B2 & B3). repeat split.
  - intros r Hin. destruct (B1 r Hin) as [H | H].
    + destruct (A1 r H) as [H' | H']; [left; exact H' | right].
      apply in_or_app; auto.
    + right. apply in_or_app; auto.
  - intros r Hin. apply A2 in Hin. apply in_map_iff in Hin.
    destruct Hin as (r1 & <- & Hin1). apply B2. exact Hin1.
  - intros k Hin. apply in_app_or in Hin. destruct Hin as [H | H].
    + apply A3 in H. apply in_map_iff in H.
      destruct H as (r1 & <- & Hin1). apply B2. exact Hin1.
    + apply B3. exact H.
Qed.

Lemma onConflictUpdate_key now t pay r :
  ns_dedupe_key (onConflictUpdate now t pay r) = ns_dedupe_key r.
Proof. reflexivity. Qed.

Lemma upsert_keys_hit now db u ev rule t :
  existsb (fun r => str_eqb (ns_dedupe_key r) (keyOf u ev rule))
          (notification_schedules db) = true ->
  keysOf (upsertSchedule now db u ev rule t) = keysOf db.
Proof.
  intros H. unfold keysOf. rewrite upsert_rows, H, map_map.
  apply map_ext. intros r. destruct (str_eqb _ _); reflexivity.
Qed.

Lemma upsert_keys_miss now db u ev rule t :
  existsb (fun r => str_eqb (ns_dedupe_key r) (keyOf u ev rule))
          (notification_schedules db) = false ->
  keysOf (upsertSchedule now db u ev rule t) = keysOf db ++ [keyOf u ev rule].
Proof.
  intros H. unfold keysOf. rewrite upsert_rows, H, map_app. reflexivity.
Qed.

Lemma existsb_key_in k rows :
  existsb (fun r => str_eqb (ns_dedupe_key r) k) rows = true
  <-> In k (map ns_dedupe_key rows).
Proof.
  rewrite existsb_exists, in_map_iff. split.
  - intros (r & Hin & E). apply str_eqb_eq in E. eauto.
  - intros (r & E & Hin). exists r. split; [exact Hin|].
    apply str_eqb_eq. exact E.
Qed.

Lemma upsert_touches now db u ev rule t :
  touches [keyOf u ev rule] (notification_schedules db)
          (notification_schedules (upsertSchedule now db u ev rule t)).
Proof.
  destruct (existsb (fun r => str_eqb (ns_dedupe_key r) (keyOf u ev rule))
                    (notification_schedules db)) eqn:E.
  - pose proof (upsert_keys_hit now db u ev rule t E) as Hk. unfold keysOf in Hk.
    repeat split.
    + intros r'. rewrite upsert_rows, E, in_map_iff.
      intros (r & <- & Hin).
      destruct (str_eqb (ns_dedupe_key r) (keyOf u ev rule)) eqn:Er; [|auto].
      right. rewrite onConflictUpdate_key. apply str_eqb_eq in Er.
      rewrite Er. simpl; auto.
    + intros r Hin. rewrite Hk. apply in_map. exact Hin.
    + intros k [<- | []]. rewrite Hk. apply existsb_key_in. exact E.
  - pose proof (upsert_keys_miss now db u ev rule t E) as Hk. unfold keysOf in Hk.
    repeat split.
    + intros r'. rewrite upsert_rows, E. intros Hin.
      apply in_app_or in Hin. destruct Hin as [H | [<- | []]]; [auto|].
      right. simpl; auto.
    + intros r Hin. rewrite Hk. apply in_or_app. left. apply in_map. exact Hin.
    + intros k [<- | []]. rewrite Hk. apply in_or_app. right. simpl; auto.
Qed.

Lemma planRule_passes now ev u db p s rule :
  passes now rule ev = true ->
  exists t, planRule now ev u (db, p, s) rule
            = (upsertSchedule now db u ev rule t, p + 1, s).
Proof.
  unfold passes, planRule.
  destruct (computeScheduledAt now rule ev) as [t|]; [|discriminate].
  destruct (t <? now - 5 * 60 * 1000); [discriminate|]. eauto.
Qed.

Lemma planRule_fails now ev u db p s rule :
  passes now rule ev = false ->
  planRule now ev u (db, p, s) rule = (db, p, s + 1).
Proof.
  unfold passes, planRule.
  destruct (computeScheduledAt now rule ev) as [t|]; [|reflexivity].
  destruct (t <? now - 5 * 60 * 1000); [reflexivity|discriminate].
Qed.

Lemma planRules_touches now ev u rules :
  forall st,
    touches (ruleKeys now ev u rules)
            (notification_schedules (fst (fst st)))
            (notification_schedules
               (fst (fst (fold_left (planRule now ev u) rules st)))).
Proof.
  induction rules as [|rule rules IH]; intros [[db p] s]; cbn [fold_left fst].
  - apply touches_refl.
  - unfold ruleKeys. cbn [filter].
    destruct (passes now rule ev) eqn:Hp.
    + destruct (planRule_passes now ev u db p s rule Hp) as (t & ->).
      change (touches ([keyOf u ev rule] ++ ruleKeys now ev u rules)
                (notification_schedules db)
                (notification_schedules
                   (fst (fst (fold_left (planRule now ev u) rules
                                (upsertSchedule now db u ev rule t, p + 1, s)))))).
      eapply touches_trans; [apply upsert_touches|].
      apply (IH (upsertSchedule now db u ev rule t, p + 1, s)).
    + rewrite (planRule_fails now ev u db p s rule Hp).
      apply (IH (db, p, s + 1)).
Qed.

Lemma planEntries_touches now ev (entries : list (Z * list RuleRow)) :
  forall st,
    touches (entriesKeys now ev entries)
            (notification_schedules (fst (fst st)))
            (notification_schedules
               (fst (fst (fold_left
                            (fun st entry =>
                               fold_left (planRule now ev (fst entry)) (snd entry) st)
                            entries st)))).
Proof.
  induction entries as [|[u rules] entries IH]; intros st; simpl fold_left.
  - apply touches_refl.
  - simpl entriesKeys. eapply touches_trans; [|apply IH].
    apply planRules_touches.
Qed.

Lemma planForEventAndUsers_touches now db ev uid :
  touches (planKeys now db ev uid)
          (notification_schedules db)
          (notification_schedules (fst (fst (planForEventAndUsers now db ev uid)))).
Proof.
  unfold planForEventAndUsers, planKeys, groupedRules.
  destruct (negb _); [apply touches_refl|].
  destruct (getTargetUsersForRegion db (ev_region_id ev) uid) eqn:E.
  - apply touches_refl.
  - apply (planEntries_touches now ev _ (db, 0, 0)).
Qed.

(** The UNIQUE constraint on [dedupe_key] survives the purge and the
    upsert. *)
Definition keepsUnique (rows rows' : list ScheduleRow) : Prop :=
  NoDup (map ns_dedupe_key rows) -> NoDup (map ns_dedupe_key rows').

Lemma NoDup_map_filter {A B} (f : A -> B) (g : A -> bool) l :
  NoDup (map f l) -> NoDup (map f (filter g l)).
Proof.
  induction l as [|a l IH]; simpl; intros H; [constructor|].
  inversion H as [|x xs Hnin Hnd]; subst.
  destruct (g a); simpl; [constructor|]; auto.
  intros Hin. apply Hnin. apply in_map_iff in Hin.
  destruct Hin as (b & E & Hb). apply filter_In in Hb.
  apply in_map_iff. exists b. tauto.
Qed.

Lemma upsert_keepsUnique now db u ev rule t :
  keepsUnique (notification_schedules db)
              (notification_schedules (upsertSchedule now db u ev rule t)).
Proof.
  intros Hnd.
  destruct (existsb (fun r => str_eqb (ns_dedupe_key r) (keyOf u ev rule))
                    (notification_schedules db)) eqn:E.
  - pose proof (upsert_keys_hit now db u ev rule t E) as Hk.
    unfold keysOf in Hk. rewrite Hk. exact Hnd.
  - pose proof (upsert_keys_miss now db u ev rule t E) as Hk.
    unfold keysOf in Hk. rewrite Hk.
    apply NoDup_app; [exact Hnd | repeat constructor; simpl; tauto |].
    intros k Hin [<- | []].
    apply existsb_key_in in Hin. congruence.
Qed.

Definition keepsKeyed (rows rows' : list ScheduleRow) : Prop :=
  Forall keyed rows -> Forall keyed rows'.

Lemma upsert_keepsKeyed now db u ev rule t :
  keepsKeyed (notification_schedules db)
             (notification_schedules (upsertSchedule now db u ev rule t)).
Proof.
  intros H. rewrite upsert_rows. destruct (existsb _ _).
  - apply Forall_forall. intros r' Hin. apply in_map_iff in Hin.
    destruct Hin as (r & <- & Hin).
    rewrite Forall_forall in H. specialize (H r Hin).
    destruct (str_eqb _ _); [|exact H]. exact H.
  - apply Forall_app. split; [exact H|]. constructor; [|constructor].
    reflexivity.
Qed.

Lemma plan_keepsUnique now db eventId :
  NoDup (keysOf db) -> NoDup (keysOf (fst (planNotificationsForEvent now db eventId))).
Proof.
  apply (planNotificationsForEvent_respects keepsUnique).
  - intros rows H; exact H.
  - intros a b c H1 H2 H; auto.
  - intros keep rows _ H. apply NoDup_map_filter. exact H.
  - apply upsert_keepsUnique.
Qed.

Lemma plan_keepsKeyed now db eventId :
  Forall keyed (notification_schedules db) ->
  Forall keyed (notification_schedules (fst (planNotificationsForEvent now db eventId))).
Proof.
  apply (planNotificationsForEvent_respects keepsKeyed).
  - intros rows H; exact H.
  - intros a b c H1 H2 H; auto.
  - intros keep rows _ H. rewrite Forall_forall in *. intros r Hin.
    apply filter_In in Hin. apply H. tauto.
  - apply upsert_keepsKeyed.
Qed.

Lemma plan_sameOtherTables now db eventId :
  sameOtherTables db (fst (planNotificationsForEvent now db eventId)).
Proof.
  apply (planNotificationsForEvent_respects (fun _ _ => True)); auto.
Qed.

(** The keys of a plan depend on the subscriptions and on the rules only. *)
Lemma groupedRules_same db db' ev uid :
  sameOtherTables db db' -> groupedRules db ev uid = groupedRules db' ev uid.
Proof.
  intros (_ & _ & Hr & Hg & _).
  unfold groupedRules, getTargetUsersForRegion, getEligibleRulesForEvent.
  rewrite Hr, Hg. reflexivity.
Qed.

Lemma planKeys_same now db db' ev uid :
  sameOtherTables db db' -> planKeys now db ev uid = planKeys now db' ev uid.
Proof.
  intros H. unfold planKeys. rewrite (groupedRules_same db db' ev uid H).
  reflexivity.
Qed.

Lemma Map_set_In {V} (m : list (Z * V)) k v e :
  In e (Map_set m k v) -> e = (k, v) \/ In e m.
Proof.
  induction m as [|[k' v'] m IH]; simpl.
  - intros [<- | []]. auto.
  - destruct (k' =? k); simpl; intros [<- | H]; auto.
    apply IH in H. tauto.
Qed.

Lemma groupedRules_In db ev uid u rules :
  In (u, rules) (groupedRules db ev uid) ->
  forall rule, In rule rules -> In rule (notification_rules db).
Proof.
  unfold groupedRules.
  generalize (getTargetUsersForRegion db (ev_region_id ev) uid) as us.
  assert (H : forall us m,
             (forall e, In e m -> forall rule, In rule (snd e) ->
                                               In rule (notification_rules db)) ->
             forall e, In e (fold_left
                               (fun m userId =>
                                  Map_set m userId
                                    (getEligibleRulesForEvent db ev (Some userId)))
                               us m) ->
                       forall rule, In rule (snd e) -> In rule (notification_rules db)).
  { induction us as [|x us IH]; intros m Hm e; simpl; [apply Hm|].
    apply IH. intros e' Hin rule Hr.
    apply Map_set_In in Hin. destruct Hin as [-> | Hin].
    - simpl in Hr. unfold getEligibleRulesForEvent in Hr.
      apply filter_In in Hr. tauto.
    - eapply Hm; eassumption. }
  intros us Hin rule Hr.
  apply (H us [] ltac:(intros e []) (u, rules) Hin rule Hr).
Qed.

(** Two calls in succession: no rule of the store crosses the 5 minute
    limit between the first call and the second. *)
Definition inSuccession (now1 now2 : Z) (db : Db) (event : EventRow) : Prop :=
  forall rule, In rule (notification_rules db) ->
               passes now1 rule event = passes now2 rule event.

Lemma planKeys_inSuccession now1 now2 db ev uid :
  inSuccession now1 now2 db ev ->
  planKeys now1 db ev uid = planKeys now2 db ev uid.
Proof.
  intros Hs. unfold planKeys. destruct (negb _); [reflexivity|].
  pose proof (groupedRules_In db ev uid) as Hin.
  induction (groupedRules db ev uid) as [|[u rules] entries IH]; [reflexivity|].
  simpl. f_equal.
  - unfold ruleKeys. f_equal. apply filter_ext_in. intros rule Hr.
    apply Hs. apply (Hin u rules); simpl; auto.
  - apply IH. intros u' rules' H. apply (Hin u' rules'). simpl; auto.
Qed.

Lemma NoDup_map_inj_on {A B} (f : A -> B) l a b :
  NoDup (map f l) -> In a l -> In b l -> f a = f b -> a = b.
Proof.
  induction l as [|x l IH]; simpl; [tauto|].
  intros H. inversion H as [|y ys Hnin Hnd]; subst.
  intros [-> | Ha] [-> | Hb] E; auto.
  - exfalso. apply Hnin. rewrite E. apply in_map. exact Hb.
  - exfalso. apply Hnin. rewrite <- E. apply in_map. exact Ha.
Qed.

Lemma plan_touches now db eventId ev :
  getEvent db eventId = Some ev ->
  touches (planKeys now db ev None)
          (notification_schedules (purgeEvent db eventId))
          (notification_schedules (fst (planNotificationsForEvent now db eventId))).
Proof.
  intros Hev. unfold planNotificationsForEvent. rewrite Hev.
  fold (purgeEvent db eventId).
  rewrite (planKeys_same now db (purgeEvent db eventId) ev None
             (sameOtherTables_set _ _ _)).
  pose proof (planForEventAndUsers_touches now (purgeEvent db eventId) ev None) as H.
  destruct (planForEventAndUsers now (purgeEvent db eventId) ev None) as [[d p] s].
  exact H.
Qed.

(** C5, as stated, fails: each call reads the clock.  The event starts
    exactly 5 minutes before the first call, so its ON_START rule is
    planned; one millisecond later the rule is late, and the second call
    deletes the PENDING row of the first and does not write it again. *)
Lemma planning_twice_counterexample :
  let db := Sample.db PUBLIC [] in
  let now1 := 1000300000 in
  let db1 := fst (planNotificationsForEvent now1 db 1) in
  let db2 := fst (planNotificationsForEvent (now1 + 1) db1 1) in
  getEvent db 1 = Some (Sample.pickup PUBLIC)
  /\ ev_start_at_utc (Sample.pickup PUBLIC) = Some (now1 - 5 * 60 * 1000)
  /\ sameOtherTables db db1
  /\ keysOf db1 = [lit "7:1:WEBPUSH:ON_START:0"; lit "7:1:EMAIL:BEFORE_END:60"]
  /\ keysOf db2 = [lit "7:1:EMAIL:BEFORE_END:60"].
Proof. vm_compute. repeat split. Qed.

(** C5, amended.  Planning the same PUBLIC event twice, on the same rules,
    subscriptions and event data, when no rule passes the limit of 5
    minutes before the clock between the two calls (as when both read the
    same time), leaves the same dedupe keys after the second call as
    after the first, each key once, and no two rows of one (userId,
    eventId, channel, trigger, offset). *)
Theorem planning_twice_gives_same_keys :
  forall (now1 now2 : Z) (db : Db) (eventId : Z) (event : EventRow),
    getEvent db eventId = Some event ->
    ev_visibility event = PUBLIC ->
    NoDup (keysOf db) ->
    Forall keyed (notification_schedules db) ->
    inSuccession now1 now2 db event ->
    let db1 := fst (planNotificationsForEvent now1 db eventId) in
    let db2 := fst (planNotificationsForEvent now2 db1 eventId) in
    (forall k, In k (keysOf db2) <-> In k (keysOf db1))
    /\ NoDup (keysOf db1) /\ NoDup (keysOf db2)
    /\ Permutation (keysOf db1) (keysOf db2)
    /\ (forall r r', In r (notification_schedules db2) ->
                     In r' (notification_schedules db2) ->
                     shapeOf r = shapeOf r' -> r = r').
Proof.
  intros now1 now2 db eventId event Hev _ Hnd Hkeyed Hsucc db1 db2.
  pose proof (plan_sameOtherTables now1 db eventId) as Hsame. fold db1 in Hsame.
  assert (Hev1 : getEvent db1 eventId = Some event).
  { unfold getEvent in *. destruct Hsame as (<- & _). exact Hev. }
  pose proof (plan_touches now1 db eventId event Hev) as T1. fold db1 in T1.
  pose proof (plan_touches now2 db1 eventId event Hev1) as T2. fold db2 in T2.
  rewrite <- (planKeys_same now2 db db1 event None Hsame) in T2.
  rewrite <- (planKeys_inSuccession now1 now2 db event None Hsucc) in T2.
  set (K := planKeys now1 db event None) in *.
  destruct T1 as (A1 & A2 & A3). destruct T2 as (B1 & B2 & B3).
  assert (Hnd1 : NoDup (keysOf db1)) by (apply plan_keepsUnique; exact Hnd).
  assert (Hnd2 : NoDup (keysOf db2)) by (apply plan_keepsUnique; exact Hnd1).
  assert (Hiff : forall k, In k (keysOf db2) <-> In k (keysOf db1)).
  { intros k. unfold keysOf. split; intros Hin.
    - apply in_map_iff in Hin. destruct Hin as (r & <- & Hin).
      destruct (B1 r Hin) as [H | H].
      + unfold purgeEvent in H. simpl in H. apply filter_In in H.
        apply in_map. tauto.
      + apply A3. exact H.
    - apply in_map_iff in Hin. destruct Hin as (r & <- & Hin).
      destruct (A1 r Hin) as [H | H].
      + apply B2. unfold purgeEvent in *. simpl in *.
        apply filter_In in H. apply filter_In. tauto.
      + apply B3. exact H. }
  split; [exact Hiff|]. split; [exact Hnd1|]. split; [exact Hnd2|].
  split.
  - apply NoDup_Permutation; auto. intros k. symmetry. apply Hiff.
  - intros r r' Hr Hr' Hshape.
    assert (Hk2 : Forall keyed (notification_schedules db2)).
    { apply plan_keepsKeyed. apply plan_keepsKeyed. exact Hkeyed. }
    rewrite Forall_forall in Hk2.
    apply (NoDup_map_inj_on ns_dedupe_key (notification_schedules db2)); auto.
    rewrite (Hk2 r Hr), (Hk2 r' Hr').
    unfold shapeOf in Hshape. inversion Hshape. congruence.
Qed.

Lemma planning_twice_gives_same_keys_witness :
  let db := Sample.db PUBLIC [Sample.sent; Sample.processing] in
  let db1 := fst (planNotificationsForEvent Sample.now db 1) in
  let db2 := fst (planNotificationsForEvent (Sample.now + 1000) db1 1) in
  getEvent db 1 = Some (Sample.pickup PUBLIC)
  /\ NoDup (keysOf db)
  /\ Forall keyed (notification_schedules db)
  /\ inSuccession Sample.now (Sample.now + 1000) db (Sample.pickup PUBLIC)
  /\ Permutation (keysOf db1) (keysOf db2).
Proof.
  intros db db1 db2.
  assert (Hev : getEvent db 1 = Some (Sample.pickup PUBLIC)) by reflexivity.
  assert (Hnd : NoDup (keysOf db)).
  { vm_compute. repeat constructor; simpl; intuition discriminate. }
  assert (Hk : Forall keyed (notification_schedules db)).
  { repeat constructor. }
  assert (Hs : inSuccession Sample.now (Sample.now + 1000) db
                            (Sample.pickup PUBLIC)).
  { intros rule [<- | [<- | [<- | []]]]; vm_compute; reflexivity. }
  split; [exact Hev|]. split; [exact Hnd|]. split; [exact Hk|].
  split; [exact Hs|].
  apply (planning_twice_gives_same_keys Sample.now (Sample.now + 1000) db 1
           (Sample.pickup PUBLIC) Hev eq_refl Hnd Hk Hs).
Defined.

(** The two calls on the sample store: the second call deletes the
    PENDING rows of the first and inserts them again under new ids. *)
Example plan_twice_rows :
  let db1 := fst (planNotificationsForEvent Sample.now
                    (Sample.db PUBLIC [Sample.sent]) 1) in
  let db2 := fst (planNotificationsForEvent (Sample.now + 1000) db1 1) in
  map (fun r => (ns_id r, ns_status r)) (notification_schedules db1)
  = [(1, SENT); (5, PENDING)]
  /\ map (fun r => (ns_id r, ns_status r)) (notification_schedules db2)
     = [(1, SENT); (7, PENDING)]
  /\ keysOf db1 = keysOf db2.
Proof. vm_compute. auto. Qed.

End SchedulingProps.

(* ================================================================== *)
(** ** Properties of the raw notice store *)

Module IngestProps.
Import JS Store Ingest IngestStore.
Local Open Scope Z_scope.

(** The text whose hash identifies the content of a candidate. *)
Definition contentOf (candidate : RawCandidate) : jsstring :=
  normalizeText (c_title candidate ++ [LF] ++ c_contentText candidate).

(** [r'] is [r] in every column but [title], [published_at] and
    [fetched_at]. *)
Definition sameButRefreshed (r r' : RawNoticeRow) : Prop :=
  rn_id r' = rn_id r /\ rn_source_id r' = rn_source_id r
  /\ rn_url r' = rn_url r /\ rn_content_text r' = rn_content_text r
  /\ rn_content_hash r' = rn_content_hash r
  /\ rn_raw_payload r' = rn_raw_payload r
  /\ rn_parser_version r' = rn_parser_version r
  /\ rn_status r' = rn_status r.

(** Stand-ins for the two library functions in the examples, which hold
    whatever the hash function is. *)
Module Example.

Definition hash (s : jsstring) : jsstring := s.

Definition timestamptz (text : jsstring) : option Z :=
  if str_eqb text (lit "2026-03-02T00:00:00.000Z") then Some 1772409600000
  else None.

Definition candidate : RawCandidate :=
  mkCandidate (lit "https://example.test/notice/1") (lit "Pickup notice")
              (Some (lit "2026-03-02T00:00:00.000Z"))
              (lit "Rate up for the new unit")
              (RssPayload None []).

(** The stored notice: same content, published a day earlier. *)
Definition stored : RawNoticeRow :=
  mkRawNotice 1 5 (lit "https://example.test/notice/1") (lit "Pickup notice")
              (Some 1772323200000) 1772323200000
              (Some (lit "Rate up for the new unit"))
              (Some (hash (contentOf candidate)))
              (Some (RssPayload None [])) (lit "v1") PARSED.

Definition db : Db :=
  mkDb [] 1 [] [] [] 1 [] 1 [] [] [stored] 2 [] [].

Definition source : SourceRow := mkSource 5 1 true (lit "Asia/Seoul").

Definition now : Z := 1772500000000.

End Example.

(** C8, as stated, fails: with an equal hash the refresh also overwrites
    [published_at] when the candidate carries a publication time. *)
Lemma unchanged_notice_counterexample :
  find (sameNotice 5 (c_url Example.candidate)) (raw_notices Example.db)
  = Some Example.stored
  /\ rn_content_hash Example.stored
     = Some (Example.hash (contentOf Example.candidate))
  /\ snd (upsertRawNotice Example.hash Example.timestamptz Example.now
            Example.db 5 Example.candidate)
     = Returned (mkUpsertRaw 1 false)
  /\ map rn_published_at
         (raw_notices (fst (upsertRawNotice Example.hash Example.timestamptz
                              Example.now Example.db 5 Example.candidate)))
     = [Some 1772409600000]
  /\ rn_published_at Example.stored = Some 1772323200000.
Proof. vm_compute. repeat split. Qed.

(** [r'] is [r] in every column but [status], which is ERROR. *)
Definition sameButError (r r' : RawNoticeRow) : Prop :=
  rn_id r' = rn_id r /\ rn_source_id r' = rn_source_id r
  /\ rn_url r' = rn_url r /\ rn_title r' = rn_title r
  /\ rn_published_at r' = rn_published_at r
  /\ rn_fetched_at r' = rn_fetched_at r
  /\ rn_content_text r' = rn_content_text r
  /\ rn_content_hash r' = rn_content_hash r
  /\ rn_raw_payload r' = rn_raw_payload r
  /\ rn_parser_version r' = rn_parser_version r
  /\ rn_status r' = ERROR.

(** C8, amended.  When the content hash of a fetched candidate equals the
    stored hash for the same (sourceId, url), the loop body performs no
    re-parse, no event upsert and no re-planning for the candidate, and:

    - when the candidate has no publication time or one that the store
      accepts, [upsertRawNotice] refreshes [fetched_at] and [title] of
      the row and, when the candidate has a publication time,
      [published_at]; every other column and every other row is
      unchanged; it reports [changed = false], and no counter moves;
    - when the store rejects the publication time of the candidate,
      [upsertRawNotice] throws and changes nothing; the loop body then
      marks the row ERROR, every other column and row unchanged, writes
      the error to the source, and counts one error. *)
Theorem unchanged_notice_is_only_refreshed :
  forall (sha256 toLowerCase : jsstring -> jsstring)
         (timestamptz_in : jsstring -> option Z)
         (now : Z) (db : Db) (source : SourceRow) (candidate : RawCandidate)
         (row : RawNoticeRow) (counts : FetchCounts),
    find (sameNotice (source_id source) (c_url candidate)) (raw_notices db)
    = Some row ->
    rn_content_hash row = Some (sha256 (contentOf candidate)) ->
    let same := sameNotice (source_id source) (c_url candidate) in
    let out := processCandidate sha256 toLowerCase timestamptz_in now source
                                (db, counts) candidate in
    let db' := fst out in
    events db' = events db
    /\ event_raw_links db' = event_raw_links db
    /\ notification_schedules db' = notification_schedules db
    /\ match castTimestamptz timestamptz_in (c_publishedAt candidate) with
       | Some publishedAt =>
           upsertRawNotice sha256 timestamptz_in now db (source_id source)
                           candidate
           = (db', Returned (mkUpsertRaw (rn_id row) false))
           /\ db' = set_raw_notices db
                      (map (fun r => if same r
                                     then refreshRow now (c_title candidate)
                                                     publishedAt r
                                     else r) (raw_notices db))
                      (raw_notices_seq db)
           /\ snd out = counts
           /\ Forall2 (fun r r' =>
                         sameButRefreshed r r'
                         /\ (same r = false -> r' = r)
                         /\ (same r = true ->
                             rn_fetched_at r' = now
                             /\ rn_title r' = c_title candidate
                             /\ rn_published_at r'
                                = match publishedAt with
                                  | Some p => Some p
                                  | None => rn_published_at r
                                  end))
                      (raw_notices db) (raw_notices db')
       | None =>
           upsertRawNotice sha256 timestamptz_in now db (source_id source)
                           candidate
           = (db, Thrown invalidTimestamp)
           /\ db' = markCandidateError now db source candidate invalidTimestamp
           /\ snd out = mkCounts (parsedCount counts) (errorCount counts + 1)
           /\ Forall2 (fun r r' =>
                         (same r = false -> r' = r)
                         /\ (same r = true -> sameButError r r'))
                      (raw_notices db) (raw_notices db')
       end.
Proof.
  intros sha256 lower tsin now db source candidate row counts
         Hfind Hhash same out db'.
  destruct (castTimestamptz tsin (c_publishedAt candidate)) as [publishedAt|]
    eqn:Hcast.
  - assert (Hup : upsertRawNotice sha256 tsin now db (source_id source) candidate
                  = (set_raw_notices db
                       (map (fun r => if same r
                                      then refreshRow now (c_title candidate)
                                                      publishedAt r
                                      else r) (raw_notices db))
                       (raw_notices_seq db),
                     Returned (mkUpsertRaw (rn_id row) false))).
    { unfold upsertRawNotice. fold (contentOf candidate).
      rewrite Hfind, Hcast, Hhash. simpl opt_str_eqb.
      rewrite JSProps.str_eqb_refl. reflexivity. }
    assert (Hout : out = (set_raw_notices db
                            (map (fun r => if same r
                                           then refreshRow now (c_title candidate)
                                                           publishedAt r
                                           else r) (raw_notices db))
                            (raw_notices_seq db), counts)).
    { unfold out, processCandidate. rewrite Hup. reflexivity. }
    unfold db'. rewrite Hout. cbn [fst snd].
    split; [reflexivity|]. split; [reflexivity|]. split; [reflexivity|].
    split; [exact Hup|]. split; [reflexivity|]. split; [reflexivity|].
    cbn [raw_notices set_raw_notices].
    generalize (raw_notices db) as rows.
    induction rows as [|r rows IH]; simpl; constructor; [|exact IH].
    destruct (same r); simpl.
    + unfold sameButRefreshed. simpl. intuition congruence.
    + unfold sameButRefreshed. intuition congruence.
  - assert (Hup : upsertRawNotice sha256 tsin now db (source_id source) candidate
                  = (db, Thrown invalidTimestamp)).
    { unfold upsertRawNotice. rewrite Hcast. reflexivity. }
    assert (Hout : out = (markCandidateError now db source candidate
                                             invalidTimestamp,
                          mkCounts (parsedCount counts) (errorCount counts + 1))).
    { unfold out, processCandidate. rewrite Hup. reflexivity. }
    unfold db'. rewrite Hout. cbn [fst snd].
    split; [reflexivity|]. split; [reflexivity|]. split; [reflexivity|].
    split; [exact Hup|]. split; [reflexivity|]. split; [reflexivity|].
    unfold markCandidateError. cbn [raw_notices set_raw_notices set_sources].
    fold same.
    generalize (raw_notices db) as rows.
    induction rows as [|r rows IH]; simpl; constructor; [|exact IH].
    destruct (same r); simpl.
    + unfold sameButError. simpl. intuition congruence.
    + intuition congruence.
Qed.

(** The candidate of the example with a publication time that the store
    rejects. *)
Definition misdated : RawCandidate :=
  mkCandidate (c_url Example.candidate) (c_title Example.candidate)
              (Some (lit "not a date")) (c_contentText Example.candidate)
              (c_rawPayload Example.candidate).

Lemma unchanged_notice_is_only_refreshed_witness :
  find (sameNotice 5 (c_url Example.candidate)) (raw_notices Example.db)
  = Some Example.stored
  /\ castTimestamptz Example.timestamptz (c_publishedAt Example.candidate)
     = Some (Some 1772409600000)
  /\ castTimestamptz Example.timestamptz (c_publishedAt misdated) = None
  /\ snd (processCandidate Example.hash toLowerCaseBasicLatin Example.timestamptz
            Example.now Example.source (Example.db, mkCounts 0 0)
            Example.candidate)
     = mkCounts 0 0
  /\ map rn_status
         (raw_notices
            (fst (processCandidate Example.hash toLowerCaseBasicLatin
                    Example.timestamptz Example.now Example.source
                    (Example.db, mkCounts 0 0) misdated)))
     = [ERROR]
  /\ snd (processCandidate Example.hash toLowerCaseBasicLatin Example.timestamptz
            Example.now Example.source (Example.db, mkCounts 0 0) misdated)
     = mkCounts 0 1.
Proof.
  pose proof (unchanged_notice_is_only_refreshed Example.hash
                toLowerCaseBasicLatin Example.timestamptz Example.now Example.db
                Example.source Example.candidate Example.stored (mkCounts 0 0)
                eq_refl eq_refl) as Haccepted.
  pose proof (unchanged_notice_is_only_refreshed Example.hash
                toLowerCaseBasicLatin Example.timestamptz Example.now Example.db
                Example.source misdated Example.stored (mkCounts 0 0)
                eq_refl eq_refl) as Hrejected.
  cbv zeta in Haccepted, Hrejected.
  split; [reflexivity|]. split; [reflexivity|]. split; [reflexivity|].
  split; [apply Haccepted|]. split; [reflexivity|]. apply Hrejected.
Defined.

(** A candidate whose content changed is parsed again: the loop body
    upserts the event and plans its notifications. *)
Example changed_notice_is_parsed :
  let changed :=
    mkCandidate (lit "https://example.test/notice/1") (lit "Pickup notice")
                None (lit "Rate up 2026/03/01 10:00 ~ 2026/03/08 11:30")
                (RssPayload None []) in
  let out :=
    processCandidate Example.hash toLowerCaseBasicLatin
      (fun _ => Some 1772326800000) Example.now Example.source
      (Example.db, mkCounts 0 0) changed in
  snd out = mkCounts 1 0
  /\ map (fun e => (ev_id e, ev_type e, ev_visibility e)) (events (fst out))
     = [(1, PICKUP, PUBLIC)]
  /\ map rn_status (raw_notices (fst out)) = [PARSED]
  /\ event_raw_links (fst out) = [mkLink 1 1].
Proof. vm_compute. repeat split. Qed.

End IngestProps.

(* ================================================================== *)
(** ** Properties of the dispatcher *)

Module DispatchProps.
Import JS Store Dispatch.
Local Open Scope Z_scope.

(** One due EMAIL schedule of a user who has an email address. *)
Module Example.

Definition due : ScheduleRow :=
  mkSchedule 1 7 1 EMAIL ON_START 0 1000 PENDING
             (mkPayload (lit "Pickup") PICKUP ON_START 0 EMAIL)
             (Scheduling.makeDedupeKey 7 1 EMAIL ON_START 0) 0 0.

Definition db : Db :=
  mkDb [] 1 [] [] [due] 2 [] 1 [] [mkUser 7 (Some (lit "user@example.test"))]
       [] 1 [] [].

Definition now : Z := 2000.

(** The claim, the email lookup and the insert into the delivery log
    succeed; the update of the schedule status that follows throws. *)
Definition statusUpdateFails : Faults := [false; false; false; true].

End Example.

(** C6 at the failing input.  The status update of the first
    [markScheduleResult] throws after its delivery row is written; the
    [catch] calls [markScheduleResult] again, which writes a second
    delivery row.  The call returns, with two delivery rows for the one
    claimed schedule: SUCCESS, then FAILED. *)
Theorem dispatch_logs_twice_when_status_update_fails :
  let out := dispatchDueNotifications Example.now 100
               (mkWorld Example.db Example.statusUpdateFails) in
  snd out = Returned (mkDispatchResult 1 0 1)
  /\ map (fun d => (nd_schedule_id d, nd_result d))
         (notification_deliveries (w_db (fst out)))
     = [(1, SUCCESS); (1, DELIVERY_FAILED)]
  /\ map (fun r => (ns_id r, ns_status r))
         (notification_schedules (w_db (fst out)))
     = [(1, FAILED)].
Proof. vm_compute. repeat split. Qed.

(** The same call when no call on the store fails: one delivery row. *)
Example dispatch_logs_once_without_faults :
  let out := dispatchDueNotifications Example.now 100 (mkWorld Example.db []) in
  snd out = Returned (mkDispatchResult 1 1 0)
  /\ map (fun d => (nd_schedule_id d, nd_result d))
         (notification_deliveries (w_db (fst out)))
     = [(1, SUCCESS)]
  /\ map (fun r => (ns_id r, ns_status r))
         (notification_schedules (w_db (fst out)))
     = [(1, SENT)].
Proof. vm_compute. repeat split. Qed.

(** *** What holds whenever the dispatcher returns *)

(** [Q] holds of the world and the outcome that [m] leaves from [w]. *)
Definition holds {A} (m : M A) (w : World) (Q : World -> Outcome A -> Prop) : Prop :=
  Q (fst (m w)) (snd (m w)).

Lemma holds_ret {A} (a : A) w (Q : World -> Outcome A -> Prop) :
  Q w (Returned a) -> holds (ret a) w Q.
Proof. exact (fun H => H). Qed.

Lemma holds_bind {A B} (m : M A) (k : A -> M B) w (Q : World -> Outcome B -> Prop) :
  holds m w (fun w1 o1 => match o1 with
                          | Returned a => holds (k a) w1 Q
                          | Thrown e => Q w1 (Thrown e)
                          end) ->
  holds (bind m k) w Q.
Proof.
  unfold holds, bind. destruct (m w) as [w1 [a | e]]; simpl; auto.
Qed.

Lemma holds_tryCatch {A} (m : M A) (h : jsstring -> M A) w
      (Q : World -> Outcome A -> Prop) :
  holds m w (fun w1 o1 => match o1 with
                          | Returned a => Q w1 (Returned a)
                          | Thrown e => holds (h e) w1 Q
                          end) ->
  holds (tryCatch m h) w Q.
Proof.
  unfold holds, tryCatch. destruct (m w) as [w1 [a | e]]; simpl; auto.
Qed.

Lemma holds_weaken {A} (m : M A) w (Q Q' : World -> Outcome A -> Prop) :
  holds m w Q -> (forall w' o, Q w' o -> Q' w' o) -> holds m w Q'.
Proof. unfold holds. auto. Qed.

Lemma holds_both {A} (m : M A) w (Q Q' : World -> Outcome A -> Prop) :
  holds m w Q -> holds m w Q' -> holds m w (fun w' o => Q w' o /\ Q' w' o).
Proof. unfold holds. auto. Qed.

Lemma holds_query {A} (run : Db -> Db * A) w (Q : World -> Outcome A -> Prop) :
  (forall fs, Q (mkWorld (w_db w) fs) (Thrown storageError)) ->
  (forall fs, Q (mkWorld (fst (run (w_db w))) fs) (Returned (snd (run (w_db w))))) ->
  holds (query run) w Q.
Proof.
  intros Ht Hr. unfold holds, query.
  destruct (w_faults w) as [|[] fs]; [| apply Ht |];
    destruct (run (w_db w)) as [db' a]; apply Hr.
Qed.

Definition finalStatus (s : ScheduleStatus) : Prop := s = SENT \/ s = FAILED.

(** Every row of schedule [id] is SENT or FAILED. *)
Definition settled (db : Db) (id : Z) : Prop :=
  forall r, In r (notification_schedules db) -> ns_id r = id ->
            finalStatus (ns_status r).

(** From [db] to [db'] rows were only marked SENT or FAILED. *)
Definition onlyMarks (db db' : Db) : Prop :=
  Forall2 (fun r r' => ns_id r' = ns_id r
                       /\ (r' = r \/ finalStatus (ns_status r')))
          (notification_schedules db) (notification_schedules db').

Lemma onlyMarks_refl db : onlyMarks db db.
Proof.
  unfold onlyMarks. induction (notification_schedules db); constructor; auto.
Qed.

Lemma onlyMarks_trans a b c : onlyMarks a b -> onlyMarks b c -> onlyMarks a c.
Proof.
  unfold onlyMarks.
  generalize (notification_schedules a) (notification_schedules b)
             (notification_schedules c).
  intros la lb lc H. revert lc.
  induction H as [|x y la lb [Hid Hxy] _ IH]; intros lc H2;
    inversion H2 as [|y' z lb' lc' [Hid' Hyz] Hrest]; subst; constructor; auto.
  split; [congruence|].
  destruct Hyz as [-> | Hf]; auto.
Qed.

Lemma onlyMarks_settled db db' id :
  onlyMarks db db' -> settled db id -> settled db' id.
Proof.
  unfold onlyMarks, settled.
  generalize (notification_schedules db) (notification_schedules db').
  intros l l' H. induction H as [|x y l l' [Hid Hxy] _ IH]; intros Hs r Hin Hr.
  - destruct Hin.
  - destruct Hin as [<- | Hin].
    + destruct Hxy as [-> | Hf]; [|exact Hf]. apply Hs; simpl; auto.
    + apply IH; auto. intros r0 H0. apply Hs. simpl; auto.
Qed.

Lemma updateStatus_onlyMarks now id res db :
  onlyMarks db (fst (updateStatus now id res db))
  /\ settled (fst (updateStatus now id res db)) id.
Proof.
  unfold onlyMarks, settled, updateStatus. simpl. split.
  - induction (notification_schedules db) as [|r l IH]; simpl; constructor; auto.
    unfold setStatus. destruct (ns_id r =? id); simpl; [|auto].
    split; [reflexivity|]. right. destruct res; [left | right]; reflexivity.
  - intros r Hin Hid. apply in_map_iff in Hin. destruct Hin as (r0 & <- & _).
    unfold setStatus in *. destruct (ns_id r0 =? id) eqn:E.
    + simpl. destruct res; [left | right]; reflexivity.
    + apply Z.eqb_neq in E. congruence.
Qed.

Lemma insertDelivery_schedules now id res msg rp db :
  notification_schedules (fst (insertDelivery now id res msg rp db))
  = notification_schedules db.
Proof. reflexivity. Qed.

(** [markScheduleResult] only marks, and when it returns the schedule is
    settled. *)
Lemma markScheduleResult_settles now id res msg rp w0 w :
  onlyMarks (w_db w0) (w_db w) ->
  holds (markScheduleResult now id res msg rp) w
        (fun w' o => onlyMarks (w_db w0) (w_db w')
                     /\ (forall u, o = Returned u -> settled (w_db w') id)).
Proof.
  intros H0. unfold markScheduleResult.
  apply holds_bind, holds_query; simpl.
  - intros fs. split; [exact H0 | discriminate].
  - intros fs. apply holds_query; simpl.
    + intros fs'. split; [|discriminate].
      eapply onlyMarks_trans; [exact H0|]. unfold onlyMarks. simpl.
      apply (onlyMarks_refl (w_db w)).
    + intros fs'.
      destruct (updateStatus_onlyMarks now id res
                  (fst (insertDelivery now id res msg rp (w_db w)))) as [Hm Hs].
      split; [|intros _ _; exact Hs].
      eapply onlyMarks_trans; [exact H0|].
      eapply onlyMarks_trans; [|exact Hm].
      unfold onlyMarks. simpl. apply (onlyMarks_refl (w_db w)).
Qed.

Definition total (c : Counters) : Z := sent c + failed c.

(** The postcondition of one delivery, and of the loop. *)
Definition delivered (w0 : World) (before : Z) (ids : list Z)
           (w' : World) (o : Outcome Counters) : Prop :=
  onlyMarks (w_db w0) (w_db w')
  /\ (forall c', o = Returned c' ->
                 total c' = before + Z.of_nat (length ids)
                 /\ forall id, In id ids -> settled (w_db w') id).

Lemma mark_then_count now id res msg rp w0 w (c c' : Counters) :
  onlyMarks (w_db w0) (w_db w) ->
  total c' = total c + 1 ->
  holds (markScheduleResult now id res msg rp ;;; ret c') w
        (delivered w0 (total c) [id]).
Proof.
  intros H0 Hc. apply holds_bind.
  eapply holds_weaken; [apply (markScheduleResult_settles now id res msg rp w0 w H0)|].
  intros w' [u | e] [Hm Hs]; simpl.
  - apply holds_ret. split; [exact Hm|].
    intros c1 E. inversion E; subst c1. split; [simpl; lia|].
    intros id' [<- | []]. apply (Hs u). reflexivity.
  - split; [exact Hm | discriminate].
Qed.

Lemma deliver_delivered now c s w0 w :
  onlyMarks (w_db w0) (w_db w) ->
  holds (deliver now c s) w (delivered w0 (total c) [ns_id s]).
Proof.
  intros H0. unfold deliver.
  assert (Hfail : forall w1 msg rp,
             onlyMarks (w_db w0) (w_db w1) ->
             holds (markScheduleResult now (ns_id s) DELIVERY_FAILED msg rp ;;;
                    ret (mkCounters (sent c) (failed c + 1))) w1
                   (delivered w0 (total c) [ns_id s])).
  { intros w1 msg rp H1. apply mark_then_count; [exact H1|]. unfold total; simpl; lia. }
  assert (Hsend : forall w1 rp,
             onlyMarks (w_db w0) (w_db w1) ->
             holds (markScheduleResult now (ns_id s) SUCCESS None rp ;;;
                    ret (mkCounters (sent c + 1) (failed c))) w1
                   (delivered w0 (total c) [ns_id s])).
  { intros w1 rp H1. apply mark_then_count; [exact H1|]. unfold total; simpl; lia. }
  assert (Hcatch : forall w1 (o : Outcome Counters),
             delivered w0 (total c) [ns_id s] w1 o ->
             match o with
             | Returned a => delivered w0 (total c) [ns_id s] w1 (Returned a)
             | Thrown e =>
                 holds (markScheduleResult now (ns_id s) DELIVERY_FAILED (Some e)
                          (channelOnly (ns_channel s)) ;;;
                        ret (mkCounters (sent c) (failed c + 1))) w1
                       (delivered w0 (total c) [ns_id s])
             end).
  { intros w1 [a | e] H; [exact H|]. apply Hfail. apply H. }
  apply holds_tryCatch.
  eapply holds_weaken; [|exact Hcatch].
  destruct (ns_channel s).
  - apply holds_bind, holds_query; simpl.
    + intros fs. split; [exact H0 | discriminate].
    + intros fs. destruct (negb _); [apply Hfail | apply Hsend]; exact H0.
  - apply holds_bind, holds_query; simpl.
    + intros fs. split; [exact H0 | discriminate].
    + intros fs. destruct (negb _); [apply Hfail | apply Hsend]; exact H0.
  - apply Hfail. exact H0.
Qed.

Lemma deliverAll_delivered now schedules :
  forall c w0 w,
    onlyMarks (w_db w0) (w_db w) ->
    holds (deliverAll now c schedules) w
          (delivered w0 (total c) (map ns_id schedules)).
Proof.
  induction schedules as [|s rest IH]; intros c w0 w H0; simpl deliverAll.
  - apply holds_ret. split; [exact H0|].
    intros c' E. inversion E; subst. simpl. split; [lia | tauto].
  - apply holds_bind.
    eapply holds_weaken; [apply (deliver_delivered now c s w0 w H0)|].
    intros w1 [c1 | e] [Hm Hs]; [|split; [exact Hm | discriminate]].
    destruct (Hs c1 eq_refl) as [Ht Hset].
    eapply holds_weaken;
      [apply (holds_both _ _ _ _ (IH c1 w0 w1 Hm) (IH c1 w1 w1 (onlyMarks_refl _)))|].
    intros w2 o [[Hm2 Hs2] [Hstep _]]. split; [exact Hm2|].
    intros c2 E. destruct (Hs2 c2 E) as [Ht2 Hset2].
    split.
    + rewrite Ht2, Ht. simpl length. lia.
    + intros id [<- | Hin]; [|apply Hset2; exact Hin].
      eapply onlyMarks_settled; [exact Hstep|]. apply Hset. simpl; auto.
Qed.

(** Whenever [dispatchDueNotifications] returns, whatever calls on the
    store failed on the way: every schedule it claimed is SENT or FAILED,
    and [picked = sent + failed]. *)
Theorem dispatch_returns_settled :
  forall (now limit : Z) (w w' : World) (res : DispatchResult),
    dispatchDueNotifications now limit w = (w', Returned res) ->
    let claimed := snd (claimDue now limit (w_db w)) in
    picked res = length claimed
    /\ Z.of_nat (picked res) = dr_sent res + dr_failed res
    /\ forall s, In s claimed -> settled (w_db w') (ns_id s).
Proof.
  intros now limit w w' res Hrun claimed.
  assert (H : holds (dispatchDueNotifications now limit) w
                    (fun w1 o => forall r, o = Returned r ->
                       picked r = length claimed
                       /\ Z.of_nat (picked r) = dr_sent r + dr_failed r
                       /\ forall s, In s claimed -> settled (w_db w1) (ns_id s))).
  { unfold dispatchDueNotifications.
    apply holds_bind, holds_query; [discriminate|].
    intros fs. fold claimed. clearbody claimed. apply holds_bind.
    set (w1 := mkWorld (fst (claimDue now limit (w_db w))) fs).
    eapply holds_weaken;
      [apply (deliverAll_delivered now claimed (mkCounters 0 0) w1 w1
                (onlyMarks_refl _))|].
    intros w2 [c | e] [Hm Hs]; [|discriminate].
    apply holds_ret. intros r E. inversion E; subst r. cbn [picked dr_sent dr_failed].
    destruct (Hs c eq_refl) as [Ht Hset].
    split; [reflexivity|]. split.
    - rewrite length_map in Ht. unfold total in Ht. cbn [sent failed] in Ht. lia.
    - intros s Hin. apply Hset. apply in_map. exact Hin. }
  unfold holds in H. rewrite Hrun in H. apply H. reflexivity.
Qed.

(** *** When no call on the store fails *)

Lemma deliver_without_faults now c s db :
  exists c' d db',
    deliver now c s (mkWorld db []) = (mkWorld db' [], Returned c')
    /\ notification_deliveries db' = notification_deliveries db ++ [d]
    /\ nd_schedule_id d = ns_id s
    /\ notification_schedules db'
       = map (setStatus now (ns_id s)
                (match nd_result d with SUCCESS => SENT | DELIVERY_FAILED => FAILED end))
             (notification_schedules db).
Proof.
  unfold deliver, tryCatch, bind, hasPushSubscription, hasEmail,
    markScheduleResult, bind, query, ret.
  destruct (ns_channel s); cbn [w_faults w_db fst snd insertDelivery updateStatus].
  - destruct (negb _); cbn [w_faults w_db fst snd insertDelivery updateStatus];
      do 3 eexists; (split; [reflexivity|]); cbn; auto.
  - destruct (negb _); cbn [w_faults w_db fst snd insertDelivery updateStatus];
      do 3 eexists; (split; [reflexivity|]); cbn; auto.
  - do 3 eexists; (split; [reflexivity|]); cbn; auto.
Qed.

Lemma deliverAll_without_faults now schedules :
  forall c db,
  exists c' ds db',
    deliverAll now c schedules (mkWorld db []) = (mkWorld db' [], Returned c')
    /\ notification_deliveries db' = notification_deliveries db ++ ds
    /\ map nd_schedule_id ds = map ns_id schedules.
Proof.
  induction schedules as [|s rest IH]; intros c db; simpl deliverAll.
  - exists c, [], db. rewrite app_nil_r. auto.
  - destruct (deliver_without_faults now c s db) as (c1 & d & db1 & E1 & Hd & Hid & _).
    destruct (IH c1 db1) as (c2 & ds & db2 & E2 & Hds & Hids).
    exists c2, (d :: ds), db2. unfold bind. rewrite E1, E2.
    split; [reflexivity|]. split.
    + rewrite Hds, Hd, <- app_assoc. reflexivity.
    + simpl. congruence.
Qed.

(** When no call on the store fails, [dispatchDueNotifications] returns
    and appends to the delivery log one row per claimed schedule, in the
    order of the claim. *)
Theorem dispatch_without_faults_logs_once :
  forall (now limit : Z) (db : Db),
  exists res ds db',
    dispatchDueNotifications now limit (mkWorld db []) = (mkWorld db' [], Returned res)
    /\ notification_deliveries db' = notification_deliveries db ++ ds
    /\ map nd_schedule_id ds = map ns_id (snd (claimDue now limit db)).
Proof.
  intros now limit db. unfold dispatchDueNotifications, bind, query at 1.
  cbn [w_faults w_db].
  destruct (claimDue now limit db) as [db1 claimed] eqn:E.
  destruct (deliverAll_without_faults now claimed (mkCounters 0 0) db1)
    as (c & ds & db2 & E2 & Hds & Hids).
  rewrite E2. exists (mkDispatchResult (length claimed) (sent c) (failed c)), ds, db2.
  split; [reflexivity|]. split; [|exact Hids].
  rewrite Hds. f_equal.
  unfold claimDue in E. inversion E. reflexivity.
Qed.

End DispatchProps.

(* ================================================================== *)
(** ** More on the text utilities and the parser *)

Module TextProps.
Import JS Regex Dates Ingest JSProps ParserProps DateProps.

(** *** Substrings *)

Lemma startsWith_prefix w : forall s,
  startsWith w s = true <-> exists b, s = w ++ b.
Proof.
  induction w as [|x w IH]; intros s; simpl.
  - split; [intros _; exists s; reflexivity | reflexivity].
  - destruct s as [|y s].
    + split; [discriminate | intros [b E]; discriminate].
    + unfold code_eqb. rewrite andb_true_iff, N.eqb_eq, IH. split.
      * intros [-> [b ->]]. exists b. reflexivity.
      * intros [b E]. inversion E; subst. split; [reflexivity|]. exists b.
        reflexivity.
Qed.

Lemma includes_infix s : forall w,
  includes s w = true <-> exists a b, s = a ++ w ++ b.
Proof.
  induction s as [|c s IH]; intros w; simpl.
  - rewrite orb_false_r, startsWith_prefix. split.
    + intros [b E]. exists [], b. exact E.
    + intros (a & b & E). destruct a; [|discriminate]. exists b. exact E.
  - rewrite orb_true_iff, startsWith_prefix, IH. split.
    + intros [[b E] | (a & b & E)].
      * exists [], b. exact E.
      * exists (c :: a), b. rewrite E. reflexivity.
    + intros (a & b & E). destruct a as [|x a].
      * left. exists b. exact E.
      * right. inversion E; subst. exists a, b. reflexivity.
Qed.

(** A text that includes a word includes every part of the word. *)
Lemma includes_part s a w b :
  includes s (a ++ w ++ b) = true -> includes s w = true.
Proof.
  rewrite !includes_infix. intros (x & y & ->).
  exists (x ++ a), (b ++ y). rewrite <- !app_assoc. reflexivity.
Qed.

Lemma hit_In source keywords word :
  In word keywords -> includes source word = true -> hit source keywords = true.
Proof.
  intros Hin Hw. unfold hit. apply existsb_exists. exists word. auto.
Qed.

(** The update keyword that starts with the maintenance keyword. *)
Definition updateAfterMaintenance : jsstring :=
  [51216; 44160; 32; 54980; 32; 50629; 45936; 51060; 53944]%N.

(** A text with the update keyword [updateAfterMaintenance] is never typed
    UPDATE: the keyword contains the maintenance keyword of two code units
    it starts with, and the maintenance keywords are tested before the
    update keywords. *)
Theorem update_after_maintenance_is_not_update :
  forall (toLowerCase : jsstring -> jsstring) (text : jsstring),
    includes (toLowerCase text) updateAfterMaintenance = true ->
    fst (detectEventType toLowerCase text) = PICKUP
    \/ fst (detectEventType toLowerCase text) = MAINTENANCE.
Proof.
  intros lower text H.
  assert (Hm : hit (lower text) maintenanceKeywords = true).
  { apply (hit_In _ _ [51216; 44160]%N); [simpl; tauto|].
    apply (includes_part _ [] _ [32; 54980; 32; 50629; 45936; 51060; 53944]%N).
    exact H. }
  unfold detectEventType.
  destruct (hit (lower text) pickupKeywords); [left; reflexivity|].
  rewrite Hm. right. reflexivity.
Qed.

Lemma update_after_maintenance_is_not_update_witness :
  In updateAfterMaintenance updateKeywords
  /\ includes (toLowerCaseBasicLatin (lit "v2.1 " ++ updateAfterMaintenance))
              updateAfterMaintenance = true
  /\ (fst (detectEventType toLowerCaseBasicLatin (lit "v2.1 " ++ updateAfterMaintenance))
      = PICKUP
      \/ fst (detectEventType toLowerCaseBasicLatin
                 (lit "v2.1 " ++ updateAfterMaintenance)) = MAINTENANCE).
Proof.
  split; [simpl; tauto|].
  split; [vm_compute; reflexivity|].
  apply (update_after_maintenance_is_not_update toLowerCaseBasicLatin
           (lit "v2.1 " ++ updateAfterMaintenance)).
  vm_compute; reflexivity.
Defined.

(** *** [normalizeText] *)

(** White space in tidy text: every white space code unit is U+0020 and no
    two of them are adjacent ([prevSpace] tells that the code unit before
    the text was white space). *)
Fixpoint tidy (prevSpace : bool) (s : jsstring) : bool :=
  match s with
  | [] => true
  | c :: t =>
      if isSpace c then (c =? 32)%N && negb prevSpace && tidy true t
      else tidy false t
  end.

Lemma tidy_replaceSpaceRuns s : forall b, tidy b (replaceSpaceRuns b s) = true.
Proof.
  induction s as [|c s IH]; intros b; simpl; [reflexivity|].
  destruct (isSpace c) eqn:E.
  - destruct b; [apply IH|]. simpl. apply IH.
  - simpl. rewrite E. apply IH.
Qed.

Lemma replaceSpaceRuns_tidy s : forall b,
  tidy b s = true -> replaceSpaceRuns b s = s.
Proof.
  induction s as [|c s IH]; intros b; simpl; [reflexivity|].
  destruct (isSpace c).
  - rewrite !andb_true_iff, N.eqb_eq, negb_true_iff.
    intros [[-> ->] H]. rewrite (IH true H). reflexivity.
  - intros H. rewrite (IH false H). reflexivity.
Qed.

Lemma tidy_weaken s : tidy true s = true -> tidy false s = true.
Proof.
  destruct s as [|c s]; simpl; [reflexivity|].
  destruct (isSpace c); [|exact (fun H => H)].
  rewrite !andb_true_iff. simpl. intros [[_ H] _]. discriminate.
Qed.

Lemma tidy_any_false b s : tidy b s = true -> tidy false s = true.
Proof. destruct b; [apply tidy_weaken | exact (fun H => H)]. Qed.

Lemma tidy_trimStart s : forall b, tidy b s = true -> tidy false (trimStart s) = true.
Proof.
  induction s as [|c s IH]; intros b H; simpl; [reflexivity|].
  destruct (isSpace c) eqn:E.
  - simpl in H. rewrite E in H. apply andb_true_iff in H. destruct H as [_ H].
    apply (IH true H).
  - apply (tidy_any_false b). exact H.
Qed.

Lemma tidy_prefix a : forall b r, tidy b (a ++ r) = true -> tidy b a = true.
Proof.
  induction a as [|c a IH]; intros b r; simpl; [reflexivity|].
  destruct (isSpace c).
  - rewrite !andb_true_iff. intros [H1 H2]. split; [exact H1|]. eapply IH, H2.
  - apply IH.
Qed.

(** What [trimStart] leaves does not start with white space. *)
Definition noLeadingSpace (s : jsstring) : Prop :=
  match s with
  | [] => True
  | c :: _ => isSpace c = false
  end.

Lemma trimStart_noLeadingSpace s : noLeadingSpace (trimStart s).
Proof.
  induction s as [|c s IH]; simpl; [exact I|].
  destruct (isSpace c) eqn:E; [exact IH | exact E].
Qed.

Lemma trimStart_fixed s : noLeadingSpace s -> trimStart s = s.
Proof. destruct s as [|c s]; simpl; [reflexivity|]. intros ->. reflexivity. Qed.

Lemma trimStart_suffix s : exists ws, s = ws ++ trimStart s.
Proof.
  induction s as [|c s [ws IH]]; simpl; [exists []; reflexivity|].
  destruct (isSpace c); [|exists []; reflexivity].
  exists (c :: ws). simpl. f_equal. exact IH.
Qed.

Lemma trimEnd_prefix s : exists ws, s = trimEnd s ++ ws.
Proof.
  unfold trimEnd. destruct (trimStart_suffix (rev s)) as [ws E].
  exists (rev ws). rewrite <- rev_app_distr, <- E, rev_involutive. reflexivity.
Qed.

Lemma trimEnd_fixed s : noLeadingSpace (rev s) -> trimEnd s = s.
Proof.
  intros H. unfold trimEnd. rewrite trimStart_fixed by exact H.
  apply rev_involutive.
Qed.

Lemma trimEnd_noTrailingSpace s : noLeadingSpace (rev (trimEnd s)).
Proof.
  unfold trimEnd. rewrite rev_involutive. apply trimStart_noLeadingSpace.
Qed.

Lemma noLeadingSpace_prefix t ws :
  noLeadingSpace (t ++ ws) -> t <> [] -> noLeadingSpace t.
Proof. destruct t; [congruence | simpl; auto]. Qed.

(** [normalizeText] gives tidy text without white space at either end, and
    leaves such text as it is: normalising twice is normalising once.  The
    content hash of a raw notice is taken of this normal form. *)
Theorem normalizeText_idempotent :
  forall s : jsstring,
    let t := normalizeText s in
    normalizeText t = t
    /\ tidy false t = true
    /\ noLeadingSpace t /\ noLeadingSpace (rev t).
Proof.
  intros s t.
  set (u := trimStart (replaceSpaceRuns false s)).
  assert (Ht : t = trimEnd u) by reflexivity.
  assert (Hu : tidy false u = true)
    by (apply (tidy_trimStart _ false), tidy_replaceSpaceRuns).
  destruct (trimEnd_prefix u) as [ws Hws]. rewrite <- Ht in Hws.
  assert (Htidy : tidy false t = true)
    by (apply (tidy_prefix t false ws); rewrite <- Hws; exact Hu).
  assert (Hlead : noLeadingSpace t).
  { destruct t as [|c t'] eqn:Et; [exact I|].
    apply (noLeadingSpace_prefix _ ws); [|discriminate].
    rewrite <- Hws. apply trimStart_noLeadingSpace. }
  assert (Htrail : noLeadingSpace (rev t))
    by (rewrite Ht; apply trimEnd_noTrailingSpace).
  split; [|auto].
  unfold normalizeText at 1, trim.
  rewrite (replaceSpaceRuns_tidy t false Htidy), (trimStart_fixed t Hlead).
  apply trimEnd_fixed, Htrail.
Qed.

(** *** [summarize] *)

Lemma length_lit_dots : length (lit "...") = 3.
Proof. reflexivity. Qed.

Lemma summarize_length input maxLength :
  1 <= maxLength ->
  length (summarize input maxLength) <= maxLength + 2.
Proof.
  intros Hn. unfold summarize.
  destruct (Nat.leb_spec (length (normalizeText input)) maxLength); [lia|].
  unfold slice0. rewrite length_app, length_firstn, length_lit_dots. lia.
Qed.

(** The summary of a draft has at most 222 code units, not 220: a text
    longer than 220 is cut to 219 code units and three dots are added.
    The bound is reached. *)
Theorem summary_length :
  (forall (toLowerCase : jsstring -> jsstring) (p : RawInput),
      length (d_summary (parseRawNoticeToEventDraft toLowerCase p)) <= 222)
  /\ (exists p : RawInput,
         length (d_summary (parseRawNoticeToEventDraft toLowerCaseBasicLatin p))
         = 222).
Proof.
  split.
  - intros lower p. destruct (parse_fields lower p) as (_ & -> & _).
    unfold summaryOf. apply (summarize_length _ 220). lia.
  - exists (mkInput (lit "Notice") (repeat 97%N 300) (lit "UTC")).
    vm_compute. reflexivity.
Qed.

(** *** [slugify] *)

(** The code units of a slug: [a-z], [0-9] and the hyphen. *)
Definition slugOut (c : N) : bool :=
  ((97 <=? c) && (c <=? 122))%N || isDigit c || (c =? 45)%N.

Lemma Forall_trimStart (P : N -> Prop) s : Forall P s -> Forall P (trimStart s).
Proof.
  induction 1 as [|c s Hc Hs IH]; simpl; [constructor|].
  destruct (isSpace c); [exact IH | constructor; assumption].
Qed.

Lemma Forall_trimEnd (P : N -> Prop) s : Forall P s -> Forall P (trimEnd s).
Proof.
  intros H. unfold trimEnd. apply Forall_rev, Forall_trimStart, Forall_rev, H.
Qed.

Lemma Forall_replaceSpaceRuns (P : N -> Prop) s : forall b,
  P 32%N -> Forall P s -> Forall P (replaceSpaceRuns b s).
Proof.
  induction s as [|c s IH]; intros b Hsp H; simpl; [constructor|].
  inversion H as [|? ? Hc Hs]; subst.
  destruct (isSpace c); [destruct b|]; try constructor; auto.
Qed.

Lemma In_firstn {A} n : forall (l : list A) x, In x (firstn n l) -> In x l.
Proof.
  induction n as [|n IH]; intros [|a l] x; simpl; try tauto.
  intros [-> | H]; auto.
Qed.

(** A slug has at most 60 code units, each of them a small Basic Latin
    letter, a digit or a hyphen, whatever the title and whatever
    [toLowerCase] gives for it. *)
Theorem slugify_alphabet :
  forall (toLowerCase : jsstring -> jsstring) (input : jsstring),
    length (slugify toLowerCase input) <= 60
    /\ Forall (fun c => slugOut c = true) (slugify toLowerCase input).
Proof.
  intros lower input. unfold slugify, slice0. split.
  - rewrite length_firstn. lia.
  - apply Forall_forall. intros c Hin. apply In_firstn in Hin.
    unfold hyphenateSpaceRuns in Hin. apply in_map_iff in Hin.
    destruct Hin as (x & <- & Hx).
    assert (Hkeep : Forall (fun c => slugChar c = true)
                           (replaceSpaceRuns false
                              (trim (filter slugChar (lower input))))).
    { apply Forall_replaceSpaceRuns; [reflexivity|].
      unfold trim. apply Forall_trimEnd, Forall_trimStart.
      apply Forall_forall. intros y Hy. apply filter_In in Hy. tauto. }
    rewrite Forall_forall in Hkeep. specialize (Hkeep x Hx).
    destruct (isSpace x) eqn:E; [reflexivity|].
    unfold slugChar in Hkeep. rewrite E, orb_false_r in Hkeep.
    unfold slugOut. destruct ((97 <=? x) && (x <=? 122))%N, (isDigit x);
      simpl in *; auto.
Qed.

(** *** Confidence and visibility *)

Lemma confidence_cases lower p :
  exists a b c,
    In a typeScores /\ In b dateScores /\ In c [0.1; 0]%float
    /\ b = score (extractDateRange (mergedText p) (in_timezone p))
    /\ d_confidence (parseRawNoticeToEventDraft lower p)
       = Math_min 1 (0.35 + a + b + c)%float.
Proof.
  destruct (parse_fields lower p) as (_ & _ & Hc & _).
  exists (snd (detectEventType lower (mergedText p))),
         (score (extractDateRange (mergedText p) (in_timezone p))),
         (summaryBonus p).
  split; [apply detectEventType_score|].
  split; [apply extractDateRange_score|].
  split; [unfold summaryBonus; destruct (Nat.ltb _ _); simpl; auto|].
  split; [reflexivity | exact Hc].
Qed.

Ltac each_score :=
  repeat match goal with
         | H : In _ (_ :: _) |- _ => destruct H as [<- | H]
         | H : In _ [] |- _ => destruct H
         end.

(** The confidence of a draft is a number from 0.35 + 0.1 to 1: it is
    never NaN, never below the base and the lowest type score, and never
    above 1. *)
Theorem confidence_in_range :
  forall (toLowerCase : jsstring -> jsstring) (p : RawInput),
    let d := parseRawNoticeToEventDraft toLowerCase p in
    PrimFloat.leb (0.35 + 0.1)%float (d_confidence d) = true
    /\ PrimFloat.leb (d_confidence d) 1 = true.
Proof.
  intros lower p d.
  destruct (confidence_cases lower p) as (a & b & c & Ha & Hb & Hc & _ & E).
  fold d in E. rewrite E. unfold typeScores, dateScores in *.
  each_score; vm_compute; auto.
Qed.

Lemma toUtcIso_truthy parts : truthy (toUtcIso parts) = true \/ toUtcIso parts = None.
Proof.
  unfold toUtcIso. destruct (parseDate _); [left | right; reflexivity].
  unfold toISOString. apply truthy_isoString.
Qed.

Lemma both_endpoints_score text tz :
  startAtUtc (extractDateRange text tz) <> None ->
  endAtUtc (extractDateRange text tz) <> None ->
  In (score (extractDateRange text tz)) [0.35; 0.3]%float.
Proof.
  unfold extractDateRange.
  destruct (search fullRangePattern _) as [m|].
  - cbn [startAtUtc endAtUtc score]. intros Hs He.
    destruct (toUtcIso_truthy (mkParts (group m 1) (group m 2) (group m 3)
                                       (group m 4) (group m 5) tz)) as [-> | E];
      [|congruence].
    destruct (toUtcIso_truthy (mkParts (group m 6) (group m 7) (group m 8)
                                       (group m 9) (group m 10) tz)) as [-> | E];
      [|congruence].
    simpl; auto.
  - destruct (search sameDateRangePattern _) as [m|].
    + cbn [startAtUtc endAtUtc score]. intros Hs He.
      destruct (toUtcIso_truthy (mkParts (group m 1) (group m 2) (group m 3)
                                         (group m 4) (group m 5) tz)) as [-> | E];
        [|congruence].
      destruct (toUtcIso_truthy (mkParts (group m 1) (group m 2) (group m 3)
                                         (group m 6) (group m 7) tz)) as [-> | E];
        [|congruence].
      simpl; auto.
    + destruct (search singlePattern _); cbn [endAtUtc]; congruence.
Qed.

(** A draft that has both a start and an end is PUBLIC, whatever its type
    and its summary: the range alone brings 0.35 + 0.1 + 0.3. *)
Theorem draft_with_both_dates_is_public :
  forall (toLowerCase : jsstring -> jsstring) (p : RawInput),
    let d := parseRawNoticeToEventDraft toLowerCase p in
    d_startAtUtc d <> None -> d_endAtUtc d <> None ->
    d_visibility d = PUBLIC.
Proof.
  intros lower p d Hs He.
  assert (Hd : d_startAtUtc d = startAtUtc (extractDateRange (mergedText p) (in_timezone p))
               /\ d_endAtUtc d = endAtUtc (extractDateRange (mergedText p) (in_timezone p))).
  { unfold d, parseRawNoticeToEventDraft, mergedText.
    destruct (detectEventType lower _). split; reflexivity. }
  destruct Hd as [Es Ee]. rewrite Es in Hs. rewrite Ee in He.
  pose proof (both_endpoints_score _ _ Hs He) as Hsc.
  destruct (parse_fields lower p) as (_ & _ & _ & Hv). fold d in Hv.
  destruct (confidence_cases lower p) as (a & b & c & Ha & _ & Hc & Eb & E).
  fold d in E. rewrite Hv, E. subst b.
  unfold typeScores in *.
  destruct Hsc as [<- | [<- | []]]; each_score; vm_compute; reflexivity.
Qed.

Lemma draft_with_both_dates_is_public_witness :
  d_startAtUtc (parseRawNoticeToEventDraft toLowerCaseBasicLatin
                  (mkInput (lit "Notice") (lit "2026-03-01 10:00-11:30") (lit "UTC")))
  <> None
  /\ d_visibility (parseRawNoticeToEventDraft toLowerCaseBasicLatin
                     (mkInput (lit "Notice") (lit "2026-03-01 10:00-11:30") (lit "UTC")))
     = PUBLIC.
Proof.
  split; [vm_compute; discriminate|].
  apply (draft_with_both_dates_is_public toLowerCaseBasicLatin
           (mkInput (lit "Notice") (lit "2026-03-01 10:00-11:30") (lit "UTC")));
    vm_compute; discriminate.
Defined.

(** *** A text without digits *)

Lemma matchHere_noDigit p s :
  noDigit s -> matchHere (Cap Digit 4 4 :: p) s = None.
Proof.
  intros H. cbn [matchHere]. destruct H as [|c s Hc _]; cbn [run inClass].
  - reflexivity.
  - rewrite Hc. reflexivity.
Qed.

Lemma search_noDigit p s :
  noDigit s -> search (Cap Digit 4 4 :: p) s = None.
Proof.
  intros H. induction H as [|c s Hc Hs IH].
  - cbn [search]. rewrite matchHere_noDigit by constructor. reflexivity.
  - cbn [search]. rewrite matchHere_noDigit by (constructor; assumption).
    exact IH.
Qed.

Lemma noDigit_normalizeText s : noDigit s -> noDigit (normalizeText s).
Proof.
  intros H. unfold normalizeText, trim.
  apply Forall_trimEnd, Forall_trimStart, Forall_replaceSpaceRuns;
    [reflexivity | exact H].
Qed.

(** A text without any digit has no date: both endpoints are null and the
    date score is 0. *)
Theorem no_digit_no_date :
  forall text tz : jsstring,
    noDigit text ->
    extractDateRange text tz = mkDateRange None None 0%float.
Proof.
  intros text tz H. apply noDigit_normalizeText in H.
  unfold extractDateRange, fullRangePattern, sameDateRangePattern, singlePattern,
    dateTime.
  cbn [app]. rewrite !search_noDigit by exact H. reflexivity.
Qed.

Lemma no_digit_no_date_witness :
  noDigit (lit "Pickup banner is live")
  /\ extractDateRange (lit "Pickup banner is live") (lit "Asia/Seoul")
     = mkDateRange None None 0%float.
Proof.
  assert (H : noDigit (lit "Pickup banner is live")) by (repeat constructor).
  split; [exact H|].
  apply (no_digit_no_date (lit "Pickup banner is live") (lit "Asia/Seoul") H).
Defined.

(** *** Local time to UTC *)

(** [toUtcIso] converts a local date-time without loss: for a date-time
    of the calendar (four digit year, hour to 23, minute to 59) in one of
    the time zones the parser knows, the result is the ISO text of a UTC
    date-time of the calendar whose time value is that of the local
    date-time less the offset of the zone. *)
Theorem toUtcIso_is_the_same_instant :
  forall (l : LocalDateTime) (tz : jsstring) (off : Z),
    wellFormed l = true ->
    knownTimezone tz = Some off ->
    exists c : civil,
      toUtcIso (partsOf l tz) = Some (isoString c)
      /\ validCivil c = true
      /\ timeOfCivil c = (localTime l - off * msPerMinute)%Z.
Proof.
  intros l tz off Hw Htz. exists (utcOf off l).
  split; [apply toUtcIso_wellFormed; assumption|].
  apply civilOfTime_spec.
Qed.

Lemma toUtcIso_is_the_same_instant_witness :
  toUtcIso (mkParts 2026 3 1 8 30 (lit "Asia/Seoul"))
  = Some (lit "2026-02-28T23:30:00.000Z")
  /\ exists c : civil,
       toUtcIso (partsOf (mkLocal 2026 3 1 8 30) (lit "Asia/Seoul"))
       = Some (isoString c)
       /\ validCivil c = true
       /\ timeOfCivil c
          = (localTime (mkLocal 2026 3 1 8 30) - 540 * msPerMinute)%Z.
Proof.
  split; [vm_compute; reflexivity|].
  apply (toUtcIso_is_the_same_instant (mkLocal 2026 3 1 8 30) (lit "Asia/Seoul") 540);
    reflexivity.
Defined.

(** *** A text without keyword and date *)

Lemma no_keyword_no_date_need_review_witness :
  d_visibility (parseRawNoticeToEventDraft toLowerCaseBasicLatin
                  (mkInput (lit "Hello") (lit "Thank you for playing")
                           (lit "Asia/Seoul")))
  = NEED_REVIEW.
Proof.
  apply (no_keyword_no_date_need_review toLowerCaseBasicLatin
           (mkInput (lit "Hello") (lit "Thank you for playing")
                    (lit "Asia/Seoul")));
    vm_compute; reflexivity.
Defined.

End TextProps.

(* ================================================================== *)
(** ** More on the scheduling engine *)

Module PlanningProps.
Import JS Store Scheduling JSProps SchedulingProps.
Local Open Scope Z_scope.

(** *** Any sequence of planning operations *)




(** *** What a plan leaves for its event *)

(** A row that a planning step wrote at time [now]: PENDING and not more
    than 5 minutes late, or SENT. *)
Definition writtenAt (now : Z) (r : ScheduleRow) : Prop :=
  (ns_status r = PENDING /\ now - 5 * 60 * 1000 <= ns_scheduled_at_utc r)
  \/ ns_status r = SENT.

(** Every row of [rows'] is a row of [rows] or was written at [now]. *)
Definition keptOrWritten (now : Z) (rows rows' : list ScheduleRow) : Prop :=
  forall r', In r' rows' -> In r' rows \/ writtenAt now r'.

Lemma keptOrWritten_refl now rows : keptOrWritten now rows rows.
Proof. intros r H. auto. Qed.

Lemma keptOrWritten_trans now a b c :
  keptOrWritten now a b -> keptOrWritten now b c -> keptOrWritten now a c.
Proof.
  intros H1 H2 r Hin. destruct (H2 r Hin) as [H | H]; auto.
Qed.

Lemma planRule_keptOrWritten now ev u db p s rule :
  keptOrWritten now (notification_schedules db)
    (notification_schedules (fst (fst (planRule now ev u (db, p, s) rule)))).
Proof.
  unfold planRule.
  destruct (computeScheduledAt now rule ev) as [t|]; [|apply keptOrWritten_refl].
  destruct (Z.ltb_spec t (now - 5 * 60 * 1000)); [apply keptOrWritten_refl|].
  cbn [fst]. intros r'. rewrite upsert_rows.
  destruct (existsb _ _).
  - rewrite in_map_iff. intros (r & <- & Hin).
    destruct (str_eqb _ _); [|auto]. right. unfold writtenAt. simpl.
    destruct (ns_status r); auto.
  - intros Hin. apply in_app_or in Hin. destruct Hin as [Hin | Hin]; [auto|].
    simpl in Hin. destruct Hin as [<- | Hin]; [|destruct Hin].
    right. left. simpl. auto.
Qed.

Lemma planRules_keptOrWritten now ev u rules : forall st,
  keptOrWritten now (notification_schedules (fst (fst st)))
    (notification_schedules (fst (fst (fold_left (planRule now ev u) rules st)))).
Proof.
  induction rules as [|rule rules IH]; intros [[db p] s]; cbn [fold_left].
  - apply keptOrWritten_refl.
  - eapply keptOrWritten_trans; [|apply IH].
    pose proof (planRule_keptOrWritten now ev u db p s rule) as H.
    destruct (planRule now ev u (db, p, s) rule) as [[db' p'] s']. exact H.
Qed.

Lemma planEntries_keptOrWritten now ev (entries : list (Z * list RuleRow)) :
  forall st,
    keptOrWritten now (notification_schedules (fst (fst st)))
      (notification_schedules
         (fst (fst (fold_left
                      (fun st entry =>
                         fold_left (planRule now ev (fst entry)) (snd entry) st)
                      entries st)))).
Proof.
  induction entries as [|[u rules] l IH]; intros st; cbn [fold_left].
  - apply keptOrWritten_refl.
  - eapply keptOrWritten_trans; [|apply IH]. apply planRules_keptOrWritten.
Qed.

Lemma planForEventAndUsers_keptOrWritten now db ev uid :
  keptOrWritten now (notification_schedules db)
    (notification_schedules (fst (fst (planForEventAndUsers now db ev uid)))).
Proof.
  unfold planForEventAndUsers.
  destruct (negb _); [apply keptOrWritten_refl|].
  destruct (getTargetUsersForRegion _ _ _); [apply keptOrWritten_refl|].
  apply (planEntries_keptOrWritten now ev _ (db, 0, 0)).
Qed.

(** After [planNotificationsForEvent] for an event of the store, the event
    has no FAILED and no CANCELED schedule, and none that is PENDING for a
    time more than 5 minutes before the plan: each of its rows is
    PROCESSING, SENT, or PENDING and due at [now - 5 min] or later. *)
Theorem plan_leaves_no_stale_schedule :
  forall (now : Z) (db : Db) (eventId : Z) (event : EventRow) (r : ScheduleRow),
    getEvent db eventId = Some event ->
    In r (notification_schedules (fst (planNotificationsForEvent now db eventId))) ->
    ns_event_id r = eventId ->
    ns_status r = PROCESSING \/ ns_status r = SENT
    \/ (ns_status r = PENDING /\ now - 5 * 60 * 1000 <= ns_scheduled_at_utc r).
Proof.
  intros now db eventId event r Hev Hin He.
  unfold planNotificationsForEvent in Hin. rewrite Hev in Hin.
  fold (purgeEvent db eventId) in Hin.
  pose proof (planForEventAndUsers_keptOrWritten now (purgeEvent db eventId)
                event None) as H.
  destruct (planForEventAndUsers now (purgeEvent db eventId) event None)
    as [[db2 p] s].
  cbn [fst] in *. destruct (H r Hin) as [Hold | [Hw | Hw]]; auto.
  unfold purgeEvent in Hold. cbn in Hold. apply filter_In in Hold.
  destruct Hold as [_ Hkeep].
  rewrite negb_true_iff, andb_false_iff, Z.eqb_neq in Hkeep.
  destruct Hkeep as [Hne | Hp]; [congruence|].
  destruct (ns_status r); simpl in Hp; try discriminate; auto.
Qed.

Lemma plan_leaves_no_stale_schedule_witness :
  let db := Sample.db PUBLIC [Sample.sent; Sample.processing; Sample.pending] in
  let rows := notification_schedules
                (fst (planNotificationsForEvent Sample.now db 1)) in
  let r := nth 1 rows Sample.sent in
  getEvent db 1 = Some (Sample.pickup PUBLIC)
  /\ map (fun r => (ns_id r, ns_status r, ns_scheduled_at_utc r)) rows
     = [(1, SENT, 1000000000); (2, PENDING, 1996400000)]
  /\ (ns_status r = PROCESSING \/ ns_status r = SENT
      \/ (ns_status r = PENDING
          /\ Sample.now - 5 * 60 * 1000 <= ns_scheduled_at_utc r)).
Proof.
  intros db rows r.
  split; [reflexivity|]. split; [vm_compute; reflexivity|].
  apply (plan_leaves_no_stale_schedule Sample.now db 1 (Sample.pickup PUBLIC) r).
  - reflexivity.
  - vm_compute. auto.
  - reflexivity.
Defined.

(** *** The dedupe key identifies the rule shape *)

Definition isDecimal (c : N) : Prop := (48 <= c <= 57)%N.

Lemma decimalDigits_decimal fuel : forall n, Forall isDecimal (decimalDigits fuel n).
Proof.
  induction fuel as [|f IH]; intros n; cbn [decimalDigits]; [constructor|].
  destruct (N.ltb_spec n 10).
  - constructor; [unfold isDecimal; lia | constructor].
  - apply Forall_app. split; [apply IH|].
    pose proof (N.mod_upper_bound n 10 ltac:(lia)) as Hr.
    revert Hr. generalize (n mod 10)%N as r. intros r Hr.
    constructor; [unfold isDecimal; lia | constructor].
Qed.

Lemma digitsToNumber_snoc a c :
  digitsToNumber (a ++ [c]) = (10 * digitsToNumber a + (c - 48))%N.
Proof. unfold digitsToNumber. rewrite fold_left_app. reflexivity. Qed.

Lemma decimalDigits_number fuel : forall n,
  (n < 2 ^ N.of_nat fuel)%N -> digitsToNumber (decimalDigits fuel n) = n.
Proof.
  induction fuel as [|f IH]; intros n Hn.
  - simpl in Hn. assert (n = 0%N) as -> by lia. reflexivity.
  - cbn [decimalDigits]. destruct (N.ltb_spec n 10).
    + unfold digitsToNumber. cbn [fold_left]. lia.
    + pose proof (N.div_mod n 10 ltac:(lia)) as Hdm.
      pose proof (N.mod_upper_bound n 10 ltac:(lia)) as Hr.
      rewrite Nat2N.inj_succ, N.pow_succ_r' in Hn.
      revert Hdm Hr. generalize (n mod 10)%N as r. generalize (n / 10)%N as q.
      intros q r Hdm Hr.
      rewrite digitsToNumber_snoc, IH; lia.
Qed.

(** [Number(String(n)) = n] for a natural number. *)
Lemma numberToString_number n : digitsToNumber (numberToString n) = n.
Proof.
  unfold numberToString. apply decimalDigits_number.
  rewrite Nat2N.inj_succ, N2Nat.id.
  destruct (N.eq_dec n 0) as [-> | Hn]; [reflexivity|].
  apply N.log2_spec. lia.
Qed.

Lemma numberToString_decimal n : Forall isDecimal (numberToString n).
Proof. apply decimalDigits_decimal. Qed.

Lemma numberToString_nonempty n : numberToString n <> [].
Proof.
  unfold numberToString. cbn [decimalDigits]. destruct (n <? 10)%N; [discriminate|].
  intros E. apply app_eq_nil in E. destruct E; discriminate.
Qed.

Lemma intToString_injective z z' : intToString z = intToString z' -> z = z'.
Proof.
  unfold intToString.
  assert (Hdash : forall n rest, numberToString n <> 45%N :: rest).
  { intros n rest E. pose proof (numberToString_decimal n) as H.
    rewrite E in H. inversion H as [|? ? Hc _]. unfold isDecimal in Hc. lia. }
  destruct (Z.ltb_spec z 0), (Z.ltb_spec z' 0); intros E.
  - inversion E as [E']. apply (f_equal digitsToNumber) in E'.
    rewrite !numberToString_number in E'. lia.
  - symmetry in E. apply Hdash in E. destruct E.
  - apply Hdash in E. destruct E.
  - apply (f_equal digitsToNumber) in E.
    rewrite !numberToString_number in E. lia.
Qed.

Lemma intToString_no_colon z : ~ In 58%N (intToString z).
Proof.
  assert (H : forall n, ~ In 58%N (numberToString n)).
  { intros n Hin. pose proof (numberToString_decimal n) as Hd.
    rewrite Forall_forall in Hd. apply Hd in Hin. unfold isDecimal in Hin. lia. }
  unfold intToString. destruct (z <? 0); [|apply H].
  intros [E | Hin]; [discriminate | exact (H _ Hin)].
Qed.

Lemma split_at_colon a : forall b x y,
  ~ In 58%N a -> ~ In 58%N b ->
  a ++ 58%N :: x = b ++ 58%N :: y -> a = b /\ x = y.
Proof.
  induction a as [|c a IH]; intros [|d b] x y Ha Hb E; simpl in *.
  - inversion E. auto.
  - inversion E; subst. tauto.
  - inversion E; subst. tauto.
  - inversion E; subst. destruct (IH b x y) as [-> ->]; auto.
Qed.

Lemma channelName_no_colon c : ~ In 58%N (channelName c).
Proof. destruct c; vm_compute; intuition discriminate. Qed.

Lemma triggerName_no_colon t : ~ In 58%N (triggerName t).
Proof. destruct t; vm_compute; intuition discriminate. Qed.

Lemma channelName_injective c c' : channelName c = channelName c' -> c = c'.
Proof. destruct c, c'; intros E; try reflexivity; vm_compute in E; discriminate. Qed.

Lemma triggerName_injective t t' : triggerName t = triggerName t' -> t = t'.
Proof. destruct t, t'; intros E; try reflexivity; vm_compute in E; discriminate. Qed.

Lemma makeDedupeKey_parts u e c t o :
  makeDedupeKey u e c t o
  = intToString u ++ 58%N :: intToString e ++ 58%N :: channelName c
    ++ 58%N :: triggerName t ++ 58%N :: intToString o.
Proof. reflexivity. Qed.

Lemma makeDedupeKey_injective_aux u e c t o u' e' c' t' o' :
  makeDedupeKey u e c t o = makeDedupeKey u' e' c' t' o' ->
  u = u' /\ e = e' /\ c = c' /\ t = t' /\ o = o'.
Proof.
  intros E. rewrite !makeDedupeKey_parts in E.
  apply split_at_colon in E; try apply intToString_no_colon.
  destruct E as [Eu E].
  apply split_at_colon in E; try apply intToString_no_colon.
  destruct E as [Ee E].
  apply split_at_colon in E; try apply channelName_no_colon.
  destruct E as [Ec E].
  apply split_at_colon in E; try apply triggerName_no_colon.
  destruct E as [Et Eo].
  repeat split;
    auto using intToString_injective, channelName_injective, triggerName_injective.
Qed.

(** Two schedules have the same dedupe key only if they are of the same
    user, event, channel, trigger and offset: the key, a text, loses
    nothing of the five values it is made of. *)
Theorem makeDedupeKey_injective :
  forall (u e : Z) (c : Channel) (t : Trigger) (o : Z)
         (u' e' : Z) (c' : Channel) (t' : Trigger) (o' : Z),
    makeDedupeKey u e c t o = makeDedupeKey u' e' c' t' o' ->
    u = u' /\ e = e' /\ c = c' /\ t = t' /\ o = o'.
Proof.
  intros u e c t o u' e' c' t' o'. apply makeDedupeKey_injective_aux.
Qed.

Lemma makeDedupeKey_injective_witness :
  makeDedupeKey 7 12 EMAIL BEFORE_END 60 = lit "7:12:EMAIL:BEFORE_END:60"
  /\ makeDedupeKey 7 12 EMAIL BEFORE_END 60 = makeDedupeKey (3 + 4) 12 EMAIL BEFORE_END 60
  /\ (7 = 3 + 4 /\ 12 = 12 /\ EMAIL = EMAIL /\ BEFORE_END = BEFORE_END /\ 60 = 60).
Proof.
  split; [vm_compute; reflexivity|]. split; [reflexivity|].
  apply (makeDedupeKey_injective 7 12 EMAIL BEFORE_END 60 (3 + 4) 12 EMAIL
           BEFORE_END 60).
  reflexivity.
Defined.

(** *** Rows that a plan does not reach *)

(** Every row of [rows] whose key is not in [K] is in [rows'] as it is. *)
Definition keepsOthers (K : list jsstring) (rows rows' : list ScheduleRow) : Prop :=
  forall r, In r rows -> ~ In (ns_dedupe_key r) K -> In r rows'.

Lemma keepsOthers_refl rows : keepsOthers [] rows rows.
Proof. intros r H _. exact H. Qed.

Lemma keepsOthers_trans K1 K2 a b c :
  keepsOthers K1 a b -> keepsOthers K2 b c -> keepsOthers (K1 ++ K2) a c.
Proof.
  intros H1 H2 r Hin Hk. apply H2; [apply H1|]; auto;
    intros H; apply Hk, in_or_app; auto.
Qed.

Lemma upsert_keepsOthers now db u ev rule t :
  keepsOthers [keyOf u ev rule] (notification_schedules db)
              (notification_schedules (upsertSchedule now db u ev rule t)).
Proof.
  intros r Hin Hk. rewrite upsert_rows. destruct (existsb _ _).
  - apply in_map_iff. exists r. split; [|exact Hin].
    destruct (str_eqb (ns_dedupe_key r) (keyOf u ev rule)) eqn:E; [|reflexivity].
    apply str_eqb_eq in E. exfalso. apply Hk. simpl. auto.
  - apply in_or_app. auto.
Qed.

Lemma planRules_keepsOthers now ev u rules : forall st,
  keepsOthers (ruleKeys now ev u rules)
              (notification_schedules (fst (fst st)))
              (notification_schedules
                 (fst (fst (fold_left (planRule now ev u) rules st)))).
Proof.
  induction rules as [|rule rules IH]; intros [[db p] s]; cbn [fold_left fst].
  - apply keepsOthers_refl.
  - unfold ruleKeys. cbn [filter].
    destruct (passes now rule ev) eqn:Hp.
    + destruct (planRule_passes now ev u db p s rule Hp) as (t & ->).
      change (keepsOthers ([keyOf u ev rule] ++ ruleKeys now ev u rules)
                (notification_schedules db)
                (notification_schedules
                   (fst (fst (fold_left (planRule now ev u) rules
                                (upsertSchedule now db u ev rule t, p + 1, s)))))).
      eapply keepsOthers_trans; [apply upsert_keepsOthers|].
      apply (IH (upsertSchedule now db u ev rule t, p + 1, s)).
    + rewrite (planRule_fails now ev u db p s rule Hp).
      apply (IH (db, p, s + 1)).
Qed.

Lemma planEntries_keepsOthers now ev (entries : list (Z * list RuleRow)) :
  forall st,
    keepsOthers (entriesKeys now ev entries)
                (notification_schedules (fst (fst st)))
                (notification_schedules
                   (fst (fst (fold_left
                                (fun st entry =>
                                   fold_left (planRule now ev (fst entry)) (snd entry) st)
                                entries st)))).
Proof.
  induction entries as [|[u rules] entries IH]; intros st; cbn [fold_left].
  - apply keepsOthers_refl.
  - cbn [entriesKeys flat_map]. eapply keepsOthers_trans; [|apply IH].
    apply planRules_keepsOthers.
Qed.

Lemma planForEventAndUsers_keepsOthers now db ev uid :
  keepsOthers (planKeys now db ev uid)
              (notification_schedules db)
              (notification_schedules (fst (fst (planForEventAndUsers now db ev uid)))).
Proof.
  unfold planForEventAndUsers, planKeys, groupedRules.
  destruct (negb _); [apply keepsOthers_refl|].
  destruct (getTargetUsersForRegion db (ev_region_id ev) uid) eqn:E.
  - apply keepsOthers_refl.
  - apply (planEntries_keepsOthers now ev _ (db, 0, 0)).
Qed.

(** The users of the grouped rules are target users. *)
Lemma groupedRules_users db ev uid u rules :
  In (u, rules) (groupedRules db ev uid) ->
  In u (getTargetUsersForRegion db (ev_region_id ev) uid).
Proof.
  unfold groupedRules.
  generalize (getTargetUsersForRegion db (ev_region_id ev) uid) as us.
  assert (H : forall us (m : list (Z * list RuleRow)) e,
             In e (fold_left
                     (fun m userId =>
                        Map_set m userId
                          (getEligibleRulesForEvent db ev (Some userId)))
                     us m) ->
             In e m \/ In (fst e) us).
  { induction us as [|x us IH]; intros m e; simpl; [auto|].
    intros Hin. apply IH in Hin. destruct Hin as [Hin | Hin]; [|auto].
    apply Map_set_In in Hin. destruct Hin as [-> | Hin]; simpl; auto. }
  intros us Hin. destruct (H us [] (u, rules) Hin) as [[] | Hu]. exact Hu.
Qed.

(** A key of a plan is the key of a target user and the event. *)
Lemma planKeys_shape now db ev uid k :
  In k (planKeys now db ev uid) ->
  exists u rule,
    In u (getTargetUsersForRegion db (ev_region_id ev) uid)
    /\ k = keyOf u ev rule.
Proof.
  unfold planKeys. destruct (negb _); [intros []|].
  unfold entriesKeys. rewrite in_flat_map. intros ([u rules] & Hin & Hk).
  unfold ruleKeys in Hk. cbn [fst snd] in Hk. apply in_map_iff in Hk.
  destruct Hk as (rule & <- & _). exists u, rule.
  split; [eapply groupedRules_users; eassumption | reflexivity].
Qed.

Lemma getEvent_id db eventId ev : getEvent db eventId = Some ev -> ev_id ev = eventId.
Proof.
  unfold getEvent. intros H. apply find_some in H. destruct H as [_ H].
  apply Z.eqb_eq in H. exact H.
Qed.

(** [planNotificationsForEvent] reaches the schedules of its event only: a
    row of another event that carries the key of its columns is in the
    table afterwards exactly as it was. *)
Theorem plan_leaves_other_events :
  forall (now : Z) (db : Db) (eventId : Z) (r : ScheduleRow),
    In r (notification_schedules db) ->
    keyed r ->
    ns_event_id r <> eventId ->
    In r (notification_schedules (fst (planNotificationsForEvent now db eventId))).
Proof.
  intros now db eventId r Hin Hkey Hne.
  unfold planNotificationsForEvent.
  destruct (getEvent db eventId) as [ev|] eqn:Hev; [|exact Hin].
  fold (purgeEvent db eventId).
  pose proof (planForEventAndUsers_keepsOthers now (purgeEvent db eventId) ev None)
    as H.
  pose proof (planKeys_shape now (purgeEvent db eventId) ev None) as Hshape.
  destruct (planForEventAndUsers now (purgeEvent db eventId) ev None)
    as [[db2 p] s].
  cbn [fst] in *. apply H.
  - unfold purgeEvent. cbn. apply filter_In. split; [exact Hin|].
    apply negb_true_iff, andb_false_iff. left. apply Z.eqb_neq. exact Hne.
  - intros Hk. destruct (Hshape _ Hk) as (u & rule & _ & E).
    unfold keyed in Hkey. rewrite Hkey in E. unfold keyOf in E.
    apply makeDedupeKey_injective_aux in E. destruct E as (_ & E & _).
    apply getEvent_id in Hev. congruence.
Qed.

Lemma plan_leaves_other_events_witness :
  let other := mkSchedule 9 7 2 EMAIL ON_END 0 2000000000 PENDING
                 (mkPayload (lit "Other") PICKUP ON_END 0 EMAIL)
                 (makeDedupeKey 7 2 EMAIL ON_END 0) 0 0 in
  In other
     (notification_schedules
        (fst (planNotificationsForEvent Sample.now
                (Sample.db PUBLIC [Sample.pending; other]) 1))).
Proof.
  intros other.
  apply (plan_leaves_other_events Sample.now
           (Sample.db PUBLIC [Sample.pending; other]) 1 other).
  - simpl. auto.
  - reflexivity.
  - simpl. lia.
Defined.

Lemma distinct_In l : forall seen x, In x (distinct seen l) -> In x l.
Proof.
  induction l as [|a l IH]; intros seen x; simpl; [auto|].
  destruct (existsb _ _); simpl; [eauto|].
  intros [-> | H]; eauto.
Qed.

(** With a user id that is not 0 the target users are that user. *)
Lemma getTargetUsersForRegion_user db regionId userId u :
  userId <> 0 ->
  In u (getTargetUsersForRegion db regionId (Some userId)) -> u = userId.
Proof.
  intros Hne Hin. unfold getTargetUsersForRegion in Hin.
  apply distinct_In, in_map_iff in Hin. destruct Hin as (g & <- & Hg).
  apply filter_In in Hg. destruct Hg as [_ Hg].
  apply andb_true_iff in Hg. destruct Hg as [_ Hg].
  unfold userClause in Hg. destruct (Z.eqb_spec userId 0); [contradiction|].
  apply Z.eqb_eq in Hg. exact Hg.
Qed.

(** [rebuildSchedulesForUser] reaches the schedules of its user only: a row
    of another user that carries the key of its columns is in the table
    afterwards exactly as it was. *)
Theorem rebuild_leaves_other_users :
  forall (now : Z) (db : Db) (userId : Z) (r : ScheduleRow),
    userId <> 0 ->
    In r (notification_schedules db) ->
    keyed r ->
    ns_user_id r <> userId ->
    In r (notification_schedules (fst (rebuildSchedulesForUser now db userId))).
Proof.
  intros now db userId r Hu Hin Hkey Hne.
  assert (Hstep : forall d e,
             In r (notification_schedules d) ->
             In r (notification_schedules
                     (fst (fst (planForEventAndUsers now d e (Some userId)))))).
  { intros d e Hd.
    apply (planForEventAndUsers_keepsOthers now d e (Some userId) r Hd).
    intros Hk. destruct (planKeys_shape _ _ _ _ _ Hk) as (u & rule & Hin' & E).
    apply getTargetUsersForRegion_user in Hin'; [|exact Hu]. subst u.
    unfold keyed in Hkey. rewrite Hkey in E. unfold keyOf in E.
    apply makeDedupeKey_injective_aux in E. destruct E as (E & _).
    contradiction. }
  unfold rebuildSchedulesForUser.
  match goal with
  | |- context [fold_left ?f ?l ?st] =>
      assert (H : forall l' st',
                 In r (notification_schedules (fst (fst st'))) ->
                 In r (notification_schedules (fst (fst (fold_left f l' st')))));
      [| pose proof (H l st) as H'; destruct (fold_left f l st) as [[db2 p] s]]
  end.
  - induction l' as [|e l' IH]; intros [[d p] s] Hd; simpl fold_left.
    + exact Hd.
    + apply IH. pose proof (Hstep d e Hd) as H.
      destruct (planForEventAndUsers now d e (Some userId)) as [[d' p'] s'].
      exact H.
  - cbn [fst] in *. apply H'. cbn. apply filter_In. split; [exact Hin|].
    apply negb_true_iff, andb_false_iff. left. apply Z.eqb_neq. exact Hne.
Qed.

Lemma rebuild_leaves_other_users_witness :
  let other := mkSchedule 9 8 1 EMAIL ON_END 0 2000000000 PENDING
                 (mkPayload (lit "Pickup") PICKUP ON_END 0 EMAIL)
                 (makeDedupeKey 8 1 EMAIL ON_END 0) 0 0 in
  In other
     (notification_schedules
        (fst (rebuildSchedulesForUser Sample.now
                (Sample.db PUBLIC [Sample.pending; other]) 7))).
Proof.
  intros other.
  apply (rebuild_leaves_other_users Sample.now
           (Sample.db PUBLIC [Sample.pending; other]) 7 other).
  - lia.
  - simpl. auto.
  - reflexivity.
  - simpl. lia.
Defined.

(** *** The counters of a plan *)

Lemma distinct_fresh l : forall seen x,
  In x (distinct seen l) -> ~ In x seen.
Proof.
  induction l as [|a l IH]; intros seen x; simpl; [tauto|].
  destruct (existsb (Z.eqb a) seen) eqn:E; [apply IH|].
  intros [<- | H] Hs.
  - assert (existsb (Z.eqb a) seen = true); [|congruence].
    apply existsb_exists. exists a. split; [exact Hs | apply Z.eqb_refl].
  - apply (IH _ _ H). right. exact Hs.
Qed.

Lemma distinct_NoDup l : forall seen, NoDup (distinct seen l).
Proof.
  induction l as [|a l IH]; intros seen; simpl; [constructor|].
  destruct (existsb (Z.eqb a) seen); [apply IH|].
  constructor; [|apply IH].
  intros H. apply distinct_fresh in H. apply H. left. reflexivity.
Qed.

Lemma Map_set_fresh {V} (m : list (Z * V)) k v :
  ~ In k (map fst m) -> Map_set m k v = m ++ [(k, v)].
Proof.
  induction m as [|[k' v'] m IH]; simpl; intros H; [reflexivity|].
  destruct (Z.eqb_spec k' k); [tauto|]. rewrite IH; tauto.
Qed.

(** Over distinct users the map of the first loop has one entry for each
    user, in the order of the users. *)
Lemma Map_set_distinct {V} (g : Z -> V) us : forall m,
  NoDup us -> (forall u, In u us -> ~ In u (map fst m)) ->
  fold_left (fun m userId => Map_set m userId (g userId)) us m
  = m ++ map (fun u => (u, g u)) us.
Proof.
  induction us as [|u us IH]; intros m Hnd Hm; simpl.
  - rewrite app_nil_r. reflexivity.
  - inversion Hnd as [|x xs Hnin Hnd']; subst.
    rewrite Map_set_fresh by (apply Hm; left; reflexivity).
    rewrite IH; [rewrite <- app_assoc; reflexivity | exact Hnd' |].
    intros x Hx. rewrite map_app, in_app_iff. simpl.
    intros [H | [<- | []]]; [|contradiction].
    apply (Hm x); [right; exact Hx | exact H].
Qed.

Lemma groupedRules_entries db ev uid :
  groupedRules db ev uid
  = map (fun u => (u, getEligibleRulesForEvent db ev (Some u)))
        (getTargetUsersForRegion db (ev_region_id ev) uid).
Proof.
  unfold groupedRules.
  rewrite (Map_set_distinct (fun u => getEligibleRulesForEvent db ev (Some u)));
    [reflexivity | apply distinct_NoDup | intros u _ []].
Qed.

Lemma planRules_counts now ev u rules : forall st,
  let st' := fold_left (planRule now ev u) rules st in
  snd (fst st) <= snd (fst st') /\ snd st <= snd st'
  /\ snd (fst st') + snd st'
     = snd (fst st) + snd st + Z.of_nat (length rules).
Proof.
  induction rules as [|rule rules IH]; intros [[db p] s]; cbn [fold_left].
  - simpl. lia.
  - destruct (passes now rule ev) eqn:Hp.
    + destruct (planRule_passes now ev u db p s rule Hp) as (t & ->).
      specialize (IH (upsertSchedule now db u ev rule t, p + 1, s)).
      cbn [fst snd length] in *. lia.
    + rewrite (planRule_fails now ev u db p s rule Hp).
      specialize (IH (db, p, s + 1)). cbn [fst snd length] in *. lia.
Qed.

Lemma planEntries_counts now ev (entries : list (Z * list RuleRow)) : forall st,
  let st' := fold_left
               (fun st entry =>
                  fold_left (planRule now ev (fst entry)) (snd entry) st)
               entries st in
  snd (fst st) <= snd (fst st') /\ snd st <= snd st'
  /\ snd (fst st') + snd st'
     = snd (fst st) + snd st + Z.of_nat (length (flat_map snd entries)).
Proof.
  induction entries as [|[u rules] entries IH]; intros st; cbn [fold_left].
  - simpl. lia.
  - specialize (IH (fold_left (planRule now ev u) rules st)).
    pose proof (planRules_counts now ev u rules st) as H.
    cbn [fst snd flat_map] in *. rewrite length_app, Nat2Z.inj_add. lia.
Qed.

(** The rules that a plan of the event looks at: for every target user of
    the event's region, the eligible rules of that user. *)
Definition rulesInReach (db : Db) (ev : EventRow) (uid : option Z) : list RuleRow :=
  flat_map (fun u => getEligibleRulesForEvent db ev (Some u))
           (getTargetUsersForRegion db (ev_region_id ev) uid).

Lemma planForEventAndUsers_counts now db ev uid :
  visibility_is_public (ev_visibility ev) = true ->
  let st := planForEventAndUsers now db ev uid in
  0 <= snd (fst st) /\ 0 <= snd st
  /\ snd (fst st) + snd st = Z.of_nat (length (rulesInReach db ev uid)).
Proof.
  intros Hv. unfold rulesInReach.
  pose proof (groupedRules_entries db ev uid) as Hg. unfold groupedRules in Hg.
  unfold planForEventAndUsers. rewrite Hv. cbn [negb].
  destruct (getTargetUsersForRegion db (ev_region_id ev) uid) as [|u us] eqn:E.
  - simpl. lia.
  - rewrite Hg.
    match goal with
    | |- context [fold_left ?f ?entries ?st0] =>
        pose proof (planEntries_counts now ev entries st0) as H
    end.
    cbn zeta in H. cbv zeta.
    rewrite flat_map_concat_map, map_map, <- flat_map_concat_map in H.
    cbn [fst snd] in H. cbn [snd] in H. exact H.
Qed.

(** Every rule in reach of a plan is counted once: for a PUBLIC event the
    two counters that [planNotificationsForEvent] returns are not
    negative and add up to the number of eligible rules of the target
    users of the event's region. *)
Theorem plan_counts_every_rule_once :
  forall (now : Z) (db : Db) (eventId : Z) (ev : EventRow),
    getEvent db eventId = Some ev ->
    ev_visibility ev = PUBLIC ->
    let result := snd (planNotificationsForEvent now db eventId) in
    reason result = ok
    /\ 0 <= planned result /\ 0 <= skipped result
    /\ planned result + skipped result
       = Z.of_nat (length (rulesInReach db ev None)).
Proof.
  intros now db eventId ev Hev Hv. unfold planNotificationsForEvent.
  rewrite Hev. fold (purgeEvent db eventId).
  assert (Hp : visibility_is_public (ev_visibility ev) = true)
    by (rewrite Hv; reflexivity).
  pose proof (planForEventAndUsers_counts now (purgeEvent db eventId) ev None Hp)
    as H.
  cbv zeta in H.
  destruct (planForEventAndUsers now (purgeEvent db eventId) ev None)
    as [[db2 p] s].
  cbn [fst snd planned skipped reason] in *.
  split; [reflexivity|]. exact H.
Qed.

Lemma plan_counts_every_rule_once_witness :
  let result := snd (planNotificationsForEvent Sample.now
                       (Sample.db PUBLIC [Sample.pending]) 1) in
  reason result = ok
  /\ 0 <= planned result /\ 0 <= skipped result
  /\ planned result + skipped result = 3.
Proof.
  apply (plan_counts_every_rule_once Sample.now
           (Sample.db PUBLIC [Sample.pending]) 1 (Sample.pickup PUBLIC));
    reflexivity.
Defined.

(** *** Rules that are skipped *)

(** The test that skips a rule: no computed time, or one more than 5
    minutes before the clock. *)
Definition tooLateOrUndated (now : Z) (rule : RuleRow) (event : EventRow) : bool :=
  match computeScheduledAt now rule event with
  | None => true
  | Some t => t <? now - 5 * 60 * 1000
  end.

Lemma passes_tooLateOrUndated now rule event :
  passes now rule event = negb (tooLateOrUndated now rule event).
Proof.
  unfold passes, tooLateOrUndated.
  destruct (computeScheduledAt now rule event); reflexivity.
Qed.

Lemma tooLateOrUndated_spec now rule event :
  basisDate rule event = None
  \/ (exists t, computeScheduledAt now rule event = Some t
                /\ t < now - 5 * 60 * 1000) ->
  tooLateOrUndated now rule event = true.
Proof.
  unfold tooLateOrUndated. intros [Hb | (t & -> & Hlate)].
  - rewrite computeScheduledAt_basis, Hb. reflexivity.
  - apply Z.ltb_lt. exact Hlate.
Qed.

(** The test reads the trigger and the offset of the rule only. *)
Lemma tooLateOrUndated_shape now event rule rule' :
  rule_trigger rule = rule_trigger rule' ->
  offsetOr0 rule = offsetOr0 rule' ->
  tooLateOrUndated now rule event = tooLateOrUndated now rule' event.
Proof.
  intros Ht Ho. unfold tooLateOrUndated.
  rewrite !computeScheduledAt_basis. unfold basisDate. rewrite Ht, Ho.
  reflexivity.
Qed.

Lemma planRules_tally now ev u rules : forall st,
  let st' := fold_left (planRule now ev u) rules st in
  snd (fst st')
  = snd (fst st)
    + Z.of_nat (length (filter (fun r => negb (tooLateOrUndated now r ev)) rules))
  /\ snd st'
     = snd st + Z.of_nat (length (filter (fun r => tooLateOrUndated now r ev) rules)).
Proof.
  induction rules as [|rule rules IH]; intros [[db p] s]; cbn [fold_left].
  - simpl. lia.
  - cbn [filter]. destruct (passes now rule ev) eqn:Hp.
    + destruct (planRule_passes now ev u db p s rule Hp) as (t & ->).
      rewrite passes_tooLateOrUndated in Hp. apply negb_true_iff in Hp.
      rewrite Hp. cbn [negb].
      specialize (IH (upsertSchedule now db u ev rule t, p + 1, s)).
      cbn [fst snd length] in *. lia.
    + rewrite (planRule_fails now ev u db p s rule Hp).
      rewrite passes_tooLateOrUndated in Hp. apply negb_false_iff in Hp.
      rewrite Hp. cbn [negb].
      specialize (IH (db, p, s + 1)). cbn [fst snd length] in *. lia.
Qed.

Lemma planEntries_tally now ev (entries : list (Z * list RuleRow)) : forall st,
  let st' := fold_left
               (fun st entry =>
                  fold_left (planRule now ev (fst entry)) (snd entry) st)
               entries st in
  snd (fst st')
  = snd (fst st)
    + Z.of_nat (length (filter (fun r => negb (tooLateOrUndated now r ev))
                               (flat_map snd entries)))
  /\ snd st'
     = snd st
       + Z.of_nat (length (filter (fun r => tooLateOrUndated now r ev)
                                  (flat_map snd entries))).
Proof.
  induction entries as [|[u rules] entries IH]; intros st; cbn [fold_left].
  - simpl. lia.
  - specialize (IH (fold_left (planRule now ev u) rules st)).
    pose proof (planRules_tally now ev u rules st) as H.
    cbn [fst snd flat_map] in *.
    rewrite !filter_app, !length_app, !Nat2Z.inj_add. lia.
Qed.

Lemma planForEventAndUsers_tally now db ev uid :
  visibility_is_public (ev_visibility ev) = true ->
  let st := planForEventAndUsers now db ev uid in
  snd (fst st)
  = Z.of_nat (length (filter (fun r => negb (tooLateOrUndated now r ev))
                             (rulesInReach db ev uid)))
  /\ snd st
     = Z.of_nat (length (filter (fun r => tooLateOrUndated now r ev)
                                (rulesInReach db ev uid))).
Proof.
  intros Hv. unfold rulesInReach.
  pose proof (groupedRules_entries db ev uid) as Hg. unfold groupedRules in Hg.
  unfold planForEventAndUsers. rewrite Hv. cbn [negb].
  destruct (getTargetUsersForRegion db (ev_region_id ev) uid) as [|u us] eqn:E.
  - simpl. lia.
  - rewrite Hg.
    match goal with
    | |- context [fold_left ?f ?entries ?st0] =>
        pose proof (planEntries_tally now ev entries st0) as H
    end.
    cbn zeta in H. cbv zeta.
    rewrite flat_map_concat_map, map_map, <- flat_map_concat_map in H.
    cbn [fst snd] in H. cbn [snd] in H. rewrite !Z.add_0_l in H. exact H.
Qed.

(** A key of a plan is the key of a rule that passed the test. *)
Lemma planKeys_passed now db ev uid k :
  In k (planKeys now db ev uid) ->
  exists u rule, tooLateOrUndated now rule ev = false /\ k = keyOf u ev rule.
Proof.
  unfold planKeys. destruct (negb _); [intros []|].
  unfold entriesKeys. rewrite in_flat_map. intros ([u rules] & _ & Hk).
  unfold ruleKeys in Hk. cbn [fst snd] in Hk. apply in_map_iff in Hk.
  destruct Hk as (rule & <- & Hr). apply filter_In in Hr. destruct Hr as [_ Hp].
  rewrite passes_tooLateOrUndated in Hp. apply negb_true_iff in Hp.
  exists u, rule. auto.
Qed.

(** C9.  A rule in reach of [planNotificationsForEvent] (an eligible rule
    of a target user of the PUBLIC event) whose basis date is null
    (BEFORE_END with no end date, for one), or whose computed time is
    more than 5 minutes before the current time, is skipped.  It is
    counted: the call returns as [skipped] the number of such rules in
    reach, at least one, and as [planned] the number of the others.  No
    schedule row is created or updated for it: a row under the key of the
    rule after the call is a row of the table before the call. *)
Theorem late_or_undated_rule_is_skipped :
  forall (now : Z) (db : Db) (eventId : Z) (event : EventRow) (userId : Z)
         (rule : RuleRow),
    getEvent db eventId = Some event ->
    ev_visibility event = PUBLIC ->
    In userId (getTargetUsersForRegion db (ev_region_id event) None) ->
    In rule (getEligibleRulesForEvent db event (Some userId)) ->
    basisDate rule event = None
    \/ (exists t, computeScheduledAt now rule event = Some t
                  /\ t < now - 5 * 60 * 1000) ->
    let out := planNotificationsForEvent now db eventId in
    skipped (snd out)
    = Z.of_nat (length (filter (fun r => tooLateOrUndated now r event)
                               (rulesInReach db event None)))
    /\ planned (snd out)
       = Z.of_nat (length (filter (fun r => negb (tooLateOrUndated now r event))
                                  (rulesInReach db event None)))
    /\ 1 <= skipped (snd out)
    /\ (forall r, In r (notification_schedules (fst out)) ->
                  ns_dedupe_key r = keyOf userId event rule ->
                  In r (notification_schedules db)).
Proof.
  intros now db eventId event userId rule Hev Hv Hu Hr Hlate out.
  apply tooLateOrUndated_spec in Hlate.
  assert (Hp : visibility_is_public (ev_visibility event) = true)
    by (rewrite Hv; reflexivity).
  destruct (plan_touches now db eventId event Hev) as (Hrows & _ & _).
  fold out in Hrows.
  assert (Hcount : planned (snd out)
                   = Z.of_nat (length (filter (fun r => negb (tooLateOrUndated now r event))
                                              (rulesInReach db event None)))
                   /\ skipped (snd out)
                      = Z.of_nat (length (filter (fun r => tooLateOrUndated now r event)
                                                 (rulesInReach db event None)))).
  { unfold out, planNotificationsForEvent. rewrite Hev.
    fold (purgeEvent db eventId).
    pose proof (planForEventAndUsers_tally now (purgeEvent db eventId) event None Hp)
      as H.
    cbv zeta in H.
    destruct (planForEventAndUsers now (purgeEvent db eventId) event None)
      as [[db2 p] s].
    cbn [fst snd planned skipped] in *. exact H. }
  destruct Hcount as [Hpl Hsk].
  split; [exact Hsk|]. split; [exact Hpl|]. split.
  - rewrite Hsk.
    assert (Hin : In rule (filter (fun r => tooLateOrUndated now r event)
                                  (rulesInReach db event None))).
    { apply filter_In. split; [|exact Hlate].
      unfold rulesInReach. apply in_flat_map. exists userId. auto. }
    destruct (filter (fun r => tooLateOrUndated now r event)
                     (rulesInReach db event None)) as [|x l];
      [destruct Hin | cbn [length]; lia].
  - intros r Hin Hkey. destruct (Hrows r Hin) as [Hold | Hk].
    + unfold purgeEvent in Hold. cbn in Hold. apply filter_In in Hold. tauto.
    + exfalso. apply planKeys_passed in Hk.
      destruct Hk as (u' & rule' & Hpass & E). rewrite Hkey in E.
      unfold keyOf in E. apply makeDedupeKey_injective_aux in E.
      destruct E as (_ & _ & _ & Ht & Ho).
      rewrite (tooLateOrUndated_shape now event rule rule' Ht Ho) in Hlate.
      congruence.
Qed.

Lemma late_or_undated_rule_is_skipped_witness :
  let late := mkRule 3 7 GLOBAL None PICKUP ON_PUBLISH None DISCORD true in
  let out := planNotificationsForEvent Sample.now
               (Sample.db PUBLIC [Sample.pending]) 1 in
  computeScheduledAt Sample.now late (Sample.pickup PUBLIC) = Some 0
  /\ skipped (snd out) = 1
  /\ planned (snd out) = 2
  /\ 1 <= skipped (snd out)
  /\ (forall r, In r (notification_schedules (fst out)) ->
                ns_dedupe_key r = keyOf 7 (Sample.pickup PUBLIC) late ->
                In r (notification_schedules (Sample.db PUBLIC [Sample.pending]))).
Proof.
  intros late out. split; [reflexivity|].
  apply (late_or_undated_rule_is_skipped Sample.now
           (Sample.db PUBLIC [Sample.pending]) 1 (Sample.pickup PUBLIC) 7 late).
  - reflexivity.
  - reflexivity.
  - simpl. auto.
  - simpl. auto.
  - right. exists 0. split; [reflexivity | vm_compute; reflexivity].
Defined.

End PlanningProps.

(* ================================================================== *)
(** ** More on the raw notice store and the event upsert *)

Module NoticeProps.
Import JS Store Ingest IngestStore JSProps SchedulingProps IngestProps.
Local Open Scope Z_scope.

Lemma find_map_if {A} (p : A -> bool) (g : A -> A) l :
  (forall a, p a = true -> p (g a) = true) ->
  find p (map (fun a => if p a then g a else a) l) = option_map g (find p l).
Proof.
  intros Hg. induction l as [|a l IH]; simpl; [reflexivity|].
  destruct (p a) eqn:E.
  - rewrite (Hg a E). reflexivity.
  - rewrite E. exact IH.
Qed.

Lemma find_app_new {A} (p : A -> bool) l x :
  find p l = None -> p x = true -> find p (l ++ [x]) = Some x.
Proof.
  intros Hl Hx. induction l as [|a l IH]; simpl in *.
  - rewrite Hx. reflexivity.
  - destruct (p a); [discriminate | auto].
Qed.

(** The identity of a raw notice: its id, and its source and URL. *)
Definition sameIdentity (r r' : RawNoticeRow) : Prop :=
  rn_id r' = rn_id r /\ rn_source_id r' = rn_source_id r /\ rn_url r' = rn_url r.

(** The constraints of the table: the primary key drawn from the
    sequence, and [UNIQUE (source_id, url)]. *)
Definition rawOk (rows : list RawNoticeRow) (seq : Z) : Prop :=
  NoDup (map rn_id rows)
  /\ (forall r, In r rows -> rn_id r < seq)
  /\ NoDup (map (fun r => (rn_source_id r, rn_url r)) rows).

Definition rawTableOk (db : Db) : Prop :=
  rawOk (raw_notices db) (raw_notices_seq db).

Lemma rawOk_map (g : RawNoticeRow -> RawNoticeRow) rows seq seq' :
  (forall r, sameIdentity r (g r)) -> seq <= seq' ->
  rawOk rows seq -> rawOk (map g rows) seq'.
Proof.
  intros Hg Hseq (Hid & Hlt & Hkey). unfold rawOk. rewrite !map_map.
  rewrite (map_ext (fun r => rn_id (g r)) rn_id) by (intros r; apply Hg).
  rewrite (map_ext (fun r => (rn_source_id (g r), rn_url (g r)))
                   (fun r => (rn_source_id r, rn_url r)))
    by (intros r; destruct (Hg r) as (_ & -> & ->); reflexivity).
  repeat split; auto.
  intros r Hin. apply in_map_iff in Hin. destruct Hin as (r0 & <- & Hin).
  destruct (Hg r0) as (-> & _). specialize (Hlt r0 Hin). lia.
Qed.

Lemma sameNotice_key sourceId url r :
  sameNotice sourceId url r = true <-> (rn_source_id r, rn_url r) = (sourceId, url).
Proof.
  unfold sameNotice. rewrite andb_true_iff, Z.eqb_eq, str_eqb_eq.
  split; [intros [-> ->]; reflexivity | intros E; inversion E; auto].
Qed.

Lemma rawOk_new rows seq r :
  rn_id r = seq ->
  find (sameNotice (rn_source_id r) (rn_url r)) rows = None ->
  rawOk rows seq -> rawOk (rows ++ [r]) (seq + 1).
Proof.
  intros Hid Hfind (Hids & Hlt & Hkey). unfold rawOk. rewrite !map_app. simpl.
  repeat split.
  - apply NoDup_app; [exact Hids | repeat constructor; simpl; tauto |].
    intros x Hx [<- | []]. apply in_map_iff in Hx.
    destruct Hx as (r0 & E & Hin). specialize (Hlt r0 Hin). lia.
  - intros r0 Hin. apply in_app_iff in Hin. destruct Hin as [Hin | [<- | []]].
    + specialize (Hlt r0 Hin). lia.
    + lia.
  - apply NoDup_app; [exact Hkey | repeat constructor; simpl; tauto |].
    intros x Hx [<- | []]. apply in_map_iff in Hx.
    destruct Hx as (r0 & E & Hin).
    apply (find_none _ _ Hfind) in Hin.
    apply sameNotice_key in E. congruence.
Qed.

Section Notices.

Variable sha256 : jsstring -> jsstring.
Variable toLowerCase : jsstring -> jsstring.
Variable timestamptz_in : jsstring -> option Z.

Abbreviation upsertRawNotice := (upsertRawNotice sha256 timestamptz_in).
Abbreviation upsertEventFromRaw := (upsertEventFromRaw sha256 toLowerCase timestamptz_in).
Abbreviation processCandidate := (processCandidate sha256 toLowerCase timestamptz_in).
Abbreviation processCandidates := (processCandidates sha256 toLowerCase timestamptz_in).

(** What [upsertRawNotice] does, case by case. *)
Lemma upsertRawNotice_cases now db sourceId candidate :
  let h := sha256 (contentOf candidate) in
  let same := sameNotice sourceId (c_url candidate) in
  match castTimestamptz timestamptz_in (c_publishedAt candidate) with
  | None => upsertRawNotice now db sourceId candidate = (db, Thrown invalidTimestamp)
  | Some publishedAt =>
      match find same (raw_notices db) with
      | Some row =>
          if opt_str_eqb (rn_content_hash row) h then
            upsertRawNotice now db sourceId candidate
            = (set_raw_notices db
                 (map (fun r => if same r
                                then refreshRow now (c_title candidate) publishedAt r
                                else r) (raw_notices db))
                 (raw_notices_seq db),
               Returned (mkUpsertRaw (rn_id row) false))
          else
            upsertRawNotice now db sourceId candidate
            = (set_raw_notices db
                 (map (fun r => if same r
                                then overwriteRow now candidate publishedAt h r
                                else r) (raw_notices db))
                 (raw_notices_seq db + 1),
               Returned (mkUpsertRaw (rn_id row) true))
      | None =>
          upsertRawNotice now db sourceId candidate
          = (set_raw_notices db
               (raw_notices db ++
                  [mkRawNotice (raw_notices_seq db) sourceId (c_url candidate)
                     (c_title candidate) publishedAt now
                     (Some (c_contentText candidate)) (Some h)
                     (Some (c_rawPayload candidate)) (lit "v1") NEW])
               (raw_notices_seq db + 1),
             Returned (mkUpsertRaw (raw_notices_seq db) true))
      end
  end.
Proof.
  cbv zeta. unfold IngestStore.upsertRawNotice. fold (contentOf candidate).
  destruct (castTimestamptz _ _); [|reflexivity].
  destruct (find _ _); [|reflexivity].
  destruct (opt_str_eqb _ _); reflexivity.
Qed.

(** Fetching the same candidate again changes nothing: once
    [upsertRawNotice] has returned for a candidate, a later call for the
    same candidate returns the same id with [changed = false], and the
    loop body leaves the counters as they are. *)
Theorem same_candidate_again_is_unchanged :
  forall (now now' : Z) (db db1 : Db) (source : SourceRow)
         (candidate : RawCandidate) (first : UpsertRawResult)
         (counts : FetchCounts),
    upsertRawNotice now db (source_id source) candidate = (db1, Returned first) ->
    exists db2,
      upsertRawNotice now' db1 (source_id source) candidate
      = (db2, Returned (mkUpsertRaw (rawNoticeId first) false))
      /\ processCandidate now' source (db1, counts) candidate = (db2, counts).
Proof.
  intros now now' db db1 source candidate first counts H.
  assert (Hfound : exists row,
             find (sameNotice (source_id source) (c_url candidate)) (raw_notices db1)
             = Some row
             /\ rn_id row = rawNoticeId first
             /\ rn_content_hash row = Some (sha256 (contentOf candidate))
             /\ castTimestamptz timestamptz_in (c_publishedAt candidate) <> None).
  { pose proof (upsertRawNotice_cases now db (source_id source) candidate) as C.
    cbv zeta in C.
    destruct (castTimestamptz _ _) as [pub|]; [|rewrite C in H; discriminate].
    destruct (find _ (raw_notices db)) as [row|] eqn:Hf.
    - destruct (opt_str_eqb _ _) eqn:Hh; rewrite C in H; inversion H; subst;
        clear H C; cbn [raw_notices set_raw_notices];
        (rewrite find_map_if by (intros a Ha; exact Ha)); rewrite Hf;
        cbn [option_map]; eexists; (split; [reflexivity|]);
        cbn [rn_id rn_content_hash refreshRow overwriteRow rawNoticeId];
        repeat split; try discriminate.
      destruct (rn_content_hash row) as [h|]; [|discriminate].
      apply str_eqb_eq in Hh. congruence.
    - rewrite C in H; inversion H; subst; clear H C.
      cbn [raw_notices set_raw_notices]. eexists. split.
      + apply find_app_new; [exact Hf|].
        apply sameNotice_key. reflexivity.
      + cbn. repeat split. discriminate. }
  destruct Hfound as (row & Hf & Hid & Hh & Hc).
  pose proof (upsertRawNotice_cases now' db1 (source_id source) candidate) as C.
  cbv zeta in C. destruct (castTimestamptz _ _) as [pub|]; [|congruence].
  rewrite Hf, Hh in C. cbn [opt_str_eqb] in C. rewrite str_eqb_refl in C.
  rewrite Hid in C. eexists. split; [exact C|].
  unfold IngestStore.processCandidate. rewrite C. reflexivity.
Qed.

Lemma upsertRawNotice_ok now db sourceId candidate :
  rawTableOk db -> rawTableOk (fst (upsertRawNotice now db sourceId candidate)).
Proof.
  intros Hok. pose proof (upsertRawNotice_cases now db sourceId candidate) as C.
  cbv zeta in C. destruct (castTimestamptz _ _) as [pub|]; [|rewrite C; exact Hok].
  destruct (find _ _) as [row|] eqn:Hf.
  - destruct (opt_str_eqb _ _); rewrite C; unfold rawTableOk; cbn;
      (eapply rawOk_map; [| |exact Hok]; [|lia]);
      intros r; destruct (sameNotice _ _ r); repeat split.
  - rewrite C. unfold rawTableOk. cbn. apply rawOk_new; [reflexivity | exact Hf | exact Hok].
Qed.

(** What is parsed after a changed upsert is the candidate: under the
    constraints of the table, the row that [getRawNotice] reads for the
    id which [upsertRawNotice] returned with [changed = true] is the row
    of that source and URL, with the title and the text of the
    candidate, marked NEW. *)
Theorem changed_notice_is_read_back :
  forall (now : Z) (db db1 : Db) (sourceId : Z) (candidate : RawCandidate)
         (res : UpsertRawResult),
    rawTableOk db ->
    upsertRawNotice now db sourceId candidate = (db1, Returned res) ->
    changed res = true ->
    exists row,
      getRawNotice db1 (rawNoticeId res) = Some row
      /\ rn_source_id row = sourceId
      /\ rn_url row = c_url candidate
      /\ rn_title row = c_title candidate
      /\ rn_content_text row = Some (c_contentText candidate)
      /\ rn_content_hash row = Some (sha256 (contentOf candidate))
      /\ rn_status row = NEW.
Proof.
  intros now db db1 sourceId candidate res (Hids & Hlt & _) H Hch.
  pose proof (upsertRawNotice_cases now db sourceId candidate) as C.
  cbv zeta in C.
  destruct (castTimestamptz _ _) as [pub|]; [|rewrite C in H; discriminate].
  destruct (find _ (raw_notices db)) as [row|] eqn:Hf.
  - destruct (opt_str_eqb _ _); rewrite C in H; inversion H; subst; clear H C;
      [discriminate|].
    destruct (find_some _ _ Hf) as [Hin Hsame].
    exists (overwriteRow now candidate pub (sha256 (contentOf candidate)) row).
    split; [|apply sameNotice_key in Hsame; injection Hsame as H1 H2;
             cbn; repeat split; auto].
    unfold getRawNotice. cbn [raw_notices set_raw_notices rawNoticeId].
    clear Hlt Hf Hch. induction (raw_notices db) as [|a rows IH];
      [contradiction|].
    cbn [map find]. inversion Hids as [|x xs Hnin Hnd]; subst.
    destruct Hin as [-> | Hin].
    + rewrite Hsame. cbn [rn_id overwriteRow]. rewrite Z.eqb_refl. reflexivity.
    + assert (Hne : rn_id a <> rn_id row).
      { intros E. apply Hnin. rewrite E. apply in_map. exact Hin. }
      destruct (sameNotice _ _ a); cbn [rn_id overwriteRow];
        (destruct (Z.eqb_spec (rn_id a) (rn_id row)); [contradiction|]);
        apply IH; assumption.
  - rewrite C in H; inversion H; subst; clear H C.
    eexists. split; [|shelve].
    unfold getRawNotice. cbn [raw_notices set_raw_notices rawNoticeId].
    apply find_app_new; [|cbn; apply Z.eqb_refl].
    destruct (find (fun r => rn_id r =? raw_notices_seq db) (raw_notices db))
      as [r|] eqn:E; [|reflexivity].
    apply find_some in E. destruct E as [Hin E]. apply Z.eqb_eq in E.
    specialize (Hlt r Hin). lia.
    Unshelve. cbn. repeat split; reflexivity.
Qed.

(** *** The event upsert *)

(** The draft that [upsertEventFromRaw] parses from a raw notice, and the
    key it computes for it. *)
Definition draftOf (source : SourceRow) (raw : RawNoticeRow) : ParsedEventDraft :=
  parseRawNoticeToEventDraft toLowerCase
    (mkInput (rn_title raw)
             (match rn_content_text raw with Some t => t | None => [] end)
             (source_region_timezone source)).

Definition eventKeyOf (source : SourceRow) (raw : RawNoticeRow) : jsstring :=
  toCanonicalEventKey sha256 toLowerCase (source_region_id source)
    (d_type (draftOf source raw)) (d_title (draftOf source raw))
    (d_startAtUtc (draftOf source raw)) (d_endAtUtc (draftOf source raw)).

Definition hasKey (k : jsstring) (e : EventRow) : bool :=
  str_eqb (ev_canonical_event_key e) k.

Definition markParsed (id : Z) (r : RawNoticeRow) : RawNoticeRow :=
  if rn_id r =? id
  then mkRawNotice (rn_id r) (rn_source_id r) (rn_url r) (rn_title r)
         (rn_published_at r) (rn_fetched_at r) (rn_content_text r)
         (rn_content_hash r) (rn_raw_payload r) (rn_parser_version r) PARSED
  else r.

Definition isLink (eventId rawId : Z) (l : EventRawLink) : bool :=
  (erl_event_id l =? eventId) && (erl_raw_notice_id l =? rawId).

(** The tables that a returned [upsertEventFromRaw] leaves. *)
Lemma upsertEventFromRaw_returned now db source raw db' res :
  upsertEventFromRaw now db source raw = (db', Returned res) ->
  let draft := draftOf source raw in
  let key := eventKeyOf source raw in
  let hit := find (hasKey key) (events db) in
  let eventId := match hit with Some e => ev_id e | None => events_seq db end in
  exists startAt endAt,
    castTimestamptz timestamptz_in (d_startAtUtc draft) = Some startAt
    /\ castTimestamptz timestamptz_in (d_endAtUtc draft) = Some endAt
    /\ res = mkUpsertEvent eventId (d_visibility draft) (d_confidence draft)
    /\ events db'
       = match hit with
         | Some _ =>
             map (fun e => if hasKey key e
                           then mergeEvent now draft startAt endAt (rn_url raw) e
                           else e) (events db)
         | None =>
             events db ++
               [mkEvent (events_seq db) (source_region_id source) (d_type draft)
                        (d_title draft) (d_summary draft) startAt endAt
                        (rn_url raw) key (d_confidence draft)
                        (d_visibility draft) now now]
         end
    /\ events_seq db' = events_seq db + 1
    /\ event_raw_links db'
       = (if existsb (isLink eventId (rn_id raw)) (event_raw_links db)
          then event_raw_links db
          else event_raw_links db ++ [mkLink eventId (rn_id raw)])
    /\ raw_notices db' = map (markParsed (rn_id raw)) (raw_notices db)
    /\ raw_notices_seq db' = raw_notices_seq db.
Proof.
  intros H. cbv zeta. unfold IngestStore.upsertEventFromRaw in H.
  fold (draftOf source raw) in H. fold (eventKeyOf source raw) in H.
  destruct (castTimestamptz timestamptz_in (d_startAtUtc (draftOf source raw)))
    as [startAt|]; [|discriminate].
  destruct (castTimestamptz timestamptz_in (d_endAtUtc (draftOf source raw)))
    as [endAt|]; [|discriminate].
  cbv zeta in H. injection H as Hdb Hres. exists startAt, endAt.
  split; [reflexivity|]. split; [reflexivity|].
  split; [symmetry; exact Hres|].
  match type of Hdb with
  | fst (Scheduling.planNotificationsForEvent now ?d ?e) = _ =>
      pose proof (plan_sameOtherTables now d e) as Hs; rewrite Hdb in Hs
  end.
  destruct Hs as (He & Hes & _ & _ & _ & _ & _ & _ & Hr & Hrs & Hl & _).
  rewrite <- He, <- Hes, <- Hr, <- Hrs, <- Hl. clear.
  change (fun e => str_eqb (ev_canonical_event_key e) (eventKeyOf source raw))
    with (hasKey (eventKeyOf source raw)).
  unfold isLink.
  destruct (find (hasKey (eventKeyOf source raw)) (events db));
    destruct (existsb _ _); cbn; repeat split; reflexivity.
Qed.

Lemma isLink_eq eventId rawId l :
  isLink eventId rawId l = true <-> l = mkLink eventId rawId.
Proof.
  unfold isLink. rewrite andb_true_iff, !Z.eqb_eq. destruct l as [e r]; simpl.
  split; [intros [-> ->]; reflexivity | intros E; inversion E; auto].
Qed.

Lemma upsertEventFromRaw_links now db db' source raw res :
  upsertEventFromRaw now db source raw = (db', Returned res) ->
  In (mkLink (r_eventId res) (rn_id raw)) (event_raw_links db').
Proof.
  intros H.
  destruct (upsertEventFromRaw_returned _ _ _ _ _ _ H)
    as (startAt & endAt & _ & _ & -> & _ & _ & Hl & _ & _).
  cbn [r_eventId]. rewrite Hl. destruct (existsb _ _) eqn:E.
  - apply existsb_exists in E. destruct E as (l & Hin & E).
    apply isLink_eq in E. subst l. exact Hin.
  - apply in_or_app. right. left. reflexivity.
Qed.

(** When [upsertEventFromRaw] returns, the store holds an event with the
    returned id that carries what was parsed from the notice (type, title,
    visibility, the notice's URL as source URL), the link of
    that event to the notice, and the notice is marked PARSED. *)
Theorem event_upsert_stores_the_draft :
  forall (now : Z) (db db' : Db) (source : SourceRow) (raw : RawNoticeRow)
         (res : UpsertEventResult),
    upsertEventFromRaw now db source raw = (db', Returned res) ->
    (exists e,
        In e (events db') /\ ev_id e = r_eventId res
        /\ ev_canonical_event_key e = eventKeyOf source raw
        /\ ev_type e = d_type (draftOf source raw)
        /\ ev_title e = d_title (draftOf source raw)
        /\ ev_visibility e = r_visibility res
        /\ ev_source_url e = rn_url raw)
    /\ In (mkLink (r_eventId res) (rn_id raw)) (event_raw_links db')
    /\ (forall r, In r (raw_notices db') -> rn_id r = rn_id raw ->
                  rn_status r = PARSED).
Proof.
  intros now db db' source raw res H.
  destruct (upsertEventFromRaw_returned _ _ _ _ _ _ H)
    as (startAt & endAt & _ & _ & -> & He & _ & Hl & Hr & _).
  cbn [r_eventId r_visibility r_confidence]. rewrite He, Hl, Hr. clear.
  split; [|split].
  - destruct (find _ _) as [e|] eqn:Hf.
    + destruct (find_some _ _ Hf) as [Hin Hk].
      exists (mergeEvent now (draftOf source raw) startAt endAt (rn_url raw) e).
      split.
      * apply in_map_iff. exists e. rewrite Hk. auto.
      * apply str_eqb_eq in Hk. cbn. repeat split; auto.
    + eexists. split; [apply in_or_app; right; left; reflexivity|].
      cbn. repeat split; reflexivity.
  - destruct (existsb _ _) eqn:E.
    + apply existsb_exists in E. destruct E as (l & Hin & E).
      apply isLink_eq in E. subst l. exact Hin.
    + apply in_or_app. right. left. reflexivity.
  - intros r Hin Hid. apply in_map_iff in Hin. destruct Hin as (r0 & <- & _).
    unfold markParsed in *. destruct (Z.eqb_spec (rn_id r0) (rn_id raw));
      [reflexivity | contradiction].
Qed.

Lemma upsertEventFromRaw_again now now' db db1 source raw res :
  upsertEventFromRaw now db source raw = (db1, Returned res) ->
  exists db2,
    upsertEventFromRaw now' db1 source raw = (db2, Returned res)
    /\ map ev_id (events db2) = map ev_id (events db1)
    /\ map ev_canonical_event_key (events db2)
       = map ev_canonical_event_key (events db1)
    /\ event_raw_links db2 = event_raw_links db1.
Proof.
  intros H.
  pose proof (upsertEventFromRaw_links _ _ _ _ _ _ H) as Hlink.
  destruct (upsertEventFromRaw_returned _ _ _ _ _ _ H)
    as (startAt & endAt & Hs & He & Hres & Hev & _ & _ & _ & _).
  destruct (IngestStore.upsertEventFromRaw sha256 toLowerCase timestamptz_in
              now' db1 source raw) as [db2 out] eqn:H2.
  assert (Hout : exists res2, out = Returned res2).
  { unfold IngestStore.upsertEventFromRaw in H2.
    fold (draftOf source raw) in H2. rewrite Hs, He in H2.
    cbv zeta in H2. injection H2 as _ <-. eexists. reflexivity. }
  destruct Hout as (res2 & ->). exists db2.
  destruct (upsertEventFromRaw_returned _ _ _ _ _ _ H2)
    as (startAt' & endAt' & _ & _ & Hres2 & Hev2 & _ & Hl2 & _ & _).
  assert (Hhit : exists e,
             find (hasKey (eventKeyOf source raw)) (events db1) = Some e
             /\ ev_id e = r_eventId res).
  { rewrite Hev, Hres. cbn [r_eventId].
    destruct (find _ (events db)) as [e|] eqn:Hf.
    - rewrite find_map_if by (intros a Ha; exact Ha). rewrite Hf.
      eexists. split; [reflexivity|]. reflexivity.
    - eexists. split; [apply find_app_new; [exact Hf|] | reflexivity].
      apply str_eqb_refl. }
  destruct Hhit as (e & Hhit & Hid). rewrite Hhit in Hres2, Hev2, Hl2.
  rewrite Hid in Hres2, Hl2.
  assert (Hlinked : existsb (isLink (r_eventId res) (rn_id raw))
                            (event_raw_links db1) = true).
  { apply existsb_exists. eexists. split; [exact Hlink|].
    apply isLink_eq. reflexivity. }
  rewrite Hlinked in Hl2.
  split; [|split; [|split]].
  - rewrite Hres2, Hres. reflexivity.
  - rewrite Hev2, map_map. apply map_ext. intros a.
    destruct (hasKey _ a); reflexivity.
  - rewrite Hev2, map_map. apply map_ext. intros a.
    destruct (hasKey _ a); reflexivity.
  - exact Hl2.
Qed.

(** Parsing a notice again adds nothing: once [upsertEventFromRaw] has
    returned for a notice, a later call for the same notice returns the
    same result, and the table of events has the same ids and keys and
    the table of links the same rows as before that call. *)
Theorem event_upsert_again_adds_nothing :
  forall (now now' : Z) (db db1 : Db) (source : SourceRow)
         (raw : RawNoticeRow) (res : UpsertEventResult),
    upsertEventFromRaw now db source raw = (db1, Returned res) ->
    exists db2,
      upsertEventFromRaw now' db1 source raw = (db2, Returned res)
      /\ map ev_id (events db2) = map ev_id (events db1)
      /\ map ev_canonical_event_key (events db2)
         = map ev_canonical_event_key (events db1)
      /\ event_raw_links db2 = event_raw_links db1.
Proof.
  intros now now' db db1 source raw res. apply upsertEventFromRaw_again.
Qed.

Lemma upsertEventFromRaw_ok now db source raw :
  rawTableOk db -> rawTableOk (fst (upsertEventFromRaw now db source raw)).
Proof.
  intros Hok.
  destruct (IngestStore.upsertEventFromRaw sha256 toLowerCase timestamptz_in
              now db source raw) as [db' [res | e]] eqn:H.
  - destruct (upsertEventFromRaw_returned _ _ _ _ _ _ H)
      as (_ & _ & _ & _ & _ & _ & _ & _ & Hr & Hs).
    unfold rawTableOk. cbn [fst]. rewrite Hr, Hs.
    eapply rawOk_map; [| |exact Hok]; [|lia].
    intros r. unfold markParsed. destruct (_ =? _); repeat split.
  - unfold IngestStore.upsertEventFromRaw in H.
    destruct (castTimestamptz _ _); [destruct (castTimestamptz _ _)|];
      cbv zeta in H; inversion H; subst; exact Hok.
Qed.

Lemma markCandidateError_ok now db source candidate message :
  rawTableOk db -> rawTableOk (markCandidateError now db source candidate message).
Proof.
  intros Hok. unfold rawTableOk, markCandidateError. cbn.
  eapply rawOk_map; [| |exact Hok]; [|lia].
  intros r. destruct (sameNotice _ _ r); repeat split.
Qed.

Lemma processCandidate_ok now source st candidate :
  rawTableOk (fst st) ->
  rawTableOk (fst (processCandidate now source st candidate)).
Proof.
  destruct st as [db counts]. cbn [fst]. intros Hok.
  unfold IngestStore.processCandidate.
  pose proof (upsertRawNotice_ok now db (source_id source) candidate Hok) as H1.
  destruct (IngestStore.upsertRawNotice sha256 timestamptz_in now db
              (source_id source) candidate) as [db1 [up | e]]; cbn [fst] in *.
  - destruct (negb _); [exact H1|].
    destruct (getRawNotice db1 (rawNoticeId up)) as [raw|]; [|exact H1].
    pose proof (upsertEventFromRaw_ok now db1 source raw H1) as H2.
    destruct (IngestStore.upsertEventFromRaw sha256 toLowerCase timestamptz_in
                now db1 source raw) as [db2 [res | e]]; cbn [fst] in *.
    + exact H2.
    + apply markCandidateError_ok. exact H2.
  - apply markCandidateError_ok. exact H1.
Qed.

(** The loop over the candidates keeps the raw notices apart: when ids
    are distinct and below the sequence and no two rows share source and
    URL, the same holds after [processCandidates], whatever the
    candidates are and whichever of them fail. *)
Theorem fetch_keeps_one_row_per_url :
  forall (now : Z) (source : SourceRow) (db : Db)
         (candidates : list RawCandidate),
    rawTableOk db ->
    rawTableOk (fst (processCandidates now source db candidates)).
Proof.
  intros now source db candidates Hok. unfold IngestStore.processCandidates.
  change db with (fst (db, mkCounts 0 0)) in Hok.
  revert Hok. generalize (db, mkCounts 0 0) as st.
  induction candidates as [|c cs IH]; intros st Hok; cbn [fold_left].
  - exact Hok.
  - apply IH, processCandidate_ok, Hok.
Qed.

Lemma processCandidate_counts now source st candidate :
  let st' := processCandidate now source st candidate in
  parsedCount (snd st) <= parsedCount (snd st')
  /\ errorCount (snd st) <= errorCount (snd st')
  /\ parsedCount (snd st') + errorCount (snd st')
     <= parsedCount (snd st) + errorCount (snd st) + 1.
Proof.
  destruct st as [db counts]. cbv zeta. unfold IngestStore.processCandidate.
  destruct (IngestStore.upsertRawNotice _ _ _ _ _ _) as [db1 [up | e]];
    [|cbn; lia].
  destruct (negb _); [cbn; lia|].
  destruct (getRawNotice _ _); [|cbn; lia].
  destruct (IngestStore.upsertEventFromRaw _ _ _ _ _ _ _) as [db2 [res | e]];
    cbn; lia.
Qed.

Lemma processCandidates_counts now source db candidates :
  let counts := snd (processCandidates now source db candidates) in
  0 <= parsedCount counts /\ 0 <= errorCount counts
  /\ parsedCount counts + errorCount counts <= Z.of_nat (length candidates).
Proof.
  cbv zeta. unfold IngestStore.processCandidates.
  assert (H : forall cs st,
             let st' := fold_left (processCandidate now source) cs st in
             parsedCount (snd st) <= parsedCount (snd st')
             /\ errorCount (snd st) <= errorCount (snd st')
             /\ parsedCount (snd st') + errorCount (snd st')
                <= parsedCount (snd st) + errorCount (snd st)
                   + Z.of_nat (length cs)).
  { induction cs as [|c cs IH]; intros st; cbn [fold_left length].
    - cbv zeta. lia.
    - specialize (IH (processCandidate now source st c)).
      pose proof (processCandidate_counts now source st c) as Hc.
      cbv zeta in *. lia. }
  specialize (H candidates (db, mkCounts 0 0)). cbn [snd parsedCount errorCount] in H.
  cbv zeta in H. lia.
Qed.

(** The counters of the fetch loop: neither is negative, and together
    they count at most the candidates (an unchanged candidate counts in
    neither). *)
Theorem fetch_counts_are_bounded :
  forall (now : Z) (source : SourceRow) (db : Db)
         (candidates : list RawCandidate),
    let counts := snd (processCandidates now source db candidates) in
    0 <= parsedCount counts /\ 0 <= errorCount counts
    /\ parsedCount counts + errorCount counts <= Z.of_nat (length candidates).
Proof.
  intros now source db candidates. apply processCandidates_counts.
Qed.

End Notices.

(** *** The theorems at the example store *)

Module Refetch.

(** The stored notice of the example with a new text. *)
Definition edited : RawCandidate :=
  mkCandidate (lit "https://example.test/notice/1") (lit "Pickup notice")
              None (lit "Rate up 2026/03/01 10:00 ~ 2026/03/08 11:30")
              (RssPayload None []).

Definition editedRow : RawNoticeRow :=
  mkRawNotice 1 5 (lit "https://example.test/notice/1") (lit "Pickup notice")
              (Some 1772323200000) 1772323200000
              (Some (lit "Rate up 2026/03/01 10:00 ~ 2026/03/08 11:30"))
              (Some (Example.hash (contentOf edited)))
              (Some (RssPayload None [])) (lit "v1") NEW.

(** A store that accepts every text as the same time. *)
Definition anyTime (text : jsstring) : option Z := Some 1772326800000.

End Refetch.

Lemma example_db_ok : rawTableOk Example.db.
Proof.
  unfold rawTableOk, rawOk. cbn [raw_notices raw_notices_seq Example.db map].
  split; [|split].
  - constructor; [simpl; tauto | constructor].
  - intros r [<- | []]. cbn. lia.
  - constructor; [simpl; tauto | constructor].
Defined.

Lemma same_candidate_again_is_unchanged_witness :
  let db1 := fst (upsertRawNotice Example.hash Example.timestamptz Example.now
                    Example.db 5 Refetch.edited) in
  exists db2,
    upsertRawNotice Example.hash Example.timestamptz (Example.now + 60000) db1 5
                    Refetch.edited
    = (db2, Returned (mkUpsertRaw 1 false))
    /\ processCandidate Example.hash toLowerCaseBasicLatin Example.timestamptz
         (Example.now + 60000) Example.source (db1, mkCounts 1 0) Refetch.edited
       = (db2, mkCounts 1 0).
Proof.
  intros db1.
  apply (same_candidate_again_is_unchanged Example.hash toLowerCaseBasicLatin
           Example.timestamptz Example.now (Example.now + 60000) Example.db db1
           Example.source Refetch.edited (mkUpsertRaw 1 true) (mkCounts 1 0)).
  vm_compute. reflexivity.
Defined.

Lemma changed_notice_is_read_back_witness :
  let db1 := fst (upsertRawNotice Example.hash Example.timestamptz Example.now
                    Example.db 5 Refetch.edited) in
  exists row,
    getRawNotice db1 1 = Some row
    /\ rn_source_id row = 5
    /\ rn_url row = c_url Refetch.edited
    /\ rn_title row = c_title Refetch.edited
    /\ rn_content_text row = Some (c_contentText Refetch.edited)
    /\ rn_content_hash row = Some (Example.hash (contentOf Refetch.edited))
    /\ rn_status row = NEW.
Proof.
  intros db1.
  apply (changed_notice_is_read_back Example.hash Example.timestamptz
           Example.now Example.db db1 5 Refetch.edited (mkUpsertRaw 1 true)).
  - exact example_db_ok.
  - vm_compute. reflexivity.
  - reflexivity.
Defined.

Lemma event_upsert_stores_the_draft_witness :
  let db' := fst (upsertEventFromRaw Example.hash toLowerCaseBasicLatin
                    Refetch.anyTime Example.now Example.db Example.source
                    Refetch.editedRow) in
  (exists e,
      In e (events db') /\ ev_id e = 1
      /\ ev_canonical_event_key e
         = eventKeyOf Example.hash toLowerCaseBasicLatin Example.source
                      Refetch.editedRow
      /\ ev_type e
         = d_type (draftOf toLowerCaseBasicLatin Example.source Refetch.editedRow)
      /\ ev_title e
         = d_title (draftOf toLowerCaseBasicLatin Example.source Refetch.editedRow)
      /\ ev_visibility e = PUBLIC
      /\ ev_source_url e = rn_url Refetch.editedRow)
  /\ In (mkLink 1 1) (event_raw_links db')
  /\ (forall r, In r (raw_notices db') -> rn_id r = 1 -> rn_status r = PARSED).
Proof.
  intros db'.
  apply (event_upsert_stores_the_draft Example.hash toLowerCaseBasicLatin
           Refetch.anyTime Example.now Example.db db' Example.source
           Refetch.editedRow (mkUpsertEvent 1 PUBLIC 1%float)).
  vm_compute. reflexivity.
Defined.

Lemma event_upsert_again_adds_nothing_witness :
  let db1 := fst (upsertEventFromRaw Example.hash toLowerCaseBasicLatin
                    Refetch.anyTime Example.now Example.db Example.source
                    Refetch.editedRow) in
  exists db2,
    upsertEventFromRaw Example.hash toLowerCaseBasicLatin Refetch.anyTime
      (Example.now + 60000) db1 Example.source Refetch.editedRow
    = (db2, Returned (mkUpsertEvent 1 PUBLIC 1%float))
    /\ map ev_id (events db2) = map ev_id (events db1)
    /\ map ev_canonical_event_key (events db2)
       = map ev_canonical_event_key (events db1)
    /\ event_raw_links db2 = event_raw_links db1.
Proof.
  intros db1.
  apply (event_upsert_again_adds_nothing Example.hash toLowerCaseBasicLatin
           Refetch.anyTime Example.now (Example.now + 60000) Example.db db1
           Example.source Refetch.editedRow (mkUpsertEvent 1 PUBLIC 1%float)).
  vm_compute. reflexivity.
Defined.

Lemma fetch_keeps_one_row_per_url_witness :
  rawTableOk
    (fst (processCandidates Example.hash toLowerCaseBasicLatin
            Example.timestamptz Example.now Example.source Example.db
            [Example.candidate; Refetch.edited])).
Proof.
  apply (fetch_keeps_one_row_per_url Example.hash toLowerCaseBasicLatin
           Example.timestamptz Example.now Example.source Example.db
           [Example.candidate; Refetch.edited]).
  unfold rawTableOk, rawOk. cbn [raw_notices raw_notices_seq Example.db map].
  split; [|split].
  - constructor; [simpl; tauto | constructor].
  - intros r [<- | []]. cbn. lia.
  - constructor; [simpl; tauto | constructor].
Defined.

End NoticeProps.

(* ================================================================== *)
(** ** More on the dispatcher: the claim, and what a run can write *)

From Stdlib Require Import Sorted.

Module DeliveryProps.
Import JS Store Dispatch DispatchProps.
Local Open Scope Z_scope.

(** *** The claim *)

(** The row that the claim returns for a picked row. *)
Definition claimRow (now : Z) (r : ScheduleRow) : ScheduleRow :=
  mkSchedule (ns_id r) (ns_user_id r) (ns_event_id r) (ns_channel r)
             (ns_trigger_type r) (ns_trigger_offset_minutes r)
             (ns_scheduled_at_utc r) PROCESSING (ns_payload_json r)
             (ns_dedupe_key r) (ns_created_at r) now.

(** The rows that the claim picks. *)
Definition pickedRows (now limit : Z) (db : Db) : list ScheduleRow :=
  firstn (Z.to_nat limit)
         (orderByTime (filter (isDue now) (notification_schedules db))).

Definition isPicked (picked : list ScheduleRow) (r : ScheduleRow) : bool :=
  existsb (fun p => ns_id p =? ns_id r) picked.

Lemma claimDue_eq now limit db :
  claimDue now limit db
  = (set_schedules db
       (map (fun r => if isPicked (pickedRows now limit db) r
                      then claimRow now r else r)
            (notification_schedules db))
       (notification_schedules_seq db),
     map (claimRow now) (pickedRows now limit db)).
Proof. reflexivity. Qed.

Definition notLater (a b : ScheduleRow) : Prop :=
  ns_scheduled_at_utc a <= ns_scheduled_at_utc b.

Lemma insertByTime_perm r l : Permutation (insertByTime r l) (r :: l).
Proof.
  induction l as [|x l IH]; simpl; [reflexivity|].
  destruct (_ <? _); [reflexivity|].
  rewrite IH. apply perm_swap.
Qed.

Lemma orderByTime_perm l : Permutation (orderByTime l) l.
Proof.
  unfold orderByTime. rewrite (Permutation_rev l) at 2.
  induction (rev l) as [|x t IH]; simpl; [reflexivity|].
  rewrite insertByTime_perm, IH. reflexivity.
Qed.

Lemma insertByTime_sorted r l :
  StronglySorted notLater l -> StronglySorted notLater (insertByTime r l).
Proof.
  induction 1 as [|x l Hs IH Hx]; simpl.
  - repeat constructor.
  - destruct (Z.ltb_spec (ns_scheduled_at_utc r) (ns_scheduled_at_utc x)).
    + constructor; [constructor; assumption|].
      constructor; [unfold notLater; lia|].
      eapply Forall_impl; [|exact Hx]. unfold notLater. intros a Ha. lia.
    + constructor; [exact IH|].
      eapply Permutation_Forall; [symmetry; apply insertByTime_perm|].
      constructor; [unfold notLater; lia | exact Hx].
Qed.

Lemma orderByTime_sorted l : StronglySorted notLater (orderByTime l).
Proof.
  unfold orderByTime. induction (rev l) as [|x t IH]; simpl.
  - constructor.
  - apply insertByTime_sorted, IH.
Qed.

Lemma firstn_subset {A} n : forall (l : list A) x, In x (firstn n l) -> In x l.
Proof.
  induction n as [|n IH]; intros [|a l] x; simpl; try tauto.
  intros [-> | H]; auto.
Qed.

Lemma skipn_subset {A} n : forall (l : list A) x, In x (skipn n l) -> In x l.
Proof.
  induction n as [|n IH]; intros [|a l] x; simpl; try tauto.
  intros H; auto.
Qed.

(** In a sorted list the first [n] are before the rest. *)
Lemma firstn_before_rest {A} (R : A -> A -> Prop) n : forall l a b,
  StronglySorted R l -> In a (firstn n l) -> In b (skipn n l) -> R a b.
Proof.
  induction n as [|n IH]; intros l a b H Ha Hb; [destruct Ha|].
  destruct H as [|x l Hs Hx]; simpl in *; [destruct Ha|].
  destruct Ha as [<- | Ha].
  - rewrite Forall_forall in Hx. apply Hx. eapply skipn_subset. exact Hb.
  - eapply IH; eassumption.
Qed.

Lemma pickedRows_due now limit db p :
  In p (pickedRows now limit db) ->
  In p (notification_schedules db) /\ isDue now p = true.
Proof.
  unfold pickedRows. intros H. apply firstn_subset in H.
  apply (Permutation_in _ (orderByTime_perm _)) in H.
  apply filter_In in H. exact H.
Qed.

Lemma isDue_spec now r :
  isDue now r = true <-> ns_status r = PENDING /\ ns_scheduled_at_utc r <= now.
Proof.
  unfold isDue. rewrite andb_true_iff, Z.leb_le.
  destruct (ns_status r); simpl; intuition discriminate.
Qed.

Lemma isPicked_true picked r :
  isPicked picked r = true <-> In (ns_id r) (map ns_id picked).
Proof.
  unfold isPicked. rewrite existsb_exists, in_map_iff.
  split; intros (p & H1 & H2).
  - apply Z.eqb_eq in H2. eauto.
  - exists p. rewrite Z.eqb_eq. auto.
Qed.

Lemma existsb_map_claimRow now picked r :
  existsb (fun s => ns_id s =? ns_id r) (map (claimRow now) picked)
  = existsb (fun p => ns_id p =? ns_id r) picked.
Proof.
  induction picked as [|p picked IH]; [reflexivity|].
  cbn [map existsb claimRow ns_id]. rewrite IH. reflexivity.
Qed.

(** The claim takes the earliest due schedules, whatever the order in
    which the store returns them and however it orders rows of one time:
    for a limit that is not negative it claims as many rows as are due,
    up to the limit; every claimed row is the PROCESSING copy of a row of
    the table that was PENDING with its time reached; a due row that was
    not claimed is not earlier than any claimed row; and in the table the
    rows under a claimed id are PROCESSING and every other row is as it
    was. *)
Theorem claim_takes_the_earliest_due :
  forall (now limit : Z) (db : Db),
    0 <= limit ->
    let claimed := snd (claimDue now limit db) in
    let due := filter (isDue now) (notification_schedules db) in
    Z.of_nat (length claimed) = Z.min limit (Z.of_nat (length due))
    /\ (forall s, In s claimed ->
          ns_status s = PROCESSING
          /\ ns_scheduled_at_utc s <= now
          /\ exists r, In r (notification_schedules db)
                       /\ ns_status r = PENDING /\ s = claimRow now r)
    /\ (forall r s, In r (notification_schedules db) -> isDue now r = true ->
          ~ In (ns_id r) (map ns_id claimed) ->
          In s claimed -> notLater s r)
    /\ (forall r, In r (notification_schedules db) ->
          In (if existsb (fun s => ns_id s =? ns_id r) claimed
              then claimRow now r else r)
             (notification_schedules (fst (claimDue now limit db)))).
Proof.
  intros now limit db Hl claimed due. subst claimed due.
  rewrite claimDue_eq. cbn [fst snd].
  split; [|split; [|split]].
  - rewrite length_map. unfold pickedRows. rewrite length_firstn.
    rewrite (Permutation_length (orderByTime_perm _)). lia.
  - intros s Hs. apply in_map_iff in Hs. destruct Hs as (p & <- & Hp).
    apply pickedRows_due in Hp. destruct Hp as [Hin Hdue].
    apply isDue_spec in Hdue. destruct Hdue as [Hst Ht].
    split; [reflexivity|]. split; [exact Ht|]. exists p. auto.
  - intros r s Hin Hdue Hnot Hs.
    apply in_map_iff in Hs. destruct Hs as (p & <- & Hp).
    change (notLater p r).
    assert (Hr : In r (orderByTime (filter (isDue now) (notification_schedules db)))).
    { apply (Permutation_in _ (Permutation_sym (orderByTime_perm _))).
      apply filter_In. auto. }
    rewrite <- (firstn_skipn (Z.to_nat limit)) in Hr. apply in_app_iff in Hr.
    destruct Hr as [Hr | Hr].
    + exfalso. apply Hnot. rewrite map_map. cbn [claimRow ns_id].
      apply in_map. exact Hr.
    + eapply firstn_before_rest; [apply orderByTime_sorted | exact Hp | exact Hr].
  - intros r Hin. cbn [notification_schedules set_schedules].
    apply in_map_iff. exists r. split; [|exact Hin].
    unfold isPicked. rewrite existsb_map_claimRow. reflexivity.
Qed.

(** Two schedules of the example: one due, one of a later time. *)
Module Queue.

Definition later : ScheduleRow :=
  mkSchedule 2 7 1 WEBPUSH ON_END 0 5000 PENDING
             (mkPayload (lit "Pickup") PICKUP ON_END 0 WEBPUSH)
             (Scheduling.makeDedupeKey 7 1 WEBPUSH ON_END 0) 0 0.

Definition db : Db :=
  mkDb [] 1 [] [] [Example.due; later] 3 [] 1 []
       [mkUser 7 (Some (lit "user@example.test"))] [] 1 [] [].

End Queue.

Lemma claim_takes_the_earliest_due_witness :
  let claimed := snd (claimDue 9000 1 Queue.db) in
  let due := filter (isDue 9000) (notification_schedules Queue.db) in
  map ns_id due = [1; 2]
  /\ map ns_id claimed = [1]
  /\ Z.of_nat (length claimed) = Z.min 1 (Z.of_nat (length due))
  /\ (forall s, In s claimed ->
        ns_status s = PROCESSING
        /\ ns_scheduled_at_utc s <= 9000
        /\ exists r, In r (notification_schedules Queue.db)
                     /\ ns_status r = PENDING /\ s = claimRow 9000 r)
  /\ (forall r s, In r (notification_schedules Queue.db) ->
        isDue 9000 r = true ->
        ~ In (ns_id r) (map ns_id claimed) ->
        In s claimed -> notLater s r)
  /\ (forall r, In r (notification_schedules Queue.db) ->
        In (if existsb (fun s => ns_id s =? ns_id r) claimed
            then claimRow 9000 r else r)
           (notification_schedules (fst (claimDue 9000 1 Queue.db)))).
Proof.
  split; [reflexivity|]. split; [reflexivity|].
  apply (claim_takes_the_earliest_due 9000 1 Queue.db). lia.
Defined.

(** A schedule is claimed once: a claim that follows another, at whatever
    time and with whatever limit, returns no schedule that the first one
    returned. *)
Theorem claimed_schedule_is_not_claimed_again :
  forall (now limit now' limit' : Z) (db : Db) (s1 s2 : ScheduleRow),
    In s1 (snd (claimDue now limit db)) ->
    In s2 (snd (claimDue now' limit' (fst (claimDue now limit db)))) ->
    ns_id s1 <> ns_id s2.
Proof.
  intros now limit now' limit' db s1 s2 H1 H2.
  rewrite (claimDue_eq now' limit') in H2. rewrite claimDue_eq in H1, H2.
  cbn [fst snd] in *.
  apply in_map_iff in H1. destruct H1 as (p1 & <- & Hp1).
  apply in_map_iff in H2. destruct H2 as (p2 & <- & Hp2).
  cbn [claimRow ns_id].
  apply pickedRows_due in Hp2. destruct Hp2 as [Hin Hdue].
  apply isDue_spec in Hdue. destruct Hdue as [Hst _].
  cbn [notification_schedules set_schedules] in Hin.
  apply in_map_iff in Hin. destruct Hin as (r & E & _).
  destruct (isPicked (pickedRows now limit db) r) eqn:Hp.
  - subst p2. discriminate.
  - subst p2. intros Heq.
    assert (isPicked (pickedRows now limit db) r = true); [|congruence].
    apply isPicked_true. rewrite <- Heq. apply in_map. exact Hp1.
Qed.

Lemma claimed_schedule_is_not_claimed_again_witness :
  map ns_id (snd (claimDue Example.now 1 Queue.db)) = [1]
  /\ map ns_id (snd (claimDue 9000 10 (fst (claimDue Example.now 1 Queue.db))))
     = [2]
  /\ ns_id (claimRow Example.now Example.due) <> ns_id (claimRow 9000 Queue.later).
Proof.
  split; [reflexivity|]. split; [reflexivity|].
  apply (claimed_schedule_is_not_claimed_again Example.now 1 9000 10 Queue.db
           (claimRow Example.now Example.due) (claimRow 9000 Queue.later)).
  - simpl. auto.
  - vm_compute. auto.
Defined.

(** *** What a run writes, whatever fails *)

(** The user of the schedule can be reached on its channel: a push
    subscription for WEBPUSH, a non-empty email address for EMAIL; no
    user can be reached on DISCORD. *)
Definition reachable (db : Db) (s : ScheduleRow) : Prop :=
  match ns_channel s with
  | WEBPUSH =>
      exists p, In p (push_subscriptions db) /\ ps_user_id p = ns_user_id s
  | EMAIL =>
      exists u c rest,
        find (fun u => user_id u =? ns_user_id s) (users db) = Some u
        /\ user_email u = Some (c :: rest)
  | DISCORD => False
  end.

(** A delivery row written for one of the schedules [S], as SUCCESS only
    when the user can be reached. *)
Definition writtenFor (db : Db) (S : list ScheduleRow) (d : DeliveryRow) : Prop :=
  exists s, In s S /\ nd_schedule_id d = ns_id s
            /\ (nd_result d = SUCCESS -> reachable db s).

(** From [db] to [db'] the delivery log grew by rows for [S], the rows of
    other schedules are as they were, and so are the users and their
    subscriptions. *)
Definition wrote (S : list ScheduleRow) (db db' : Db) : Prop :=
  push_subscriptions db' = push_subscriptions db
  /\ users db' = users db
  /\ (exists ds, notification_deliveries db' = notification_deliveries db ++ ds
                 /\ Forall (writtenFor db S) ds)
  /\ (forall r, In r (notification_schedules db) ->
                ~ In (ns_id r) (map ns_id S) ->
                In r (notification_schedules db')).

Lemma reachable_same db db' s :
  push_subscriptions db' = push_subscriptions db -> users db' = users db ->
  reachable db' s -> reachable db s.
Proof. unfold reachable. intros -> ->. auto. Qed.

Lemma wrote_refl S db : wrote S db db.
Proof.
  repeat split; auto. exists []. rewrite app_nil_r. auto.
Qed.

Lemma wrote_trans S1 S2 a b c :
  wrote S1 a b -> wrote S2 b c -> wrote (S1 ++ S2) a c.
Proof.
  intros (Hp1 & Hu1 & (ds1 & Hd1 & Hf1) & Hr1) (Hp2 & Hu2 & (ds2 & Hd2 & Hf2) & Hr2).
  split; [congruence|]. split; [congruence|]. split.
  - exists (ds1 ++ ds2). split; [rewrite Hd2, Hd1, app_assoc; reflexivity|].
    apply Forall_app. split.
    + eapply Forall_impl; [|exact Hf1]. intros d (s & Hs & Hid & Hok).
      exists s. rewrite in_app_iff. auto.
    + eapply Forall_impl; [|exact Hf2]. intros d (s & Hs & Hid & Hok).
      exists s. rewrite in_app_iff. repeat split; auto.
      intros E. eapply reachable_same; eauto.
  - intros r Hin Hn. rewrite map_app, in_app_iff in Hn.
    apply Hr2; [apply Hr1|]; tauto.
Qed.

Lemma wrote_same S a b c : wrote S a b -> wrote S b c -> wrote S a c.
Proof.
  intros H1 H2. pose proof (wrote_trans _ _ _ _ _ H1 H2) as (Hp & Hu & (ds & Hd & Hf) & Hr).
  repeat split; auto.
  - exists ds. split; [exact Hd|]. eapply Forall_impl; [|exact Hf].
    intros d (s & Hs & H). exists s. rewrite in_app_iff in Hs. tauto.
  - intros r Hin Hn. apply Hr; [exact Hin|]. rewrite map_app, in_app_iff. tauto.
Qed.

Lemma insertDelivery_wrote now s res msg rp db :
  (res = SUCCESS -> reachable db s) ->
  wrote [s] db (fst (insertDelivery now (ns_id s) res msg rp db)).
Proof.
  intros Hok. unfold insertDelivery. cbn. repeat split; auto.
  eexists. split; [reflexivity|]. constructor; [|constructor].
  exists s. cbn. auto.
Qed.

Lemma updateStatus_wrote now s res db :
  wrote [s] db (fst (updateStatus now (ns_id s) res db)).
Proof.
  unfold updateStatus. cbn. repeat split; auto.
  - exists []. rewrite app_nil_r. auto.
  - intros r Hin Hn. apply in_map_iff. exists r. split; [|exact Hin].
    unfold setStatus. destruct (Z.eqb_spec (ns_id r) (ns_id s)); [|reflexivity].
    exfalso. apply Hn. simpl. auto.
Qed.

Lemma markScheduleResult_wrote now s res msg rp w0 w :
  wrote [s] (w_db w0) (w_db w) ->
  (res = SUCCESS -> reachable (w_db w) s) ->
  holds (markScheduleResult now (ns_id s) res msg rp) w
        (fun w' _ => wrote [s] (w_db w0) (w_db w')).
Proof.
  intros H0 Hok. unfold markScheduleResult.
  apply holds_bind, holds_query; cbn [w_db].
  - intros fs. exact H0.
  - intros fs. apply holds_query; cbn [w_db].
    + intros fs'. eapply wrote_same; [exact H0|].
      apply insertDelivery_wrote, Hok.
    + intros fs'. eapply wrote_same; [exact H0|].
      eapply wrote_same; [apply insertDelivery_wrote, Hok|].
      apply updateStatus_wrote.
Qed.

Lemma deliver_wrote now c s w :
  holds (deliver now c s) w (fun w' _ => wrote [s] (w_db w) (w_db w')).
Proof.
  unfold deliver.
  assert (Hmark : forall w1 res msg rp (c' : Counters),
             wrote [s] (w_db w) (w_db w1) ->
             (res = SUCCESS -> reachable (w_db w1) s) ->
             holds (markScheduleResult now (ns_id s) res msg rp ;;; ret c') w1
                   (fun w' _ => wrote [s] (w_db w) (w_db w'))).
  { intros w1 res msg rp c' H1 Hok. apply holds_bind.
    eapply holds_weaken; [apply (markScheduleResult_wrote now s res msg rp w w1 H1 Hok)|].
    intros w' [u | e] H; [apply holds_ret|]; exact H. }
  apply holds_tryCatch.
  assert (Hcatch : forall w1 (o : Outcome Counters),
             wrote [s] (w_db w) (w_db w1) ->
             match o with
             | Returned a => wrote [s] (w_db w) (w_db w1)
             | Thrown e =>
                 holds (markScheduleResult now (ns_id s) DELIVERY_FAILED (Some e)
                          (channelOnly (ns_channel s)) ;;;
                        ret (mkCounters (sent c) (failed c + 1))) w1
                       (fun w' _ => wrote [s] (w_db w) (w_db w'))
             end).
  { intros w1 [a | e] H; [exact H|]. apply Hmark; [exact H | discriminate]. }
  eapply holds_weaken; [|exact Hcatch].
  destruct (ns_channel s) eqn:Hch.
  - apply holds_bind, holds_query; cbn [w_db fst snd].
    + intros fs. apply wrote_refl.
    + intros fs.
      destruct (Nat.ltb 0 (length (filter (fun p => ps_user_id p =? ns_user_id s)
                                          (push_subscriptions (w_db w))))) eqn:E;
        cbn [negb].
      * apply Hmark; [apply wrote_refl|]. intros _. cbn [w_db].
        unfold reachable. rewrite Hch.
        destruct (filter _ _) as [|p ps] eqn:Hf; [discriminate|].
        assert (Hin : In p (filter (fun p => ps_user_id p =? ns_user_id s)
                                   (push_subscriptions (w_db w))))
          by (rewrite Hf; left; reflexivity).
        apply filter_In in Hin. destruct Hin as [Hin Hp].
        apply Z.eqb_eq in Hp. eauto.
      * apply Hmark; [apply wrote_refl | discriminate].
  - apply holds_bind, holds_query; cbn [w_db fst snd].
    + intros fs. apply wrote_refl.
    + intros fs.
      destruct (find (fun u => user_id u =? ns_user_id s) (users (w_db w)))
        as [u|] eqn:Hu; [destruct (user_email u) as [[|ch rest]|] eqn:He|];
        cbn [negb];
        (apply Hmark; [apply wrote_refl|]); try discriminate.
      intros _. cbn [w_db]. unfold reachable. rewrite Hch.
      exists u, ch, rest. auto.
  - apply Hmark; [apply wrote_refl | discriminate].
Qed.

Lemma deliverAll_wrote now schedules : forall c w,
  holds (deliverAll now c schedules) w
        (fun w' _ => wrote schedules (w_db w) (w_db w')).
Proof.
  induction schedules as [|s rest IH]; intros c w; cbn [deliverAll].
  - apply holds_ret, wrote_refl.
  - apply holds_bind.
    eapply holds_weaken; [apply (deliver_wrote now c s w)|].
    intros w1 [c1 | e] H1.
    + eapply holds_weaken; [apply (IH c1 w1)|].
      intros w2 o H2. apply (wrote_trans [s] rest _ _ _ H1 H2).
    + destruct H1 as (Hp & Hu & (ds & Hd & Hf) & Hr). repeat split; auto.
      * exists ds. split; [exact Hd|]. eapply Forall_impl; [|exact Hf].
        intros d (s0 & [<- | []] & H). exists s. simpl. auto.
      * intros r Hin Hn. apply Hr; [exact Hin|]. simpl in *. tauto.
Qed.

(** What a run of the dispatcher leaves, from the store before it. *)
Lemma dispatch_wrote now limit w :
  let out := dispatchDueNotifications now limit w in
  let claimed := snd (claimDue now limit (w_db w)) in
  wrote claimed (w_db w) (w_db (fst out)).
Proof.
  cbv zeta.
  assert (H : holds (dispatchDueNotifications now limit) w
                    (fun w' _ => wrote (snd (claimDue now limit (w_db w)))
                                       (w_db w) (w_db w')));
    [|exact H].
  unfold dispatchDueNotifications. apply holds_bind, holds_query; cbn [w_db].
  - intros fs. apply wrote_refl.
  - intros fs. apply holds_bind.
    eapply holds_weaken; [apply deliverAll_wrote|]. cbn [w_db].
    intros w2 o H2.
    assert (H1 : wrote (snd (claimDue now limit (w_db w))) (w_db w)
                       (fst (claimDue now limit (w_db w)))).
    { rewrite claimDue_eq. cbn [fst snd]. repeat split; cbn; auto.
      - exists []. rewrite app_nil_r. auto.
      - intros r Hin Hn. apply in_map_iff. exists r. split; [|exact Hin].
        destruct (isPicked _ r) eqn:E; [|reflexivity].
        exfalso. apply Hn. apply isPicked_true in E.
        rewrite map_map. exact E. }
    pose proof (wrote_same _ _ _ _ H1 H2) as H.
    destruct o as [c | e]; [apply holds_ret|]; exact H.
Qed.

(** Whatever calls on the store fail and however the run ends, the
    dispatcher only adds to the delivery log, every row it adds is for a
    schedule it claimed, and a row it adds says SUCCESS only for a user
    who can be reached on the channel of the schedule: never for DISCORD,
    never for WEBPUSH without a subscription, never for EMAIL without an
    address. *)
Theorem success_is_logged_for_reachable_users_only :
  forall (now limit : Z) (w : World),
    let out := dispatchDueNotifications now limit w in
    let claimed := snd (claimDue now limit (w_db w)) in
    exists ds,
      notification_deliveries (w_db (fst out))
      = notification_deliveries (w_db w) ++ ds
      /\ Forall (fun d =>
                   exists s, In s claimed /\ nd_schedule_id d = ns_id s
                             /\ (nd_result d = SUCCESS -> reachable (w_db w) s))
                ds.
Proof.
  intros now limit w. cbv zeta.
  destruct (dispatch_wrote now limit w) as (_ & _ & H & _). exact H.
Qed.

Lemma NoDup_map_same {A B} (f : A -> B) l a b :
  NoDup (map f l) -> In a l -> In b l -> f a = f b -> a = b.
Proof.
  induction l as [|x l IH]; simpl; intros Hnd Ha Hb E; [contradiction|].
  inversion Hnd as [|y ys Hnin Hnd']; subst.
  destruct Ha as [-> | Ha], Hb as [-> | Hb]; auto.
  - exfalso. apply Hnin. rewrite E. apply in_map. exact Hb.
  - exfalso. apply Hnin. rewrite <- E. apply in_map. exact Ha.
Qed.

(** A schedule that is not due is not touched: a row that is not PENDING,
    or whose time has not come, is in the table after the run exactly as
    it was, whatever calls on the store failed. *)
Theorem dispatch_leaves_what_is_not_due :
  forall (now limit : Z) (w : World) (r : ScheduleRow),
    NoDup (map ns_id (notification_schedules (w_db w))) ->
    In r (notification_schedules (w_db w)) ->
    isDue now r = false ->
    In r (notification_schedules
            (w_db (fst (dispatchDueNotifications now limit w)))).
Proof.
  intros now limit w r Hnd Hin Hdue.
  destruct (dispatch_wrote now limit w) as (_ & _ & _ & H).
  apply H; [exact Hin|]. rewrite claimDue_eq. cbn [snd].
  rewrite map_map. cbn [claimRow ns_id]. intros Hid.
  apply in_map_iff in Hid. destruct Hid as (p & E & Hp).
  apply pickedRows_due in Hp. destruct Hp as [Hp Hd].
  assert (p = r) by (eapply NoDup_map_same; eauto). subst p. congruence.
Qed.

Lemma dispatch_leaves_what_is_not_due_witness :
  In Queue.later
     (notification_schedules
        (w_db (fst (dispatchDueNotifications Example.now 100
                      (mkWorld Queue.db Example.statusUpdateFails))))).
Proof.
  apply (dispatch_leaves_what_is_not_due Example.now 100
           (mkWorld Queue.db Example.statusUpdateFails) Queue.later).
  - cbn. constructor; [simpl; intuition lia|].
    constructor; [simpl; tauto | constructor].
  - simpl. auto.
  - reflexivity.
Defined.

Lemma dispatch_returns_settled_witness :
  let w := mkWorld Queue.db Example.statusUpdateFails in
  let out := dispatchDueNotifications Example.now 100 w in
  let claimed := snd (claimDue Example.now 100 Queue.db) in
  picked (mkDispatchResult 1 0 1) = length claimed
  /\ Z.of_nat (picked (mkDispatchResult 1 0 1)) = 0 + 1
  /\ forall s, In s claimed -> settled (w_db (fst out)) (ns_id s).
Proof.
  apply (dispatch_returns_settled Example.now 100
           (mkWorld Queue.db Example.statusUpdateFails)
           (fst (dispatchDueNotifications Example.now 100
                   (mkWorld Queue.db Example.statusUpdateFails)))
           (mkDispatchResult 1 0 1)).
  vm_compute. reflexivity.
Defined.

End DeliveryProps.

(* ================================================================== *)
(** ** Properties of the runs *)

Module FetchProps.
Import JS Store Ingest IngestStore SourceFetch JSProps SchedulingProps
       IngestProps NoticeProps.
Local Open Scope Z_scope.

Lemma getSourceById_id st sourceId j :
  getSourceById st sourceId = Some j -> src_id (j_source j) = sourceId.
Proof.
  unfold getSourceById.
  destruct (find _ (sources _)) as [s|] eqn:Hs; [|discriminate].
  destruct (find _ (regions _)) as [r|]; [|discriminate].
  destruct (find _ (games _)) as [g|]; [|discriminate].
  intros E. inversion E; subst; clear E. cbn.
  apply find_some in Hs. destruct Hs as [_ Hs]. apply Z.eqb_eq in Hs. exact Hs.
Qed.

Lemma insertBySuccess_length s l :
  length (insertBySuccess s l) = S (length l).
Proof.
  induction l as [|x l IH]; cbn [insertBySuccess]; [reflexivity|].
  destruct (_ <? _); cbn [length]; [reflexivity|]. rewrite IH. reflexivity.
Qed.

Lemma orderBySuccess_length l : length (orderBySuccess l) = length l.
Proof.
  unfold orderBySuccess. rewrite <- (length_rev l).
  induction (rev l) as [|x t IH]; [reflexivity|].
  cbn [fold_right]. rewrite insertBySuccess_length, IH. reflexivity.
Qed.

Section Runs.

Variable sha256 : jsstring -> jsstring.
Variable toLowerCase : jsstring -> jsstring.
Variable timestamptz_in : jsstring -> option Z.
Variable fetchRssEntries : JoinedSource -> Outcome (list RawCandidate).
Variable fetchHtmlEntries : JoinedSource -> Outcome (list RawCandidate).

Abbreviation fetchRawCandidates :=
  (fetchRawCandidates fetchRssEntries fetchHtmlEntries).
Abbreviation runSourceFetch :=
  (runSourceFetch sha256 toLowerCase timestamptz_in fetchRssEntries
                  fetchHtmlEntries).
Abbreviation runDueSourceFetches :=
  (runDueSourceFetches sha256 toLowerCase timestamptz_in fetchRssEntries
                       fetchHtmlEntries).
Abbreviation reparseRawNotice :=
  (reparseRawNotice sha256 toLowerCase timestamptz_in).

(** A run of an enabled source that returns reports what it logs: the
    summary counts the candidates that were fetched, its two other
    counters are not negative and count no more than those, its status is
    PARTIAL exactly when a candidate failed, one row with the same
    numbers is added to [ingest_runs], and the source is left with
    [last_success_at] set and no error message, also when candidates
    failed. *)
Theorem returned_run_reports_what_it_logs :
  forall (now : Z) (st st' : FetchStore) (sourceId : Z) (mode : FetchMode)
         (source : JoinedSource) (summary : RunSourceFetchSummary),
    getSourceById st sourceId = Some source ->
    src_enabled (j_source source) = true ->
    runSourceFetch now st sourceId mode = (st', Returned summary) ->
    exists candidates run,
      fetchRawCandidates source = Returned candidates
      /\ s_sourceId summary = sourceId /\ s_mode summary = mode
      /\ s_fetchedCount summary = Z.of_nat (length candidates)
      /\ 0 <= s_parsedCount summary /\ 0 <= s_errorCount summary
      /\ s_parsedCount summary + s_errorCount summary <= s_fetchedCount summary
      /\ (s_status summary = SUMMARY_PARTIAL <-> 0 < s_errorCount summary)
      /\ ingest_runs st' = ingest_runs st ++ [run]
      /\ ir_source_id run = Some sourceId
      /\ ir_mode run = runModeOf mode
      /\ ir_status run = runStatusOf (s_status summary)
      /\ ir_fetched_count run = s_fetchedCount summary
      /\ ir_parsed_count run = s_parsedCount summary
      /\ ir_error_count run = s_errorCount summary
      /\ (forall s, In s (sources (fs_db st')) -> src_id s = sourceId ->
            src_last_success_at s = Some now
            /\ src_last_error_message s = None).
Proof.
  intros now st st' sourceId mode source summary Hget Hen Hrun.
  pose proof (getSourceById_id _ _ _ Hget) as Hid.
  unfold SourceFetch.runSourceFetch in Hrun. rewrite Hget, Hen in Hrun.
  cbn [negb] in Hrun.
  destruct (SourceFetch.fetchRawCandidates fetchRssEntries fetchHtmlEntries source)
    as [candidates | message] eqn:Hfetch; [|cbv zeta in Hrun; discriminate].
  pose proof (processCandidates_counts sha256 toLowerCase timestamptz_in now
                (toSourceRow source) (fs_db st) candidates) as Hc.
  cbv zeta in Hc, Hrun.
  destruct (processCandidates sha256 toLowerCase timestamptz_in now
              (toSourceRow source) (fs_db st) candidates) as [db1 counts].
  cbn [snd] in Hc. injection Hrun as Hst Hsum. subst st' summary.
  exists candidates. eexists. split; [reflexivity|].
  cbn [s_sourceId s_mode s_fetchedCount s_parsedCount s_errorCount s_status
       ingest_runs logIngestRun with_db fs_db].
  split; [exact Hid|]. split; [reflexivity|]. split; [reflexivity|].
  split; [lia|]. split; [lia|]. split; [lia|].
  split.
  { destruct (Z.gtb_spec (errorCount counts) 0) as [Hgt | Hle]; split;
      intros E; try reflexivity; try discriminate; lia. }
  split; [reflexivity|].
  cbn. rewrite Hid. do 6 (split; [reflexivity|]).
  intros s Hs Hs0. apply in_map_iff in Hs. destruct Hs as (s0 & <- & _).
  destruct (Z.eqb_spec (src_id s0) sourceId); cbn; [auto|].
  cbn in Hs0. contradiction.
Qed.

(** An enabled source of type API cannot be fetched: every run throws,
    adds a FAILED row with error count 1 to [ingest_runs], writes the
    message into the source, and touches no notice, event or schedule. *)
Theorem api_source_run_fails :
  forall (now : Z) (st : FetchStore) (sourceId : Z) (mode : FetchMode)
         (source : JoinedSource),
    getSourceById st sourceId = Some source ->
    src_enabled (j_source source) = true ->
    src_type (j_source source) = API ->
    let message := lit "API source type is not implemented yet" in
    let out := runSourceFetch now st sourceId mode in
    snd out = Thrown message
    /\ ingest_runs (fst out)
       = ingest_runs st ++
           [mkRun (ingest_runs_seq st) (Some sourceId) (runModeOf mode)
                  RUN_FAILED 0 0 1 message now now]
    /\ (forall s, In s (sources (fs_db (fst out))) -> src_id s = sourceId ->
          src_last_error_message s = Some message
          /\ src_last_error_at s = Some now)
    /\ raw_notices (fs_db (fst out)) = raw_notices (fs_db st)
    /\ events (fs_db (fst out)) = events (fs_db st)
    /\ notification_schedules (fs_db (fst out))
       = notification_schedules (fs_db st).
Proof.
  intros now st sourceId mode source Hget Hen Htype. cbv zeta.
  pose proof (getSourceById_id _ _ _ Hget) as Hid.
  unfold SourceFetch.runSourceFetch, SourceFetch.fetchRawCandidates.
  rewrite Hget, Hen, Htype. cbn [negb fst snd]. rewrite Hid.
  split; [reflexivity|]. split; [reflexivity|].
  split; [|repeat split].
  intros s H H0. cbn in H. apply in_map_iff in H. destruct H as (s0 & <- & _).
  destruct (Z.eqb_spec (src_id s0) sourceId); cbn; [auto|].
  cbn in H0. contradiction.
Qed.

(** The outcome of the loop of [runDueSourceFetches]: one row for every
    source it was given, under the id of that source. *)
Lemma runDueOne_ids now rows : forall st done,
  map ds_sourceId
      (snd (fold_left (runDueOne sha256 toLowerCase timestamptz_in
                         fetchRssEntries fetchHtmlEntries now) rows (st, done)))
  = map ds_sourceId done ++ map src_id rows.
Proof.
  induction rows as [|row rows IH]; intros st done; cbn [fold_left].
  - rewrite app_nil_r. reflexivity.
  - unfold runDueOne at 2.
    destruct (SourceFetch.runSourceFetch sha256 toLowerCase timestamptz_in
                fetchRssEntries fetchHtmlEntries now st (src_id row) SCHEDULED)
      as [st' [summary | message]] eqn:Hrun.
    + rewrite IH, map_app, <- app_assoc. cbn [map ds_sourceId app].
      f_equal. f_equal. unfold SourceFetch.runSourceFetch in Hrun.
      destruct (getSourceById st (src_id row)) as [source|] eqn:Hget;
        [|discriminate].
      pose proof (getSourceById_id _ _ _ Hget) as Hid.
      destruct (negb _); [inversion Hrun; reflexivity|].
      destruct (SourceFetch.fetchRawCandidates _ _ _);
        [|cbv zeta in Hrun; discriminate].
      cbv zeta in Hrun. destruct (processCandidates _ _ _ _ _ _ _).
      inversion Hrun. cbn. exact Hid.
    + rewrite IH, map_app, <- app_assoc. reflexivity.
Qed.

(** Every due source is reported, whether its run returns or throws:
    [runDueSourceFetches] returns one summary for each of the first
    [limit] enabled sources that were never fetched or whose interval has
    passed, in the order in which it picked them. *)
Theorem every_due_source_is_reported :
  forall (now limit : Z) (st : FetchStore),
    0 <= limit ->
    let res := snd (runDueSourceFetches now limit st) in
    let due := filter (isDueSource now) (sources (fs_db st)) in
    processedSources res = length (summaries res)
    /\ Z.of_nat (processedSources res) = Z.min limit (Z.of_nat (length due))
    /\ map ds_sourceId (summaries res)
       = map src_id (firstn (Z.to_nat limit) (orderBySuccess due)).
Proof.
  intros now limit st Hl. cbv zeta. unfold SourceFetch.runDueSourceFetches.
  pose proof (runDueOne_ids now
                (firstn (Z.to_nat limit)
                   (orderBySuccess (filter (isDueSource now) (sources (fs_db st)))))
                st []) as H.
  destruct (fold_left _ _ _) as [st' done]. cbn [snd map app] in *.
  cbn [processedSources summaries]. split; [reflexivity|]. split; [|exact H].
  apply (f_equal (@length Z)) in H. rewrite !length_map in H.
  rewrite H, length_firstn.
  rewrite orderBySuccess_length. lia.
Qed.

(** *** Parsing a stored notice again *)

Lemma getRawNotice_markParsed rows id raw :
  find (fun r => rn_id r =? id) rows = Some raw ->
  find (fun r => rn_id r =? id) (map (markParsed id) rows)
  = Some (markParsed id raw).
Proof.
  induction rows as [|r rows IH]; cbn [map find]; [discriminate|].
  unfold markParsed at 1. destruct (rn_id r =? id) eqn:E.
  - cbn [rn_id]. rewrite E. intros H. inversion H; subst.
    unfold markParsed. rewrite E. reflexivity.
  - rewrite E. exact IH.
Qed.

(** [upsertEventFromRaw] does not read the status of the notice. *)
Lemma upsertEventFromRaw_markParsed now db source raw :
  upsertEventFromRaw sha256 toLowerCase timestamptz_in now db source
                     (markParsed (rn_id raw) raw)
  = upsertEventFromRaw sha256 toLowerCase timestamptz_in now db source raw.
Proof.
  unfold markParsed. rewrite Z.eqb_refl. reflexivity.
Qed.

Lemma upsertEventFromRaw_sources now db source raw :
  sources (fst (upsertEventFromRaw sha256 toLowerCase timestamptz_in now db
                  source raw))
  = sources db.
Proof.
  unfold upsertEventFromRaw.
  destruct (castTimestamptz _ _); [|reflexivity].
  destruct (castTimestamptz _ _); [|reflexivity].
  cbv zeta. cbn [fst].
  match goal with
  | |- sources (fst (Scheduling.planNotificationsForEvent now ?d ?e)) = _ =>
      pose proof (plan_sameOtherTables now d e) as Hs
  end.
  destruct Hs as (_ & _ & _ & _ & _ & _ & _ & _ & _ & _ & _ & Hs).
  rewrite <- Hs. destruct (existsb _ _); reflexivity.
Qed.

(** A notice can be parsed again at will: once [reparseRawNotice] has
    returned for a notice, a later call for it returns the same event,
    adds no event and no link, and writes one more REPARSE row, of one
    fetched and one parsed notice, to [ingest_runs]. *)
Theorem reparse_again_adds_nothing :
  forall (now now' : Z) (st st1 : FetchStore) (rawNoticeId : Z)
         (res : UpsertEventResult),
    reparseRawNotice now st rawNoticeId = (st1, Returned res) ->
    exists st2 run,
      reparseRawNotice now' st1 rawNoticeId = (st2, Returned res)
      /\ map ev_id (events (fs_db st2)) = map ev_id (events (fs_db st1))
      /\ event_raw_links (fs_db st2) = event_raw_links (fs_db st1)
      /\ ingest_runs st2 = ingest_runs st1 ++ [run]
      /\ ir_mode run = REPARSE /\ ir_status run = RUN_SUCCESS
      /\ ir_fetched_count run = 1 /\ ir_parsed_count run = 1
      /\ ir_error_count run = 0.
Proof.
  intros now now' st st1 rawNoticeId res H.
  unfold SourceFetch.reparseRawNotice in H.
  destruct (getRawNotice (fs_db st) rawNoticeId) as [raw|] eqn:Hraw;
    [|discriminate].
  destruct (getSourceById st (rn_source_id raw)) as [source|] eqn:Hsrc;
    [|discriminate].
  destruct (upsertEventFromRaw sha256 toLowerCase timestamptz_in now (fs_db st)
              (toSourceRow source) raw) as [db1 [res1 | e]] eqn:Hup;
    [|discriminate].
  injection H as Hst Hres. subst res1.
  assert (Hdb : fs_db st1 = db1) by (rewrite <- Hst; reflexivity).
  assert (Hreg : regions st1 = regions st) by (rewrite <- Hst; reflexivity).
  assert (Hgam : games st1 = games st) by (rewrite <- Hst; reflexivity).
  clear Hst.
  assert (Hid : rn_id raw = rawNoticeId).
  { unfold getRawNotice in Hraw. apply find_some in Hraw.
    destruct Hraw as [_ Hraw]. apply Z.eqb_eq in Hraw. exact Hraw. }
  destruct (upsertEventFromRaw_returned _ _ _ _ _ _ _ _ _ Hup)
    as (_ & _ & _ & _ & _ & _ & _ & _ & Hrows & _).
  destruct (upsertEventFromRaw_again sha256 toLowerCase timestamptz_in
              now now' _ _ _ _ _ Hup) as (db2 & Hup2 & Hev & _ & Hl).
  assert (Hraw1 : getRawNotice (fs_db st1) rawNoticeId
                  = Some (markParsed (rn_id raw) raw)).
  { unfold getRawNotice in *. rewrite Hdb, Hrows, Hid.
    apply getRawNotice_markParsed. exact Hraw. }
  assert (Hsrc1 : getSourceById st1 (rn_source_id raw) = Some source).
  { unfold getSourceById in *. rewrite Hdb, Hreg, Hgam.
    pose proof (upsertEventFromRaw_sources now (fs_db st) (toSourceRow source) raw)
      as Hs. rewrite Hup in Hs. cbn [fst] in Hs. rewrite Hs. exact Hsrc. }
  unfold SourceFetch.reparseRawNotice. rewrite Hraw1. cbv beta iota.
  replace (rn_source_id (markParsed (rn_id raw) raw)) with (rn_source_id raw)
    by (unfold markParsed; destruct (_ =? _); reflexivity).
  rewrite Hsrc1. cbv beta iota.
  rewrite upsertEventFromRaw_markParsed, Hdb, Hup2.
  eexists. eexists. split; [reflexivity|].
  cbn [fs_db logIngestRun with_db ingest_runs].
  split; [exact Hev|]. split; [exact Hl|]. split; [reflexivity|].
  cbn. repeat split.
Qed.

End Runs.

(** *** The theorems at an example store *)

Module Hub.

Definition feed (type : SourceType) (enabled : bool) : SourceTableRow :=
  mkSourceRow 5 1 type (lit "https://example.test/") None enabled 30 None None
              None.

Definition store (type : SourceType) (enabled : bool) : FetchStore :=
  mkFetchStore (set_sources Example.db [feed type enabled])
               [mkGame 1 (lit "game")]
               [mkRegion 1 1 (lit "KR") (lit "Asia/Seoul")] [] 1.

Definition joined (type : SourceType) : JoinedSource :=
  mkJoined (feed type true) (lit "Asia/Seoul") (lit "KR") (lit "game").

(** The feed holds the stored notice and an edited one with dates, which
    the example store rejects. *)
Definition rss (source : JoinedSource) : Outcome (list RawCandidate) :=
  Returned [Example.candidate;
            mkCandidate (lit "https://example.test/notice/2") (lit "Pickup notice")
                        None (lit "Rate up 2026/03/01 10:00 ~ 2026/03/08 11:30")
                        (RssPayload None [])].

Definition html (source : JoinedSource) : Outcome (list RawCandidate) :=
  Thrown (lit "HTML list fetch failed with status 500").

End Hub.

Lemma returned_run_reports_what_it_logs_witness :
  let out := runSourceFetch Example.hash toLowerCaseBasicLatin Example.timestamptz
               Hub.rss Hub.html Example.now (Hub.store RSS true) 5 MANUAL in
  exists candidates run,
    fetchRawCandidates Hub.rss Hub.html (Hub.joined RSS) = Returned candidates
    /\ 5 = 5 /\ MANUAL = MANUAL
    /\ 2 = Z.of_nat (length candidates)
    /\ 0 <= 0 /\ 0 <= 1 /\ 0 + 1 <= 2
    /\ (SUMMARY_PARTIAL = SUMMARY_PARTIAL <-> 0 < 1)
    /\ ingest_runs (fst out) = ingest_runs (Hub.store RSS true) ++ [run]
    /\ ir_source_id run = Some 5
    /\ ir_mode run = RUN_MANUAL
    /\ ir_status run = RUN_PARTIAL
    /\ ir_fetched_count run = 2
    /\ ir_parsed_count run = 0
    /\ ir_error_count run = 1
    /\ (forall s, In s (sources (fs_db (fst out))) -> src_id s = 5 ->
          src_last_success_at s = Some Example.now
          /\ src_last_error_message s = None).
Proof.
  intros out.
  apply (returned_run_reports_what_it_logs Example.hash toLowerCaseBasicLatin
           Example.timestamptz Hub.rss Hub.html Example.now (Hub.store RSS true)
           (fst out) 5 MANUAL (Hub.joined RSS)
           (mkSummary 5 MANUAL 2 0 1 SUMMARY_PARTIAL)).
  - reflexivity.
  - reflexivity.
  - vm_compute. reflexivity.
Defined.

Lemma api_source_run_fails_witness :
  let message := lit "API source type is not implemented yet" in
  let out := runSourceFetch Example.hash toLowerCaseBasicLatin Example.timestamptz
               Hub.rss Hub.html Example.now (Hub.store API true) 5 SCHEDULED in
  snd out = Thrown message
  /\ ingest_runs (fst out)
     = ingest_runs (Hub.store API true) ++
         [mkRun 1 (Some 5) RUN_SCHEDULED RUN_FAILED 0 0 1 message
                Example.now Example.now]
  /\ (forall s, In s (sources (fs_db (fst out))) -> src_id s = 5 ->
        src_last_error_message s = Some message
        /\ src_last_error_at s = Some Example.now)
  /\ raw_notices (fs_db (fst out)) = raw_notices (fs_db (Hub.store API true))
  /\ events (fs_db (fst out)) = events (fs_db (Hub.store API true))
  /\ notification_schedules (fs_db (fst out))
     = notification_schedules (fs_db (Hub.store API true)).
Proof.
  apply (api_source_run_fails Example.hash toLowerCaseBasicLatin
           Example.timestamptz Hub.rss Hub.html Example.now (Hub.store API true)
           5 SCHEDULED (mkJoined (Hub.feed API true) (lit "Asia/Seoul")
                                 (lit "KR") (lit "game")));
    reflexivity.
Defined.

Lemma every_due_source_is_reported_witness :
  let res := snd (runDueSourceFetches Example.hash toLowerCaseBasicLatin
                    Example.timestamptz Hub.rss Hub.html Example.now 10
                    (Hub.store HTML_LIST true)) in
  let due := filter (isDueSource Example.now)
                    (sources (fs_db (Hub.store HTML_LIST true))) in
  processedSources res = length (summaries res)
  /\ Z.of_nat (processedSources res) = Z.min 10 (Z.of_nat (length due))
  /\ map ds_sourceId (summaries res)
     = map src_id (firstn (Z.to_nat 10) (orderBySuccess due)).
Proof.
  apply (every_due_source_is_reported Example.hash toLowerCaseBasicLatin
           Example.timestamptz Hub.rss Hub.html Example.now 10
           (Hub.store HTML_LIST true)).
  lia.
Defined.

Lemma reparse_again_adds_nothing_witness :
  let st1 := fst (reparseRawNotice Example.hash toLowerCaseBasicLatin
                    Refetch.anyTime Example.now (Hub.store RSS true) 1) in
  exists st2 run,
    reparseRawNotice Example.hash toLowerCaseBasicLatin Refetch.anyTime
                     (Example.now + 60000) st1 1
    = (st2, Returned (mkUpsertEvent 1 PUBLIC 0.7%float))
    /\ map ev_id (events (fs_db st2)) = map ev_id (events (fs_db st1))
    /\ event_raw_links (fs_db st2) = event_raw_links (fs_db st1)
    /\ ingest_runs st2 = ingest_runs st1 ++ [run]
    /\ ir_mode run = REPARSE /\ ir_status run = RUN_SUCCESS
    /\ ir_fetched_count run = 1 /\ ir_parsed_count run = 1
    /\ ir_error_count run = 0.
Proof.
  intros st1.
  apply (reparse_again_adds_nothing Example.hash toLowerCaseBasicLatin
           Refetch.anyTime Example.now (Example.now + 60000) (Hub.store RSS true)
           st1 1 (mkUpsertEvent 1 PUBLIC 0.7%float)).
  vm_compute. reflexivity.
Defined.

End FetchProps.
